(** * Health dashboard: the tabular ingestion-and-query engine

    A shallow embedding of the pure helpers and of the session state of
    [HealthProfileDashboard] (generateStableId, mapHeader, extractYear,
    extractYearMonth, aggregateTopMarkers, applyFilters, yearList,
    parseCSVData, clearData), and the properties the specification
    states about them.

    JavaScript strings are sequences of UTF-16 code units; JavaScript
    objects are property tables that remember insertion order; the numbers
    that occur (hashes, counts, years) are integers and are modelled
    exactly in [Z], [N] and [nat]. *)

From Stdlib Require Import Ascii String.
From Stdlib Require Import ZArith NArith List Bool Lia.
From Stdlib Require Import Sorted Permutation.
Import ListNotations.

(** ** Strings *)

(** A JavaScript string: the list of its UTF-16 code units. *)
Definition jsstring : Type := list N.

(** String literals of the source, all of them ASCII. *)
Fixpoint lit (s : string) : jsstring :=
  match s with
  | EmptyString => []
  | String a s' => N_of_ascii a :: lit s'
  end.
Arguments lit s%_string.

(** [===] on two strings. *)
Fixpoint str_eqb (s t : jsstring) : bool :=
  match s, t with
  | [], [] => true
  | c :: s', d :: t' => (c =? d)%N && str_eqb s' t'
  | _, _ => false
  end.

(** Truthiness of a string: every string but the empty one. *)
Definition truthy (s : jsstring) : bool :=
  match s with [] => false | _ :: _ => true end.

(** [x || ''] for a property that is a string or [undefined]. *)
Definition or_empty (x : option jsstring) : jsstring :=
  match x with
  | Some s => s
  | None => []
  end.

(** [x || d] for a property that is a string or [undefined]. *)
Definition or_default (x : option jsstring) (d : jsstring) : jsstring :=
  match x with
  | Some (c :: s) => c :: s
  | _ => d
  end.

(** ** Numbers to strings and back *)

Definition is_digit (c : N) : bool := (48 <=? c)%N && (c <=? 57)%N.

(** Decimal digits of [n], least significant first, as code units. *)
Fixpoint digits_le (fuel : nat) (n : N) : list N :=
  match fuel with
  | O => []
  | S f => (48 + n mod 10)%N :: (if (n <? 10)%N then [] else digits_le f (n / 10))
  end.

Definition N_toString (n : N) : jsstring :=
  rev (digits_le (S (N.to_nat (N.log2 n))) n).

(** [Number.prototype.toString] on an integer; the integers met here
    (hashes, years, months) are far below [10^21], where the host still
    writes plain decimal digits. *)
Definition Number_toString (z : Z) : jsstring :=
  if (z <? 0)%Z then lit "-" ++ N_toString (Z.to_N (- z)) else N_toString (Z.to_N z).

(** Value of a big-endian sequence of decimal digits. *)
Definition digits_value (s : jsstring) : N :=
  fold_left (fun acc c => (acc * 10 + (c - 48))%N) s 0%N.

(** ** Arrays *)

(** [Array.prototype.sort] with a comparator: the sort is stable, an element
    moves in front of another only where the comparator is positive for the
    pair taken in its current order. *)
Section Sort.
Context {A : Type}.
Variable compare : A -> A -> Z.

Fixpoint sort_insert (x : A) (l : list A) : list A :=
  match l with
  | [] => [x]
  | y :: l' => if (compare x y <=? 0)%Z then x :: l else y :: sort_insert x l'
  end.

Definition js_sort (l : list A) : list A := fold_right sort_insert [] l.
End Sort.

(** [Array.from(new Set(l))]: the first occurrence of every element, in
    order. *)
Fixpoint dedupe (seen l : list jsstring) : list jsstring :=
  match l with
  | [] => []
  | x :: l' => if existsb (str_eqb x) seen then dedupe seen l' else x :: dedupe (x :: seen) l'
  end.

(** ** Objects *)

(** An ordinary object with string keys: its own properties in the order
    they were created.  Reading an absent property gives [undefined]
    ([None]); properties inherited from [Object.prototype] are not part of
    the table. *)
Module Obj.
Section Table.
Context {V : Type}.

Definition t : Type := list (jsstring * V).

Fixpoint get (o : t) (k : jsstring) : option V :=
  match o with
  | [] => None
  | (k', v) :: o' => if str_eqb k' k then Some v else get o' k
  end.

(** [o[k] = v]: an existing property keeps its place, a new one is
    created last. *)
Fixpoint set (o : t) (k : jsstring) (v : V) : t :=
  match o with
  | [] => [(k, v)]
  | (k', v') :: o' => if str_eqb k' k then (k', v) :: o' else (k', v') :: set o' k v
  end.

(** An array index: the canonical decimal rendering of an integer below
    [2^32 - 1]. *)
Definition array_index (k : jsstring) : option N :=
  if forallb is_digit k && truthy k then
    let n := digits_value k in
    if str_eqb (N_toString n) k && (n <? 4294967295)%N then Some n else None
  else None.

Definition is_index (e : jsstring * V) : bool :=
  match array_index (fst e) with Some _ => true | None => false end.

Definition index_of (e : jsstring * V) : N :=
  match array_index (fst e) with Some n => n | None => 0%N end.

(** [Object.entries]: the array-index keys first, in ascending numeric
    order, then the other keys in creation order. *)
Definition entries (o : t) : list (jsstring * V) :=
  js_sort (fun a b => (Z.of_N (index_of a) - Z.of_N (index_of b))%Z) (filter is_index o)
  ++ filter (fun e => negb (is_index e)) o.
End Table.
Arguments t : clear implicits.
End Obj.

(** A parsed row, and a record: an object whose properties are strings. *)
Definition record : Type := Obj.t jsstring.

Definition k_id : jsstring := lit "id".
Definition k_date : jsstring := lit "date".
Definition k_provider : jsstring := lit "provider".
Definition k_marker : jsstring := lit "marker".
Definition k_value : jsstring := lit "value".

(** ** 32-bit integer operators *)

Definition ToInt32 (x : Z) : Z :=
  let m := (x mod 4294967296)%Z in
  if (2147483648 <=? m)%Z then (m - 4294967296)%Z else m.

(** [x << k] *)
Definition shl32 (x : Z) (k : Z) : Z :=
  ToInt32 (Z.shiftl (ToInt32 x) (Z.land k 31)).

(** [x & y] *)
Definition and32 (x y : Z) : Z :=
  ToInt32 (Z.land (ToInt32 x) (ToInt32 y)).

(** ** generateStableId *)

(** One turn of the loop: [hash = ((hash << 5) - hash) + char; hash = hash & hash]. *)
Definition hash_step (hash : Z) (char : N) : Z :=
  let hash := (shl32 hash 5 - hash + Z.of_N char)%Z in
  and32 hash hash.

Definition stable_key (r : record) : jsstring :=
  or_empty (Obj.get r k_date) ++ lit "|" ++
  or_empty (Obj.get r k_provider) ++ lit "|" ++
  or_empty (Obj.get r k_marker) ++ lit "|" ++
  or_empty (Obj.get r k_value).

Definition generateStableId (r : record) : jsstring :=
  let key := stable_key r in
  let hash := fold_left hash_step key 0%Z in
  Number_toString (Z.abs hash).

(** The [map] callback of [parseCSVData]:
    [const id = row.id || generateStableId(row); return { ...row, id }]. *)
Definition process_row (row : record) : record :=
  let id := or_default (Obj.get row k_id) (generateStableId row) in
  Obj.set row k_id id.

Definition process_rows (rows : list record) : list record :=
  map process_row rows.

(** ** Text helpers of the host language *)

(** White space of [\s] and of [String.prototype.trim]. *)
Definition is_space (c : N) : bool :=
  ((9 <=? c) && (c <=? 13) || (c =? 32) || (c =? 160) || (c =? 5760)
   || (8192 <=? c) && (c <=? 8202) || (c =? 8232) || (c =? 8233)
   || (c =? 8239) || (c =? 8287) || (c =? 12288) || (c =? 65279))%N.

Fixpoint drop_space (s : jsstring) : jsstring :=
  match s with
  | [] => []
  | c :: s' => if is_space c then drop_space s' else s
  end.

(** [s.trim()] *)
Definition trim (s : jsstring) : jsstring :=
  rev (drop_space (rev (drop_space s))).

(** [s.replace(/\s+/g, '_')]: [in_run] tells that the code unit before was
    white space of a run already replaced. *)
Fixpoint replace_space_runs (in_run : bool) (s : jsstring) : jsstring :=
  match s with
  | [] => []
  | c :: s' =>
      if is_space c
      then (if in_run then replace_space_runs true s' else 95%N :: replace_space_runs true s')
      else c :: replace_space_runs false s'
  end.

(** The class [a-z0-9]. *)
Definition is_lower_or_digit (c : N) : bool :=
  ((97 <=? c) && (c <=? 122))%N || is_digit c.

Fixpoint starts_with (t s : jsstring) : bool :=
  match t, s with
  | [], _ => true
  | c :: t', d :: s' => (c =? d)%N && starts_with t' s'
  | _ :: _, [] => false
  end.

(** [s.includes(t)] *)
Fixpoint includes (s t : jsstring) : bool :=
  starts_with t s ||
  match s with
  | [] => false
  | _ :: s' => includes s' t
  end.

(** [s.match(/(\d{4})/)]: the first capture of the leftmost match. *)
Fixpoint match_four_digits (s : jsstring) : option jsstring :=
  match s with
  | [] => None
  | _ :: s' =>
      let w := firstn 4 s in
      if (length w =? 4)%nat && forallb is_digit w then Some w else match_four_digits s'
  end.

(** [s.padStart(n, fill)] for a fill of one code unit. *)
Definition padStart (s : jsstring) (n : nat) (fill : N) : jsstring :=
  repeat fill (n - length s) ++ s.

(** Value of a code unit as a digit of radix [R]. *)
Definition digit_val (R : N) (c : N) : option N :=
  let v := if is_digit c then Some (c - 48)%N
           else if ((97 <=? c) && (c <=? 122))%N then Some (c - 87)%N
           else if ((65 <=? c) && (c <=? 90))%N then Some (c - 55)%N
           else None in
  match v with
  | Some d => if (d <? R)%N then Some d else None
  | None => None
  end.

(** The longest prefix of radix-[R] digits, as a number; [acc] is the value
    read so far, [None] before the first digit. *)
Fixpoint parse_digits (R : N) (s : jsstring) (acc : option N) : option N :=
  match s with
  | [] => acc
  | c :: s' =>
      match digit_val R c with
      | Some d => parse_digits R s' (Some (match acc with Some a => a * R + d | None => d end)%N)
      | None => acc
      end
  end.

(** The sign in front of the digits of [parseInt]. *)
Definition strip_sign (s : jsstring) : bool * jsstring :=
  match s with
  | c :: s' =>
      if (c =? 45)%N then (true, s')
      else if (c =? 43)%N then (false, s')
      else (false, s)
  | [] => (false, s)
  end.

(** The radix of [parseInt] without a radix argument: 16 after [0x] or
    [0X], 10 otherwise. *)
Definition strip_radix (s : jsstring) : N * jsstring :=
  match s with
  | c :: x :: s' =>
      if (c =? 48)%N && ((x =? 120)%N || (x =? 88)%N) then (16%N, s')
      else (10%N, s)
  | _ => (10%N, s)
  end.

(** [parseInt(s)] without a radix; [None] is [NaN]. *)
Definition parseInt (s : jsstring) : option Z :=
  let (neg, s) := strip_sign (drop_space s) in
  let (R, s) := strip_radix s in
  match parse_digits R s None with
  | Some n => Some (if neg then (- Z.of_N n)%Z else Z.of_N n)
  | None => None
  end.

(** [a === b] for a property that may be [undefined] and a string. *)
Definition prop_eqb (a : option jsstring) (b : jsstring) : bool :=
  match a with
  | Some s => str_eqb s b
  | None => false
  end.

Definition s_Unknown : jsstring := lit "Unknown".
Definition s_All : jsstring := lit "All".

(** Header aliases for flexible CSV parsing. *)
Definition HEADER_ALIASES : Obj.t (list jsstring) :=
  [ (lit "id", [lit "id"; lit "uid"; lit "recordid"]);
    (lit "marker", [lit "marker"; lit "test"; lit "name"; lit "testname"]);
    (lit "provider", [lit "provider"; lit "doctor"; lit "physician"]);
    (lit "date", [lit "date"; lit "sampledate"; lit "specimendate"; lit "testdate"]);
    (lit "value", [lit "value"; lit "result"; lit "testvalue"]);
    (lit "reference_range", [lit "reference"; lit "referencerange"; lit "refrange"; lit "range"]);
    (lit "lab", [lit "lab"; lit "laboratory"]);
    (lit "source_file", [lit "sourcefile"; lit "source"; lit "file"]) ].

(** Names every object inherits from [Object.prototype]; a count table
    reads them as inherited members, not as absent counts. *)
Definition inherited_names : list jsstring :=
  [ lit "constructor"; lit "__proto__"; lit "hasOwnProperty"; lit "isPrototypeOf";
    lit "propertyIsEnumerable"; lit "toLocaleString"; lit "toString"; lit "valueOf";
    lit "__defineGetter__"; lit "__defineSetter__"; lit "__lookupGetter__";
    lit "__lookupSetter__" ].

Definition inherited_name (k : jsstring) : bool :=
  existsb (str_eqb k) inherited_names.

(** ** Session state *)

(** An entry of [results.errors] of the CSV parser. *)
Record parse_error : Type := mkParseError {
  pe_type : jsstring;
  pe_code : jsstring;
  pe_message : jsstring;
  pe_row : N
}.

(** What the CSV parser calls back with: [complete(results)] or
    [error(error)]. *)
Inductive parse_outcome : Type :=
| Complete (results_data : list record) (results_errors : list parse_error)
| Failed (message : jsstring).

(** The [useState] cells of the component. *)
Record state : Type := mkState {
  data : list record;
  filteredData : list record;
  searchTerm : jsstring;
  selectedProvider : jsstring;
  selectedYear : jsstring;
  error : jsstring;
  isLoading : bool;
  parseErrors : list parse_error
}.

Definition setData (v : list record) (st : state) : state :=
  mkState v (filteredData st) (searchTerm st) (selectedProvider st) (selectedYear st)
          (error st) (isLoading st) (parseErrors st).
Definition setFilteredData (v : list record) (st : state) : state :=
  mkState (data st) v (searchTerm st) (selectedProvider st) (selectedYear st)
          (error st) (isLoading st) (parseErrors st).
Definition setSearchTerm (v : jsstring) (st : state) : state :=
  mkState (data st) (filteredData st) v (selectedProvider st) (selectedYear st)
          (error st) (isLoading st) (parseErrors st).
Definition setSelectedProvider (v : jsstring) (st : state) : state :=
  mkState (data st) (filteredData st) (searchTerm st) v (selectedYear st)
          (error st) (isLoading st) (parseErrors st).
Definition setSelectedYear (v : jsstring) (st : state) : state :=
  mkState (data st) (filteredData st) (searchTerm st) (selectedProvider st) v
          (error st) (isLoading st) (parseErrors st).
Definition setError (v : jsstring) (st : state) : state :=
  mkState (data st) (filteredData st) (searchTerm st) (selectedProvider st) (selectedYear st)
          v (isLoading st) (parseErrors st).
Definition setIsLoading (v : bool) (st : state) : state :=
  mkState (data st) (filteredData st) (searchTerm st) (selectedProvider st) (selectedYear st)
          (error st) v (parseErrors st).
Definition setParseErrors (v : list parse_error) (st : state) : state :=
  mkState (data st) (filteredData st) (searchTerm st) (selectedProvider st) (selectedYear st)
          (error st) (isLoading st) v.

(** The initial cells. *)
Definition initial_state : state :=
  mkState [] [] [] s_All s_All [] false [].

(** Clear all data. *)
Definition clearData (st : state) : state :=
  let st := setData [] st in
  let st := setFilteredData [] st in
  let st := setSearchTerm [] st in
  let st := setSelectedProvider s_All st in
  let st := setSelectedYear s_All st in
  let st := setError [] st in
  setParseErrors [] st.

(** Result of a chart aggregate. *)
Record chart : Type := mkChart {
  labels : list jsstring;
  counts : list nat
}.

(** [(markerCounts[marker] || 0)] *)
Definition or_zero (x : option nat) : nat :=
  match x with
  | Some c => c
  | None => 0
  end.

Definition marker_of (r : record) : jsstring :=
  or_default (Obj.get r k_marker) s_Unknown.

(** The [forEach] of [aggregateTopMarkers]. *)
Definition count_marker (markerCounts : Obj.t nat) (r : record) : Obj.t nat :=
  let marker := marker_of r in
  Obj.set markerCounts marker (or_zero (Obj.get markerCounts marker) + 1).

(** Aggregate top markers by frequency.  The count table is read as its own
    properties only, which is what the source does for every marker that is
    not an [inherited_name]. *)
Definition top_entries (data : list record) (topN : nat) : list (jsstring * nat) :=
  let markerCounts := fold_left count_marker data [] in
  firstn topN
    (js_sort (fun a b => (Z.of_nat (snd b) - Z.of_nat (snd a))%Z) (Obj.entries markerCounts)).

Definition aggregateTopMarkers (data : list record) (topN : nat) : chart :=
  let sorted := top_entries data topN in
  mkChart (map fst sorted) (map snd sorted).

(** ** The other aggregates and lists of the dashboard *)

Definition provider_of (r : record) : jsstring :=
  or_default (Obj.get r k_provider) s_Unknown.

(** The [forEach] of [aggregateProviders]. *)
Definition count_provider (providerCounts : Obj.t nat) (r : record) : Obj.t nat :=
  let provider := provider_of r in
  Obj.set providerCounts provider (or_zero (Obj.get providerCounts provider) + 1).

(** Aggregate provider distribution.  As for the markers, the count table
    is read as its own properties only. *)
Definition aggregateProviders (data : list record) : chart :=
  let providerCounts := fold_left count_provider data [] in
  mkChart (map fst (Obj.entries providerCounts)) (map snd (Obj.entries providerCounts)).

(** [.filter(Boolean)] on properties that are strings or [undefined]. *)
Fixpoint filter_Boolean (l : list (option jsstring)) : list jsstring :=
  match l with
  | [] => []
  | Some (c :: s) :: l' => (c :: s) :: filter_Boolean l'
  | _ :: l' => filter_Boolean l'
  end.

(** The comparison of [sort()] without a comparator: strings by their code
    units. *)
Fixpoint str_compare (a b : jsstring) : Z :=
  match a, b with
  | [], [] => 0%Z
  | [], _ :: _ => (-1)%Z
  | _ :: _, [] => 1%Z
  | c :: a', d :: b' =>
      if (c <? d)%N then (-1)%Z else if (d <? c)%N then 1%Z else str_compare a' b'
  end.

(** Unique providers sorted alphabetically. *)
Definition providerList (data : list record) : list jsstring :=
  let providers := dedupe [] (filter_Boolean (map (fun r => Obj.get r k_provider) data)) in
  [s_All] ++ js_sort str_compare providers.

(** The summary statistics. *)
Record summary : Type := mkSummary {
  totalRecords : nat;
  uniqueMarkers : nat;
  uniqueProviders : nat;
  latestDate : jsstring
}.

(** What [fetch] and [response.text()] end with: the text of a response that
    is [ok], a response that is not, or an exception with its message. *)
Inductive fetch_outcome : Type :=
| FetchText (text : jsstring)
| FetchNotOk
| FetchThrew (message : jsstring).

(** The file of an upload event, and what the [FileReader] ends with. *)
Record file : Type := mkFile {
  file_name : jsstring;
  file_size : N
}.

Inductive read_outcome : Type :=
| ReadText (result : jsstring)
| ReadError.

(** ** The reference chart *)

Module RefChart.

(** An entry of [referenceData]. *)
Record item : Type := mkItem {
  panel : jsstring;
  marker : jsstring;
  low : jsstring;
  high : jsstring;
  clinical : jsstring
}.

(** Unique panels for the filter. *)
Definition panels (referenceData : list item) : list jsstring :=
  [s_All] ++ dedupe [] (map panel referenceData).

Section Chart.

Variable toLowerCase : jsstring -> jsstring.

Definition matchesSearch (searchTerm : jsstring) (it : item) : bool :=
  str_eqb searchTerm []
  || includes (toLowerCase (marker it)) (toLowerCase searchTerm)
  || includes (toLowerCase (low it)) (toLowerCase searchTerm)
  || includes (toLowerCase (high it)) (toLowerCase searchTerm)
  || includes (toLowerCase (clinical it)) (toLowerCase searchTerm).

Definition matchesPanel (selectedPanel : jsstring) (it : item) : bool :=
  str_eqb selectedPanel s_All || str_eqb (panel it) selectedPanel.

(** Filter data based on search term and selected panel. *)
Definition filteredData (referenceData : list item) (searchTerm selectedPanel : jsstring)
  : list item :=
  filter (fun it => matchesSearch searchTerm it && matchesPanel selectedPanel it)
         referenceData.

End Chart.

(** One turn of the [reduce] that groups by panel.  The accumulator starts
    as [{}]: under a panel that names a member inherited from
    [Object.prototype] it finds that member, which has no [push], and the
    turn throws ([None]). *)
Definition group_step (acc : option (Obj.t (list item))) (it : item)
  : option (Obj.t (list item)) :=
  match acc with
  | None => None
  | Some acc =>
      if inherited_name (panel it) then None
      else
        let acc := match Obj.get acc (panel it) with
                   | Some _ => acc
                   | None => Obj.set acc (panel it) []
                   end in
        let items := match Obj.get acc (panel it) with
                     | Some items => items
                     | None => []
                     end in
        Some (Obj.set acc (panel it) (items ++ [it]))
  end.

(** Group data by panel, as the page lists it: [Object.entries(groupedData)]. *)
Definition groupedData (filtered : list item) : option (list (jsstring * list item)) :=
  match fold_left group_step filtered (Some []) with
  | Some acc => Some (Obj.entries acc)
  | None => None
  end.

End RefChart.

(** ** A host and records for the examples *)

(** Lower-casing of the letters A to Z, which is what the host does on
    ASCII text. *)
Definition lower_ascii (s : jsstring) : jsstring :=
  map (fun c => if ((65 <=? c) && (c <=? 90))%N then (c + 32)%N else c) s.

(** A calendar for dates written YYYY-MM-DD, the time value counted in
    months. *)
Definition iso_Date_parse (s : jsstring) : option Z :=
  match s with
  | [y1; y2; y3; y4; h1; m1; m2; h2; d1; d2] =>
      if forallb is_digit [y1; y2; y3; y4; m1; m2; d1; d2] && (h1 =? 45)%N && (h2 =? 45)%N
      then
        let y := Z.of_N (digits_value [y1; y2; y3; y4]) in
        let m := Z.of_N (digits_value [m1; m2]) in
        if ((1 <=? m) && (m <=? 12))%Z then Some (y * 12 + (m - 1))%Z else None
      else None
  | _ => None
  end.

Definition months_getFullYear (t : Z) : Z := (t / 12)%Z.
Definition months_getMonth (t : Z) : Z := (t mod 12)%Z.

(** A parser for texts of one cell under the header "Sample Date"; the
    empty text has no row. *)
Definition one_cell_parse (transformHeader : jsstring -> jsstring) (text : jsstring)
  : parse_outcome :=
  match text with
  | [] => Complete [] []
  | _ :: _ => Complete [[(transformHeader (lit "Sample Date"), text)]] []
  end.

Definition sample_row : record :=
  [ (k_date, lit "2024-07-15"); (k_marker, lit "WBC");
    (k_provider, lit "Dr. Smith"); (k_value, lit "5.1") ].

Definition sample_records : list record :=
  [ [ (k_id, lit "1"); (k_date, lit "2024-07-15"); (k_marker, lit "WBC");
      (k_provider, lit "Dr. Smith"); (k_value, lit "5.1") ];
    [ (k_id, lit "2"); (k_date, lit "2025-01-10"); (k_marker, lit "Glucose");
      (k_provider, lit "Dr. Jones"); (k_value, lit "95") ];
    [ (k_id, lit "3"); (k_date, lit "spring of 12345"); (k_marker, lit "WBC");
      (k_provider, lit "Dr. Jones"); (k_value, lit "4.8") ];
    [ (k_id, lit "4"); (k_marker, lit "Glucose"); (k_value, lit "101") ] ].

Definition sample_state : state :=
  mkState sample_records [] [] s_All s_All [] false [].

(** Two markers met once each, the second an array index. *)
Definition tie_records : list record :=
  [ [ (k_marker, lit "b") ]; [ (k_marker, lit "1") ] ].

(** A parser that refuses every text. *)
Definition refusing_parse (transformHeader : jsstring -> jsstring) (text : jsstring)
  : parse_outcome :=
  Failed (lit "unreadable").

Definition sample_file : file := mkFile (lit "labs.csv") 2048.

(** Two rows that differ in date and provider only by the place of a
    vertical bar. *)
Definition pipe_row_1 : record :=
  [ (k_date, lit "2024|07"); (k_provider, lit "A"); (k_marker, lit "WBC") ].
Definition pipe_row_2 : record :=
  [ (k_date, lit "2024"); (k_provider, lit "07|A"); (k_marker, lit "WBC") ].

(** Records whose first date does not parse. *)
Definition undated_first : list record :=
  [ [ (k_date, lit "last spring") ]; [ (k_date, lit "2024-07-15") ] ].

Definition sample_items : list RefChart.item :=
  [ RefChart.mkItem (lit "CBC") (lit "Hemoglobin") (lit "Iron, Vitamin B12")
                    (lit "dehydration") (lit "Low hemoglobin indicates anemia.");
    RefChart.mkItem (lit "Lipids") (lit "HDL") (lit "Omega-3") (lit "Niacin")
                    (lit "Higher is protective.");
    RefChart.mkItem (lit "CBC") (lit "Hematocrit") (lit "Iron, Folate")
                    (lit "polycythemia") (lit "Mirrors hemoglobin patterns.") ].

(** ** The parts that call the host *)

Section Dashboard.

Set Default Proof Using "Type".

(** Forgets what a statement does not mention. *)
Ltac no_host := repeat match goal with H : _ |- _ => clear H end.

(** [String.prototype.toLowerCase], the Unicode lower-casing of the host. *)
Variable toLowerCase : jsstring -> jsstring.

(** [new Date(s)]: the time value, [None] for an invalid date; and the
    local-time year and month (0 to 11) of a time value. *)
Variable Date_parse : jsstring -> option Z.
Variable getFullYear : Z -> Z.
Variable getMonth : Z -> Z.

(** The CSV parser, given [transformHeader] and the text. *)
Variable Papa_parse : (jsstring -> jsstring) -> jsstring -> parse_outcome.

(** Normalize header name. *)
Definition normalizeHeader (header : jsstring) : jsstring :=
  filter is_lower_or_digit (toLowerCase header).

(** Map header to canonical key. *)
Definition mapHeader (header : jsstring) : jsstring :=
  let normalized := normalizeHeader header in
  match find (fun e => existsb (fun alias => str_eqb (normalizeHeader alias) normalized) (snd e))
             (Obj.entries HEADER_ALIASES) with
  | Some (canonical, _) => canonical
  | None => replace_space_runs false (toLowerCase (trim header))
  end.

(** Extract year from date string. *)
Definition extractYear (dateStr : option jsstring) : jsstring :=
  match dateStr with
  | None | Some [] => s_Unknown
  | Some s =>
      match Date_parse s with
      | Some t => Number_toString (getFullYear t)
      | None =>
          match match_four_digits s with
          | Some m => m
          | None => s_Unknown
          end
      end
  end.

(** Extract year-month from date string for time series. *)
Definition extractYearMonth (dateStr : option jsstring) : jsstring :=
  match dateStr with
  | None | Some [] => s_Unknown
  | Some s =>
      match Date_parse s with
      | Some t =>
          let year := getFullYear t in
          let month := padStart (Number_toString (getMonth t + 1)) 2 48%N in
          Number_toString year ++ lit "-" ++ month
      | None => s_Unknown
      end
  end.

(** The test of the text filter. *)
Definition search_hit (term : jsstring) (r : record) : bool :=
  includes (toLowerCase (or_empty (Obj.get r k_marker))) term
  || includes (toLowerCase (or_empty (Obj.get r k_value))) term
  || includes (toLowerCase (or_empty (Obj.get r k_provider))) term.

(** Apply filters to data. *)
Definition applyFilters (st : state) : state :=
  let filtered := data st in
  let filtered :=
    if truthy (searchTerm st) then
      let term := toLowerCase (searchTerm st) in
      filter (search_hit term) filtered
    else filtered in
  let filtered :=
    if negb (str_eqb (selectedProvider st) s_All) then
      filter (fun r => prop_eqb (Obj.get r k_provider) (selectedProvider st)) filtered
    else filtered in
  let filtered :=
    if negb (str_eqb (selectedYear st) s_All) then
      filter (fun r => str_eqb (extractYear (Obj.get r k_date)) (selectedYear st)) filtered
    else filtered in
  setFilteredData filtered st.

(** The comparator of [yearList]: [parseInt(b) - parseInt(a)], a [NaN]
    counting as zero. *)
Definition year_compare (a b : jsstring) : Z :=
  match parseInt b, parseInt a with
  | Some y, Some x => (y - x)%Z
  | _, _ => 0%Z
  end.

(** Unique years sorted numerically descending, with 'Unknown' last. *)
Definition yearList (data : list record) : list jsstring :=
  let yearArray := dedupe [] (map (fun r => extractYear (Obj.get r k_date)) data) in
  let numericYears :=
    js_sort year_compare (filter (fun y => negb (str_eqb y s_Unknown)) yearArray) in
  let hasUnknown := existsb (fun y => str_eqb y s_Unknown) yearArray in
  [s_All] ++ numericYears ++ (if hasUnknown then [s_Unknown] else []).

Definition msg_no_data : jsstring := lit "No data found in the CSV file.".

Definition msg_failed_parse (filename message : jsstring) : jsstring :=
  lit "Failed to parse " ++ filename ++ lit ": " ++ message.

(** The [complete] callback of [parseCSVData]. *)
Definition on_complete (results_data : list record) (results_errors : list parse_error)
           (st : state) : state :=
  let st := setIsLoading false st in
  let st := match results_errors with
            | [] => st
            | _ :: _ => setParseErrors (firstn 5 results_errors) st
            end in
  match results_data with
  | [] => setError msg_no_data st
  | _ :: _ => setData (process_rows results_data) st
  end.

(** Parse CSV with PapaParse. *)
Definition parseCSVData (csvText filename : jsstring) (st : state) : state :=
  let st := setIsLoading true st in
  let st := setError [] st in
  let st := setParseErrors [] st in
  match Papa_parse mapHeader csvText with
  | Complete results_data results_errors => on_complete results_data results_errors st
  | Failed message =>
      let st := setIsLoading false st in
      setError (msg_failed_parse filename message) st
  end.

(** ** The other parts that call the host *)

(** [a.localeCompare(b)], the collation of the host: negative, zero or
    positive. *)
Variable localeCompare : jsstring -> jsstring -> Z.

(** The [forEach] of [aggregateMarkersOverTime]. *)
Definition count_month (monthCounts : Obj.t nat) (r : record) : Obj.t nat :=
  let month := extractYearMonth (Obj.get r k_date) in
  Obj.set monthCounts month (or_zero (Obj.get monthCounts month) + 1).

Definition month_entries (data : list record) : list (jsstring * nat) :=
  let monthCounts := fold_left count_month data [] in
  js_sort (fun a b => localeCompare (fst a) (fst b))
          (filter (fun e => negb (str_eqb (fst e) s_Unknown)) (Obj.entries monthCounts)).

(** Aggregate markers over time (by month). *)
Definition aggregateMarkersOverTime (data : list record) : chart :=
  let sorted := month_entries data in
  mkChart (map fst sorted) (map snd sorted).

(** [new Date(current) > new Date(latest)]: false as soon as one of the two
    dates is invalid. *)
Definition date_after (current latest : jsstring) : bool :=
  match Date_parse current, Date_parse latest with
  | Some c, Some l => (l <? c)%Z
  | _, _ => false
  end.

(** The callback of the [reduce] over the dates. *)
Definition later_date (latest current : jsstring) : jsstring :=
  if date_after current latest then current else latest.

Definition latest_of (dates : list jsstring) : jsstring :=
  match dates with
  | [] => lit "N/A"
  | first :: rest => fold_left later_date rest first
  end.

(** Compute summary statistics; [None] is [null]. *)
Definition summaryStats (data : list record) : option summary :=
  match data with
  | [] => None
  | _ :: _ =>
      let uniqueMarkers :=
        dedupe [] (filter_Boolean (map (fun r => Obj.get r k_marker) data)) in
      let uniqueProviders :=
        dedupe [] (filter_Boolean (map (fun r => Obj.get r k_provider) data)) in
      let dates := filter_Boolean (map (fun r => Obj.get r k_date) data) in
      Some (mkSummary (length data) (length uniqueMarkers) (length uniqueProviders)
                      (latest_of dates))
  end.

Definition msg_demo_failed (message : jsstring) : jsstring :=
  lit "Failed to load demo CSV: " ++ message.

(** Load demo CSV, given what the fetch ends with. *)
Definition loadDemoCSV (outcome : fetch_outcome) (st : state) : state :=
  let st := setIsLoading true st in
  let st := setError [] st in
  let catch := fun message =>
    let st := setError (msg_demo_failed message) st in
    setIsLoading false st in
  match outcome with
  | FetchText text => parseCSVData text (lit "demo CSV") st
  | FetchNotOk => catch (lit "Failed to load demo CSV")
  | FetchThrew message => catch message
  end.

Definition msg_read_failed : jsstring := lit "Failed to read file. Please try again.".

(** Handle file upload, given the file of the event, the answer that
    [window.confirm] would give and what the reader ends with.  The size in
    megabytes is the size divided by [2^20], which is exact: it exceeds 10
    when the size exceeds [10 * 2^20] bytes. *)
Definition handleFileUpload (f : option file) (proceed : bool) (read : read_outcome)
           (st : state) : state :=
  match f with
  | None => st
  | Some f =>
      if (10485760 <? file_size f)%N && negb proceed then st
      else
        match read with
        | ReadText result => parseCSVData result (file_name f) st
        | ReadError => setError msg_read_failed st
        end
  end.

(** What the page lets happen to the session, each event taken to its
    end before the next one. *)
Inductive event : Type :=
| Upload (f : option file) (proceed : bool) (read : read_outcome)
| LoadDemo (outcome : fetch_outcome)
| Clear
| TypeSearch (value : jsstring)
| SelectProvider (value : jsstring)
| SelectYear (value : jsstring)
| FilterEffect.

Definition handle (e : event) (st : state) : state :=
  match e with
  | Upload f proceed read => handleFileUpload f proceed read st
  | LoadDemo outcome => loadDemoCSV outcome st
  | Clear => clearData st
  | TypeSearch value => setSearchTerm value st
  | SelectProvider value => setSelectedProvider value st
  | SelectYear value => setSelectedYear value st
  | FilterEffect => applyFilters st
  end.

(** The sessions the page can get to. *)
Inductive reachable : state -> Prop :=
| reachable_initial : reachable initial_state
| reachable_step : forall e st, reachable st -> reachable (handle e st).

(** A record with an id that is not empty. *)
Definition has_id (r : record) : Prop :=
  exists id, Obj.get r k_id = Some id /\ id <> [].

(** Sum of the counts of a chart. *)
Definition total (counts : list nat) : nat := fold_right Nat.add 0 counts.

(** ** Vocabulary of the specification *)

(** A property that is missing or the empty string. *)
Definition missing_or_empty (x : option jsstring) : Prop :=
  x = None \/ x = Some [].

(** A field of a row, the empty string standing for a missing one. *)
Definition field (r : record) (k : jsstring) : jsstring :=
  match Obj.get r k with
  | Some s => s
  | None => []
  end.

(** The composite key [date|provider|marker|value]. *)
Definition composite_key (date provider marker value : jsstring) : jsstring :=
  date ++ [124%N] ++ provider ++ [124%N] ++ marker ++ [124%N] ++ value.

(** Truncation of an integer to 32 bits, signed. *)
Definition int32 (x : Z) : Z :=
  ((x + 2 ^ 31) mod 2 ^ 32 - 2 ^ 31)%Z.

(** The polynomial rolling hash [hash = hash * 31 + code]. *)
Definition rolling_hash (key : jsstring) : Z :=
  fold_left (fun hash code => int32 (hash * 31 + Z.of_N code)) key 0%Z.

(** [s] is the decimal rendering of [n]: digits only, of value [n], and no
    leading zero but for zero itself. *)
Definition decimal_of (s : jsstring) (n : N) : Prop :=
  Forall (fun c => (48 <= c <= 57)%N) s /\ digits_value s = n /\
  s <> [] /\ (forall s', s = 48%N :: s' -> s' = []).

(** The synthetic id of the four components. *)
Definition synthetic_id (date provider marker value : jsstring) : jsstring :=
  Number_toString (Z.abs (rolling_hash (composite_key date provider marker value))).

(** [t] occurs in [s]. *)
Definition substring (t s : jsstring) : Prop :=
  exists a b, s = a ++ t ++ b.

Definition case_insensitive_substring (t s : jsstring) : Prop :=
  substring (toLowerCase t) (toLowerCase s).

(** The three predicates of a filter specification. *)
Definition search_ok (term : jsstring) (r : record) : Prop :=
  term = [] \/
  case_insensitive_substring term (field r k_marker) \/
  case_insensitive_substring term (field r k_value) \/
  case_insensitive_substring term (field r k_provider).

Definition provider_ok (provider : jsstring) (r : record) : Prop :=
  provider = s_All \/ Obj.get r k_provider = Some provider.

Definition year_ok (year : jsstring) (r : record) : Prop :=
  year = s_All \/ extractYear (Obj.get r k_date) = year.

Definition satisfies (st : state) (r : record) : Prop :=
  search_ok (searchTerm st) r /\ provider_ok (selectedProvider st) r /\
  year_ok (selectedYear st) r.

(** [l1] is [l2] with some elements left out. *)
Inductive subseq {A : Type} : list A -> list A -> Prop :=
| subseq_nil : subseq [] []
| subseq_skip : forall x l1 l2, subseq l1 l2 -> subseq l1 (x :: l2)
| subseq_keep : forall x l1 l2, subseq l1 l2 -> subseq (x :: l1) (x :: l2).

(** [w] is the leftmost window of four digits of [s]. *)
Definition four_digits (w : jsstring) : Prop :=
  length w = 4 /\ Forall (fun c => (48 <= c <= 57)%N) w.

Definition first_four_digits (s w : jsstring) : Prop :=
  exists p q, s = p ++ w ++ q /\ four_digits w /\
    forall p' w' q', s = p' ++ w' ++ q' -> four_digits w' -> length p <= length p'.

Definition no_four_digits (s : jsstring) : Prop :=
  forall p w q, s = p ++ w ++ q -> ~ four_digits w.

(** The digits at the start of [s]. *)
Fixpoint leading_digits (s : jsstring) : jsstring :=
  match s with
  | [] => []
  | c :: s' => if is_digit c then c :: leading_digits s' else []
  end.

(** The runs of digits of [s] from left to right, a run being a block of
    consecutive digits with no digit next to it; [inside] tells that the
    code unit before [s] is a digit, whose run is listed already. *)
Fixpoint digit_runs (s : jsstring) (inside : bool) : list jsstring :=
  match s with
  | [] => []
  | c :: s' =>
      if is_digit c
      then if inside then digit_runs s' true else leading_digits s :: digit_runs s' true
      else digit_runs s' false
  end.

(** The first run of exactly four consecutive digits, for comparison with
    what the regular expression finds. *)
Definition first_run_of_exactly_four (s : jsstring) : option jsstring :=
  find (fun r => (length r =? 4)%nat) (digit_runs s false).

(** A month number 1 to 12 on two digits. *)
Definition two_digits (m : Z) : jsstring :=
  [Z.to_N (48 + m / 10); Z.to_N (48 + m mod 10)].

(** Runs of white space, each turned into one underscore: the string is
    read as a word, a run, a word, and so on. *)
Inductive underscored : jsstring -> jsstring -> Prop :=
| underscored_nil : underscored [] []
| underscored_char : forall c s r,
    is_space c = false -> underscored s r -> underscored (c :: s) (c :: r)
| underscored_run : forall run s r,
    run <> [] -> Forall (fun c => is_space c = true) run ->
    (forall c s', s = c :: s' -> is_space c = false) ->
    underscored s r -> underscored (run ++ s) (95%N :: r).

(** [s] with the white space at both ends taken off. *)
Definition trimmed (s t : jsstring) : Prop :=
  exists a b, s = a ++ t ++ b /\
    Forall (fun c => is_space c = true) a /\ Forall (fun c => is_space c = true) b /\
    (forall c t', t = c :: t' -> is_space c = false) /\
    (forall c t', t = t' ++ [c] -> is_space c = false).

(** The first entry of the alias table, in table order, whose aliases
    contain the token. *)
Definition first_alias_match (token canonical : jsstring) : Prop :=
  exists before aliases after,
    HEADER_ALIASES = before ++ (canonical, aliases) :: after /\
    In token aliases /\
    forall e, In e before -> ~ In token (snd e).

Definition no_alias_match (token : jsstring) : Prop :=
  forall e, In e HEADER_ALIASES -> ~ In token (snd e).

(** Number of records whose marker is [m]. *)
Definition occurrences (m : jsstring) (ms : list jsstring) : nat :=
  length (filter (str_eqb m) ms).

(** [a] is met in [ms] before [b] is. *)
Definition first_seen_before (ms : list jsstring) (a b : jsstring) : Prop :=
  exists l1 l2, ms = l1 ++ a :: l2 /\ ~ In a l1 /\ ~ In b l1 /\ a <> b.

(** Enumeration order of the keys of an object: array indices by value,
    then the other keys as first met. *)
Definition enumerated_before (ms : list jsstring) (a b : jsstring) : Prop :=
  match Obj.array_index a, Obj.array_index b with
  | Some i, Some j => (i < j)%N
  | Some _, None => True
  | None, Some _ => False
  | None, None => first_seen_before ms a b
  end.

(** Ties in the order in which the markers are first met. *)
Definition ties_first_seen (ms : list jsstring) (out : list (jsstring * nat)) : Prop :=
  StronglySorted (fun a b => snd a = snd b -> first_seen_before ms (fst a) (fst b)) out.

(** Ties in the enumeration order of the count table. *)
Definition ties_enumerated (ms : list jsstring) (out : list (jsstring * nat)) : Prop :=
  StronglySorted (fun a b => snd a = snd b -> enumerated_before ms (fst a) (fst b)) out.

(** The count table after one more marker. *)
Definition add_marker (markerCounts : Obj.t nat) (marker : jsstring) : Obj.t nat :=
  Obj.set markerCounts marker (or_zero (Obj.get markerCounts marker) + 1).

(** What a count table holds once the markers [ms] are counted. *)
Definition counted (ms : list jsstring) (table : Obj.t nat) : Prop :=
  NoDup (map fst table) /\
  (forall m c, In (m, c) table -> c = occurrences m ms /\ 1 <= c) /\
  (forall m, In m ms <-> In m (map fst table)) /\
  StronglySorted (first_seen_before ms) (map fst table).

(** Numeric value of a year label. *)
Definition year_number (y : jsstring) : Z :=
  match parseInt y with
  | Some z => z
  | None => 0%Z
  end.

Definition classified_years (data : list record) : list jsstring :=
  map (fun r => extractYear (Obj.get r k_date)) data.

(** The three tests of [applyFilters] as one test on a record. *)
Definition keeps (st : state) (r : record) : bool :=
  (negb (truthy (searchTerm st)) || search_hit (toLowerCase (searchTerm st)) r)
  && (str_eqb (selectedProvider st) s_All
      || prop_eqb (Obj.get r k_provider) (selectedProvider st))
  && (str_eqb (selectedYear st) s_All
      || str_eqb (extractYear (Obj.get r k_date)) (selectedYear st)).

(** [a] comes before [b] in the order of code units: at the first place
    where they differ [a] has the lesser code unit, or [a] ends there. *)
Definition code_unit_less (a b : jsstring) : Prop :=
  (exists p x y a' b', a = p ++ x :: a' /\ b = p ++ y :: b' /\ (x < y)%N) \/
  (exists y b', b = a ++ y :: b').

(** The canonical keys whose aliases contain a token. *)
Definition alias_owners (token : jsstring) : list jsstring :=
  map fst (filter (fun e => existsb (str_eqb token) (snd e)) HEADER_ALIASES).

(** The sizes of the groups of a table of groups. *)
Definition sizes {V : Type} (table : Obj.t (list V)) : Obj.t nat :=
  map (fun e => (fst e, length (snd e))) table.

(** The items of one panel. *)
Definition of_panel (p : jsstring) (items : list RefChart.item) : list RefChart.item :=
  filter (fun it => str_eqb (RefChart.panel it) p) items.

(** The table of groups after one more item. *)
Definition add_item (table : Obj.t (list RefChart.item)) (it : RefChart.item)
  : Obj.t (list RefChart.item) :=
  Obj.set table (RefChart.panel it)
          (match Obj.get table (RefChart.panel it) with
           | Some items => items
           | None => []
           end ++ [it]).

(** The text that an event hands to the parser: that of a file which was
    read, unless the file has more than 10485760 bytes and the user did
    not confirm, and that of a demo which was fetched. *)
Inductive hands_to_parser : event -> jsstring -> Prop :=
| hands_upload : forall f proceed result,
    (file_size f <= 10485760)%N \/ proceed = true ->
    hands_to_parser (Upload (Some f) proceed (ReadText result)) result
| hands_demo : forall text,
    hands_to_parser (LoadDemo (FetchText text)) text.

(** ** Assumptions on the host *)

(** Lower-casing leaves a string of lower-case ASCII letters and digits as
    it is. *)
Hypothesis toLowerCase_lower :
  forall s, forallb is_lower_or_digit s = true -> toLowerCase s = s.

(** Months are numbered 0 to 11. *)
Hypothesis getMonth_range : forall t, (0 <= getMonth t <= 11)%Z.

(** The collation is a total preorder. *)
Hypothesis localeCompare_total :
  forall a b, (0 < localeCompare a b)%Z -> (localeCompare b a <= 0)%Z.
Hypothesis localeCompare_trans :
  forall a b c, (localeCompare a b <= 0)%Z -> (localeCompare b c <= 0)%Z ->
                (localeCompare a c <= 0)%Z.

(** * Properties *)

(** ** Strings and numbers *)

Lemma str_eqb_eq : forall s t, str_eqb s t = true <-> s = t.
Proof.
  induction s as [|c s IH]; destruct t as [|d t]; simpl; split; intro H;
    try reflexivity; try discriminate.
  - apply andb_true_iff in H. destruct H as [Hc Hs].
    apply N.eqb_eq in Hc. apply IH in Hs. congruence.
  - injection H as -> ->. apply andb_true_iff. split.
    + apply N.eqb_refl.
    + apply IH. reflexivity.
Qed.

Lemma str_eqb_refl : forall s, str_eqb s s = true.
Proof. intro s. apply str_eqb_eq. reflexivity. Qed.

Lemma str_eqb_neq : forall s t, str_eqb s t = false <-> s <> t.
Proof.
  intros s t. split.
  - intros H E. apply str_eqb_eq in E. congruence.
  - intro H. destruct (str_eqb s t) eqn:E; [|reflexivity].
    apply str_eqb_eq in E. contradiction.
Qed.

Lemma str_eq_dec : forall s t : jsstring, {s = t} + {s <> t}.
Proof.
  intros s t. destruct (str_eqb s t) eqn:E.
  - left. apply str_eqb_eq. exact E.
  - right. apply str_eqb_neq. exact E.
Qed.

Lemma existsb_str_eqb_In : forall x l, existsb (str_eqb x) l = true <-> In x l.
Proof.
  intros x l. rewrite existsb_exists. split.
  - intros [y [Hy E]]. apply str_eqb_eq in E. subst. exact Hy.
  - intro H. exists x. split; [exact H | apply str_eqb_refl].
Qed.

Lemma is_digit_range : forall c, is_digit c = true <-> (48 <= c <= 57)%N.
Proof.
  intro c. unfold is_digit. rewrite andb_true_iff, !N.leb_le. reflexivity.
Qed.

Lemma digits_value_snoc : forall s c,
  digits_value (s ++ [c]) = (digits_value s * 10 + (c - 48))%N.
Proof. intros s c. unfold digits_value. rewrite fold_left_app. reflexivity. Qed.

Lemma digits_value_single : forall c, digits_value [c] = (c - 48)%N.
Proof. intro c. unfold digits_value. cbn [fold_left]. lia. Qed.

Lemma div10_bound : forall f n,
  (n < 2 * 2 ^ N.of_nat (S f))%N -> (n / 10 < 2 * 2 ^ N.of_nat f)%N.
Proof.
  intros f n H.
  rewrite Nat2N.inj_succ, N.pow_succ_r' in H.
  apply N.Div0.div_lt_upper_bound. lia.
Qed.

(** The digits written for [n] are digits, and their value is [n]. *)
Lemma digits_le_spec : forall f n,
  (n < 2 * 2 ^ N.of_nat f)%N ->
  Forall (fun c => (48 <= c <= 57)%N) (digits_le (S f) n) /\
  digits_value (rev (digits_le (S f) n)) = n.
Proof.
  induction f as [|f IH]; intros n H.
  - simpl in H. assert (Hn : (n < 10)%N) by lia.
    cbn [digits_le]. apply N.ltb_lt in Hn. rewrite Hn. apply N.ltb_lt in Hn.
    rewrite N.mod_small by exact Hn. split.
    + constructor; [cbv beta; lia | constructor].
    + cbn [rev app]. rewrite digits_value_single. lia.
  - change (digits_le (S (S f)) n)
      with ((48 + n mod 10)%N :: (if (n <? 10)%N then [] else digits_le (S f) (n / 10))).
    pose proof (N.mod_upper_bound n 10 ltac:(lia)) as Hm.
    destruct (n <? 10)%N eqn:E.
    + apply N.ltb_lt in E. rewrite N.mod_small by exact E. split.
      * constructor; [cbv beta; lia | constructor].
      * cbn [rev app]. rewrite digits_value_single. lia.
    + destruct (IH (n / 10)%N (div10_bound f n H)) as [IH1 IH2]. split.
      * constructor; [cbv beta; generalize dependent (n mod 10)%N; intros; lia | exact IH1].
      * cbn [rev]. rewrite digits_value_snoc, IH2.
        pose proof (N.div_mod n 10 ltac:(lia)) as Hdm.
        clear IH IH1 IH2 H E. revert Hm Hdm.
        generalize (n mod 10)%N (n / 10)%N. intros; lia.
Qed.

(** The most significant digit is zero for zero only. *)
Lemma digits_le_msd : forall f n,
  (n < 2 * 2 ^ N.of_nat f)%N ->
  exists d l, digits_le (S f) n = l ++ [d] /\ (d = 48%N -> l = [] /\ n = 0%N).
Proof.
  induction f as [|f IH]; intros n H.
  - simpl in H. assert (Hn : (n < 10)%N) by lia.
    cbn [digits_le]. apply N.ltb_lt in Hn. rewrite Hn. apply N.ltb_lt in Hn.
    exists (48 + n mod 10)%N, []. split; [reflexivity| ].
    rewrite N.mod_small by exact Hn. intro. split; [reflexivity | lia].
  - change (digits_le (S (S f)) n)
      with ((48 + n mod 10)%N :: (if (n <? 10)%N then [] else digits_le (S f) (n / 10))).
    destruct (n <? 10)%N eqn:E.
    + apply N.ltb_lt in E. exists (48 + n mod 10)%N, []. split; [reflexivity| ].
      rewrite N.mod_small by exact E. intro. split; [reflexivity | lia].
    + apply N.ltb_ge in E.
      destruct (IH (n / 10)%N (div10_bound f n H)) as [d [l [Hl Hd]]].
      exists d, ((48 + n mod 10)%N :: l). split.
      * rewrite Hl. reflexivity.
      * intro Hz. destruct (Hd Hz) as [_ Hq].
        assert (n / 10 <> 0)%N.
        { intro Hq'. apply N.div_small_iff in Hq'; lia. }
        contradiction.
Qed.

Lemma N_toString_fuel : forall n, (n < 2 * 2 ^ N.of_nat (N.to_nat (N.log2 n)))%N.
Proof.
  intro n. rewrite N2Nat.id. destruct n as [|p].
  - cbn. lia.
  - pose proof (N.log2_spec (N.pos p) ltac:(lia)) as [_ H].
    rewrite N.pow_succ_r' in H. exact H.
Qed.

Lemma N_toString_decimal : forall n, decimal_of (N_toString n) n.
Proof.
  intro n. unfold decimal_of, N_toString.
  destruct (digits_le_spec _ n (N_toString_fuel n)) as [Hd Hv].
  destruct (digits_le_msd _ n (N_toString_fuel n)) as [d [l [Hl Hz]]].
  repeat split.
  - apply Forall_rev. exact Hd.
  - exact Hv.
  - rewrite Hl, rev_app_distr. discriminate.
  - intros s' Hs. rewrite Hl, rev_app_distr in Hs. cbn in Hs.
    injection Hs as Hd' Hs'. destruct (Hz Hd') as [-> _]. subst s'. reflexivity.
Qed.

Lemma N_toString_nonempty : forall n, N_toString n <> [].
Proof. intro n. apply (N_toString_decimal n). Qed.

Lemma Number_toString_nonempty : forall z, Number_toString z <> [].
Proof.
  intro z. unfold Number_toString. destruct (z <? 0)%Z.
  - discriminate.
  - apply N_toString_nonempty.
Qed.

Lemma fold_digits_acc : forall s a,
  fold_left (fun acc c => (acc * 10 + (c - 48))%N) s a
  = (a * 10 ^ N.of_nat (length s) + digits_value s)%N.
Proof. no_host.
  unfold digits_value. induction s as [|c s IH]; intro a.
  - simpl. lia.
  - cbn [fold_left length]. rewrite IH, (IH (0 * 10 + (c - 48))%N).
    rewrite Nat2N.inj_succ, N.pow_succ_r'. lia.
Qed.

Lemma decimal_length : forall s n k,
  decimal_of s n -> (n < 10 ^ N.of_nat k)%N -> 0 < k -> 1 <= length s <= k.
Proof. no_host.
  intros s n k [Hd [Hv [Hne Hz]]] Hn Hk.
  destruct s as [|c s]; [contradiction | ]. simpl. split; [lia | ].
  destruct (Nat.le_gt_cases (S (length s)) k) as [Hle | Hgt]; [exact Hle | exfalso].
  inversion Hd as [|? ? Hc _]; subst.
  assert (Hc0 : c <> 48%N).
  { intros ->. specialize (Hz s eq_refl). subst s. simpl in Hgt. lia. }
  unfold digits_value in Hn. cbn [fold_left] in Hn. rewrite fold_digits_acc in Hn.
  assert (Hp : (10 ^ N.of_nat k <= 10 ^ N.of_nat (length s))%N).
  { apply N.pow_le_mono_r; lia. }
  assert (Hone : (1 * 10 ^ N.of_nat (length s)
                  <= (0 * 10 + (c - 48)) * 10 ^ N.of_nat (length s))%N).
  { apply N.mul_le_mono_r. lia. }
  lia.
Qed.

Lemma digits_value_upper : forall s,
  Forall (fun c => (48 <= c <= 57)%N) s -> (digits_value s < 10 ^ N.of_nat (length s))%N.
Proof. no_host.
  induction s as [|c s IH]; intro H.
  - cbn. lia.
  - inversion H as [|? ? Hc Hs]; subst. specialize (IH Hs).
    unfold digits_value. cbn [fold_left length]. rewrite fold_digits_acc.
    rewrite Nat2N.inj_succ, N.pow_succ_r'.
    assert (Hm : ((0 * 10 + (c - 48)) * 10 ^ N.of_nat (length s)
                  <= 9 * 10 ^ N.of_nat (length s))%N).
    { apply N.mul_le_mono_r. lia. }
    lia.
Qed.

(** A year from 1000 to 9999 is written on four digits. *)
Lemma four_digit_year : forall y,
  (1000 <= y <= 9999)%Z ->
  length (Number_toString y) = 4 /\
  Forall (fun c => (48 <= c <= 57)%N) (Number_toString y).
Proof. no_host.
  intros y Hy. unfold Number_toString.
  destruct (y <? 0)%Z eqn:E; [apply Z.ltb_lt in E; lia | ].
  pose proof (N_toString_decimal (Z.to_N y)) as Hd.
  split; [ | apply Hd].
  assert (Hle : 1 <= length (N_toString (Z.to_N y)) <= 4).
  { apply (decimal_length _ _ 4 Hd); [ | lia].
    change (10 ^ N.of_nat 4)%N with 10000%N. lia. }
  destruct Hd as [Hd [Hv _]].
  pose proof (digits_value_upper _ Hd) as Hu. rewrite Hv in Hu.
  destruct (Nat.eq_dec (length (N_toString (Z.to_N y))) 4) as [H4 | H4]; [exact H4 | exfalso].
  assert (Hp : (10 ^ N.of_nat (length (N_toString (Z.to_N y))) <= 10 ^ N.of_nat 3)%N).
  { apply N.pow_le_mono_r; lia. }
  change (10 ^ N.of_nat 3)%N with 1000%N in Hp. lia.
Qed.

(** ** 32-bit arithmetic *)

Lemma ToInt32_int32 : forall x, ToInt32 x = int32 x.
Proof. no_host.
  intro x. unfold ToInt32, int32.
  change (2 ^ 31)%Z with 2147483648%Z. change (2 ^ 32)%Z with 4294967296%Z.
  destruct (2147483648 <=? x mod 4294967296)%Z eqn:E;
    [apply Z.leb_le in E | apply Z.leb_gt in E];
    Z.to_euclidean_division_equations; lia.
Qed.

Lemma int32_range : forall x, (- 2 ^ 31 <= int32 x < 2 ^ 31)%Z.
Proof.
  intro x. unfold int32.
  pose proof (Z.mod_pos_bound (x + 2 ^ 31) (2 ^ 32) ltac:(lia)). lia.
Qed.

Lemma int32_shift : forall x k, int32 (x + k * 2 ^ 32) = int32 x.
Proof.
  intros x k. unfold int32.
  replace (x + k * 2 ^ 32 + 2 ^ 31)%Z with (x + 2 ^ 31 + k * 2 ^ 32)%Z by lia.
  rewrite Z.mod_add by lia. reflexivity.
Qed.

Lemma int32_repr : forall x, exists k, int32 x = (x + k * 2 ^ 32)%Z.
Proof.
  intro x. exists (- ((x + 2 ^ 31) / 2 ^ 32))%Z. unfold int32.
  pose proof (Z.div_mod (x + 2 ^ 31) (2 ^ 32) ltac:(lia)). lia.
Qed.

Lemma int32_idem : forall x, int32 (int32 x) = int32 x.
Proof.
  intro x. destruct (int32_repr x) as [k Hk]. rewrite Hk at 1. apply int32_shift.
Qed.

(** The shift-and-subtract of the source is the multiplication by 31. *)
Lemma hash_step_rolling : forall hash char,
  hash_step hash char = int32 (hash * 31 + Z.of_N char).
Proof.
  intros hash char. unfold hash_step, and32, shl32.
  rewrite Z.land_diag, !ToInt32_int32, int32_idem.
  change (Z.land 5 31) with 5%Z. rewrite Z.shiftl_mul_pow2 by lia.
  change (2 ^ 5)%Z with 32%Z.
  destruct (int32_repr hash) as [k1 H1]. rewrite H1.
  destruct (int32_repr ((hash + k1 * 2 ^ 32) * 32)) as [k2 H2]. rewrite H2.
  rewrite <- (int32_shift (hash * 31 + Z.of_N char) (32 * k1 + k2)).
  f_equal. lia.
Qed.

Lemma fold_hash_rolling : forall key hash,
  fold_left hash_step key hash =
  fold_left (fun hash code => int32 (hash * 31 + Z.of_N code)) key hash.
Proof.
  induction key as [|c key IH]; intro hash; simpl.
  - reflexivity.
  - rewrite hash_step_rolling. apply IH.
Qed.

Lemma rolling_hash_range : forall key, (- 2 ^ 31 <= rolling_hash key < 2 ^ 31)%Z.
Proof.
  intro key. unfold rolling_hash.
  destruct key as [|c key] using rev_ind.
  - simpl. lia.
  - rewrite fold_left_app. simpl. apply int32_range.
Qed.

(** ** Objects *)

Lemma get_set_same : forall (V : Type) (o : Obj.t V) k v,
  Obj.get (Obj.set o k v) k = Some v.
Proof.
  intros V o k v. induction o as [|[k' v'] o IH]; simpl.
  - rewrite str_eqb_refl. reflexivity.
  - destruct (str_eqb k' k) eqn:E; simpl; rewrite E; [reflexivity | exact IH].
Qed.

Lemma get_set_other : forall (V : Type) (o : Obj.t V) k v k',
  k' <> k -> Obj.get (Obj.set o k v) k' = Obj.get o k'.
Proof.
  intros V o k v k' Hk. induction o as [|[k0 v0] o IH]; simpl.
  - destruct (str_eqb k k') eqn:E; [|reflexivity].
    apply str_eqb_eq in E. congruence.
  - destruct (str_eqb k0 k) eqn:E; simpl.
    + apply str_eqb_eq in E. subst k0.
      destruct (str_eqb k k') eqn:E'; [|reflexivity].
      apply str_eqb_eq in E'. congruence.
    + rewrite IH. reflexivity.
Qed.

(** ** Synthetic ids *)

Lemma stable_key_composite : forall r,
  stable_key r =
  composite_key (field r k_date) (field r k_provider) (field r k_marker) (field r k_value).
Proof. intro r. reflexivity. Qed.

Lemma generateStableId_synthetic : forall r,
  generateStableId r =
  synthetic_id (field r k_date) (field r k_provider) (field r k_marker) (field r k_value).
Proof.
  intro r. unfold generateStableId, synthetic_id, rolling_hash.
  rewrite fold_hash_rolling, stable_key_composite. reflexivity.
Qed.

Lemma synthetic_id_decimal : forall d p m v,
  decimal_of (synthetic_id d p m v)
             (Z.to_N (Z.abs (rolling_hash (composite_key d p m v)))).
Proof.
  intros d p m v. unfold synthetic_id, Number_toString.
  destruct (Z.abs _ <? 0)%Z eqn:E.
  - apply Z.ltb_lt in E. lia.
  - apply N_toString_decimal.
Qed.

Lemma process_row_missing : forall row,
  missing_or_empty (Obj.get row k_id) ->
  Obj.get (process_row row) k_id = Some (generateStableId row).
Proof.
  intros row H. unfold process_row. rewrite get_set_same.
  destruct H as [-> | ->]; reflexivity.
Qed.

Lemma on_complete_data : forall rows errors st,
  rows <> [] -> data (on_complete rows errors st) = process_rows rows.
Proof.
  intros rows errors st H. unfold on_complete.
  destruct rows as [|r rows]; [contradiction | reflexivity].
Qed.

(** C1: for a row whose id is missing or empty, the id given by
    materialization is the decimal rendering of the absolute value of the
    32-bit signed rolling hash [hash = hash * 31 + code] over the code
    units of [date|provider|marker|value], a missing component counting as
    the empty string; the id depends on these four components only, and
    loading the same text again gives the same records, whatever the
    session held before. *)
Theorem synthetic_id_is_rolling_hash : forall row : record,
  missing_or_empty (Obj.get row k_id) ->
  let key := composite_key (field row k_date) (field row k_provider)
                           (field row k_marker) (field row k_value) in
  let hash := rolling_hash key in
  (- 2 ^ 31 <= hash < 2 ^ 31)%Z /\
  (exists id, Obj.get (process_row row) k_id = Some id /\
              id = Number_toString (Z.abs hash) /\
              decimal_of id (Z.to_N (Z.abs hash))) /\
  (forall row', missing_or_empty (Obj.get row' k_id) ->
     field row' k_date = field row k_date ->
     field row' k_provider = field row k_provider ->
     field row' k_marker = field row k_marker ->
     field row' k_value = field row k_value ->
     Obj.get (process_row row') k_id = Obj.get (process_row row) k_id) /\
  (forall text file1 file2 st1 st2 rows errors,
     Papa_parse mapHeader text = Complete rows errors -> rows <> [] ->
     data (parseCSVData text file1 st1) = data (parseCSVData text file2 st2)).
Proof.
  intros row Hid key hash. split; [|split; [|split]].
  - apply rolling_hash_range.
  - exists (generateStableId row). split; [|split].
    + apply process_row_missing. exact Hid.
    + apply generateStableId_synthetic.
    + rewrite generateStableId_synthetic. apply synthetic_id_decimal.
  - intros row' Hid' Hd Hp Hm Hv.
    rewrite !process_row_missing by assumption.
    rewrite !generateStableId_synthetic. congruence.
  - intros text file1 file2 st1 st2 rows errors Hparse Hrows.
    unfold parseCSVData. rewrite Hparse.
    rewrite !on_complete_data by exact Hrows. reflexivity.
Qed.

(** C2: the id of a materialized record is never empty: a non-empty id of
    the row is kept as it is, and otherwise the id is the synthetic id of
    the row's date, provider, marker and value; every other field is
    copied. *)
Theorem record_id_nonempty : forall row : record,
  exists id,
    Obj.get (process_row row) k_id = Some id /\
    id <> [] /\
    (forall v, Obj.get row k_id = Some v -> v <> [] -> id = v) /\
    (missing_or_empty (Obj.get row k_id) ->
       id = synthetic_id (field row k_date) (field row k_provider)
                         (field row k_marker) (field row k_value)) /\
    (forall k, k <> k_id -> Obj.get (process_row row) k = Obj.get row k).
Proof.
  intro row.
  exists (or_default (Obj.get row k_id) (generateStableId row)).
  split; [|split; [|split; [|split]]].
  - unfold process_row. apply get_set_same.
  - destruct (Obj.get row k_id) as [[|c s]| ]; simpl.
    + rewrite generateStableId_synthetic. apply Number_toString_nonempty.
    + discriminate.
    + rewrite generateStableId_synthetic. apply Number_toString_nonempty.
  - intros v Hv Hne. rewrite Hv. destruct v; [contradiction | reflexivity].
  - intros [H | H]; rewrite H; simpl; apply generateStableId_synthetic.
  - intros k Hk. unfold process_row. apply get_set_other. exact Hk.
Qed.

(** ** Filtering *)

Lemma starts_with_prefix : forall t s,
  starts_with t s = true <-> exists b, s = t ++ b.
Proof.
  induction t as [|c t IH]; intros s; simpl.
  - split; [intros _; exists s; reflexivity | reflexivity].
  - destruct s as [|d s].
    + split; [discriminate | intros [b Hb]; discriminate].
    + rewrite andb_true_iff, N.eqb_eq, IH. split.
      * intros [-> [b ->]]. exists b. reflexivity.
      * intros [b Hb]. injection Hb as -> ->. split; [reflexivity | exists b; reflexivity].
Qed.

Lemma includes_substring : forall s t, includes s t = true <-> substring t s.
Proof.
  unfold substring. induction s as [|d s IH]; intro t.
  - cbn [includes]. rewrite orb_false_r, starts_with_prefix. split.
    + intros [b Hb]. exists [], b. exact Hb.
    + intros [a [b H]]. destruct a; [|discriminate]. exists b. exact H.
  - cbn [includes]. rewrite orb_true_iff, starts_with_prefix, IH. split.
    + intros [[b Hb] | [a [b Hab]]].
      * exists [], b. exact Hb.
      * exists (d :: a), b. rewrite Hab. reflexivity.
    + intros [a [b H]]. destruct a as [|d' a].
      * left. exists b. exact H.
      * right. injection H as _ H. exists a, b. exact H.
Qed.

Lemma truthy_false : forall s, truthy s = false <-> s = [].
Proof. intros [|c s]; simpl; split; congruence. Qed.

Lemma field_or_empty : forall r k, or_empty (Obj.get r k) = field r k.
Proof. reflexivity. Qed.

Lemma prop_eqb_eq : forall x s, prop_eqb x s = true <-> x = Some s.
Proof.
  intros [t| ] s; simpl.
  - rewrite str_eqb_eq. split; congruence.
  - split; discriminate.
Qed.

Lemma filter_filter : forall (A : Type) (f g : A -> bool) l,
  filter f (filter g l) = filter (fun x => g x && f x) l.
Proof.
  intros A f g l. induction l as [|x l IH]; simpl.
  - reflexivity.
  - destruct (g x); simpl; [destruct (f x)| ]; rewrite IH; reflexivity.
Qed.

Lemma filter_if : forall (A : Type) (c : bool) (f : A -> bool) l,
  (if c then filter f l else l) = filter (fun x => negb c || f x) l.
Proof.
  intros A c f l. destruct c; simpl.
  - reflexivity.
  - induction l as [|x l IH]; simpl; congruence.
Qed.

Lemma filter_subseq : forall (A : Type) (f : A -> bool) l, subseq (filter f l) l.
Proof.
  intros A f l. induction l as [|x l IH]; simpl.
  - constructor.
  - destruct (f x); constructor; exact IH.
Qed.

Lemma applyFilters_filter : forall st,
  filteredData (applyFilters st) = filter (keeps st) (data st).
Proof.
  intro st. unfold applyFilters, keeps. cbn [filteredData setFilteredData].
  rewrite (filter_if _ (truthy (searchTerm st))).
  rewrite (filter_if _ (negb (str_eqb (selectedProvider st) s_All))).
  rewrite (filter_if _ (negb (str_eqb (selectedYear st) s_All))).
  rewrite !filter_filter, !negb_involutive.
  apply filter_ext. intro r. rewrite andb_assoc. reflexivity.
Qed.

Lemma keeps_satisfies : forall st r, keeps st r = true <-> satisfies st r.
Proof. no_host.
  intros st r. unfold keeps, satisfies, search_ok, provider_ok, year_ok,
    search_hit, case_insensitive_substring.
  rewrite !andb_true_iff, !orb_true_iff, negb_true_iff, truthy_false.
  rewrite !includes_substring, !str_eqb_eq, prop_eqb_eq, !field_or_empty.
  tauto.
Qed.

(** C3: the filter keeps exactly the records that satisfy the three
    predicates together: the search term is empty or is, in lower case, a
    substring of the lower-cased marker, value or provider; the provider
    selection is "All" or is the record's provider; the year selection is
    "All" or is the record's classified year. *)
Theorem filter_keeps_conjunction : forall st : state,
  filteredData (applyFilters st) = filter (keeps st) (data st) /\
  (forall r, keeps st r = true <-> satisfies st r) /\
  (forall r, In r (filteredData (applyFilters st)) <-> In r (data st) /\ satisfies st r).
Proof.
  intro st. split; [|split].
  - apply applyFilters_filter.
  - apply keeps_satisfies.
  - intro r. rewrite applyFilters_filter, filter_In, keeps_satisfies. reflexivity.
Qed.

Lemma filter_all : forall (A : Type) (f : A -> bool) l,
  (forall x, f x = true) -> filter f l = l.
Proof.
  intros A f l H. induction l as [|x l IH]; simpl.
  - reflexivity.
  - rewrite H, IH. reflexivity.
Qed.

(** C4: the filtered list is a subsequence of the record list, the record
    list itself is left as it was, and the filter specification
    [{searchTerm: "", provider: "All", year: "All"}] gives the whole
    list. *)
Theorem filter_is_subsequence : forall st : state,
  subseq (filteredData (applyFilters st)) (data st) /\
  data (applyFilters st) = data st /\
  (searchTerm st = [] -> selectedProvider st = s_All -> selectedYear st = s_All ->
   filteredData (applyFilters st) = data st).
Proof.
  intro st. split; [|split].
  - rewrite applyFilters_filter. apply filter_subseq.
  - reflexivity.
  - intros Hs Hp Hy. rewrite applyFilters_filter. apply filter_all.
    intro r. unfold keeps. rewrite Hs, Hp, Hy. reflexivity.
Qed.

(** ** Date classifier *)

Lemma app_same_length : forall (A : Type) (l1 l1' l2 l2' : list A),
  l1 ++ l2 = l1' ++ l2' -> length l1 = length l1' -> l1 = l1' /\ l2 = l2'.
Proof.
  induction l1 as [|x l1 IH]; intros [|y l1'] l2 l2' H Hl; simpl in *;
    try discriminate.
  - split; [reflexivity | exact H].
  - injection H as -> H. injection Hl as Hl.
    destruct (IH _ _ _ H Hl) as [-> ->]. split; reflexivity.
Qed.

Lemma four_digits_test : forall w,
  (length w =? 4)%nat && forallb is_digit w = true <-> four_digits w.
Proof.
  intro w. unfold four_digits.
  rewrite andb_true_iff, Nat.eqb_eq, forallb_forall, Forall_forall.
  split; intros [Hl Hd]; (split; [exact Hl| ]); intros c Hc;
    apply is_digit_range; apply Hd; exact Hc.
Qed.

Lemma firstn_window : forall (w q : jsstring), length w = 4 -> firstn 4 (w ++ q) = w.
Proof.
  intros w q H. rewrite <- H, firstn_app, Nat.sub_diag, firstn_all. simpl.
  apply app_nil_r.
Qed.

Lemma no_four_digits_nil : no_four_digits [].
Proof.
  intros p w q H [Hl _]. symmetry in H.
  apply app_eq_nil in H as [_ H]. apply app_eq_nil in H as [-> _]. discriminate.
Qed.

(** The regular expression finds the leftmost window of four digits, and
    fails only where there is none. *)
Lemma match_four_digits_spec : forall s,
  match match_four_digits s with
  | Some w => first_four_digits s w
  | None => no_four_digits s
  end.
Proof.
  induction s as [|c s IH].
  - exact no_four_digits_nil.
  - cbn [match_four_digits].
    destruct ((length (firstn 4 (c :: s)) =? 4)%nat && forallb is_digit (firstn 4 (c :: s)))
      eqn:E.
    + apply four_digits_test in E.
      exists [], (skipn 4 (c :: s)). split; [|split].
      * symmetry. apply (firstn_skipn 4 (c :: s)).
      * exact E.
      * intros. simpl. lia.
    + assert (Hhead : forall w q, c :: s = w ++ q -> ~ four_digits w).
      { intros w q Hs Hw. rewrite Hs, firstn_window in E by apply Hw.
        apply four_digits_test in Hw. congruence. }
      destruct (match_four_digits s) as [w| ].
      * destruct IH as [p [q [Hs [Hw Hmin]]]].
        exists (c :: p), q. split; [|split].
        -- rewrite Hs. reflexivity.
        -- exact Hw.
        -- intros [|c' p'] w' q' Hs' Hw'.
           ++ exfalso. exact (Hhead w' q' Hs' Hw').
           ++ injection Hs' as _ Hs'. simpl.
              apply le_n_S. exact (Hmin _ _ _ Hs' Hw').
      * intros [|c' p'] w q Hs Hw.
        -- exact (Hhead w q Hs Hw).
        -- injection Hs as _ Hs. exact (IH _ _ _ Hs Hw).
Qed.

Lemma first_four_digits_unique : forall s w w',
  first_four_digits s w -> first_four_digits s w' -> w = w'.
Proof.
  intros s w w' [p [q [Hs [Hw Hmin]]]] [p' [q' [Hs' [Hw' Hmin']]]].
  pose proof (Hmin _ _ _ Hs' Hw') as H1.
  pose proof (Hmin' _ _ _ Hs Hw) as H2.
  rewrite Hs in Hs'.
  destruct (app_same_length _ _ _ _ _ Hs' ltac:(lia)) as [_ H].
  destruct Hw as [Hl _]. destruct Hw' as [Hl' _].
  destruct (app_same_length _ _ _ _ _ H ltac:(lia)) as [Hww _]. exact Hww.
Qed.

Lemma first_four_digits_some : forall s w,
  first_four_digits s w -> ~ no_four_digits s.
Proof.
  intros s w [p [q [Hs [Hw _]]]] Hno. exact (Hno _ _ _ Hs Hw).
Qed.

Lemma two_digits_month : forall m,
  (1 <= m <= 12)%Z -> padStart (Number_toString m) 2 48%N = two_digits m.
Proof.
  intros m H.
  assert (Hm : (m = 1 \/ m = 2 \/ m = 3 \/ m = 4 \/ m = 5 \/ m = 6 \/ m = 7 \/ m = 8 \/
                m = 9 \/ m = 10 \/ m = 11 \/ m = 12)%Z) by lia.
  repeat (destruct Hm as [Hm | Hm]; [subst m; reflexivity | idtac]).
  subst m. reflexivity.
Qed.

(** On the first four code units the regular expression tests that the
    digits at the start are four at least. *)
Lemma window_test : forall s,
  (length (firstn 4 s) =? 4)%nat && forallb is_digit (firstn 4 s)
  = (4 <=? length (leading_digits s))%nat.
Proof.
  intro s. destruct s as [|a [|b [|c [|d s]]]]; cbn [firstn length forallb leading_digits];
    try (destruct (is_digit a); [ | reflexivity]);
    try (destruct (is_digit b); [ | reflexivity]);
    try (destruct (is_digit c); [ | reflexivity]);
    try (destruct (is_digit d); [ | reflexivity]);
    reflexivity.
Qed.

Lemma window_of_run : forall s,
  4 <= length (leading_digits s) -> firstn 4 s = firstn 4 (leading_digits s).
Proof.
  intros s H. destruct s as [|a [|b [|c [|d s]]]]; cbn [leading_digits length] in H |- *;
    try (destruct (is_digit a); cbn [length] in H; [ | lia]);
    try (destruct (is_digit b); cbn [length] in H; [ | lia]);
    try (destruct (is_digit c); cbn [length] in H; [ | lia]);
    try (destruct (is_digit d); cbn [length] in H; [ | lia]);
    try lia; reflexivity.
Qed.

(** The regular expression finds the first four digits of the first run
    that has four digits at least. *)
Lemma match_four_digits_runs : forall s inside,
  (inside = true -> length (leading_digits s) < 4) ->
  match_four_digits s
  = option_map (firstn 4) (find (fun r => (4 <=? length r)%nat) (digit_runs s inside)).
Proof.
  induction s as [|c s IH]; intros inside Hin; [reflexivity | ].
  cbn [match_four_digits]. rewrite window_test.
  cbn [digit_runs]. cbn [leading_digits] in Hin |- *.
  destruct (is_digit c) eqn:Ec.
  - destruct inside.
    + specialize (Hin eq_refl). cbn [length] in Hin.
      assert (E : (4 <=? length (c :: leading_digits s))%nat = false).
      { apply Nat.leb_gt. exact Hin. }
      rewrite E. apply IH. intros _. lia.
    + cbn [find].
      destruct (4 <=? length (c :: leading_digits s))%nat eqn:E.
      * cbn [option_map]. f_equal.
        apply Nat.leb_le in E.
        rewrite (window_of_run (c :: s)); cbn [leading_digits]; rewrite Ec;
          [reflexivity | exact E].
      * apply IH. intros _. apply Nat.leb_gt in E. cbn [length] in E. lia.
  - cbn [length]. change (4 <=? 0)%nat with false. apply IH. discriminate.
Qed.

(** C5: the year of an absent or empty date is "Unknown"; where the
    calendar parsing of a date fails the year is the leftmost four
    consecutive digits of the string, which are the first four digits of
    the first run of four digits at least, and "Unknown" where the string
    has no such run; the year-month has no such fallback: where the
    parsing succeeds it is the year in decimal, a hyphen and the month on
    two digits, the year on four digits when it is from 1000 to 9999, and
    it is "Unknown" otherwise. *)
Theorem date_classifier :
  extractYear None = s_Unknown /\
  extractYear (Some []) = s_Unknown /\
  extractYearMonth None = s_Unknown /\
  extractYearMonth (Some []) = s_Unknown /\
  (forall s, s <> [] -> Date_parse s = None ->
     (forall w, first_four_digits s w -> extractYear (Some s) = w) /\
     (no_four_digits s -> extractYear (Some s) = s_Unknown) /\
     (first_four_digits s (extractYear (Some s)) \/ no_four_digits s) /\
     extractYear (Some s)
       = match find (fun r => (4 <=? length r)%nat) (digit_runs s false) with
         | Some r => firstn 4 r
         | None => s_Unknown
         end /\
     extractYearMonth (Some s) = s_Unknown) /\
  (forall s t, s <> [] -> Date_parse s = Some t ->
     extractYearMonth (Some s) =
       Number_toString (getFullYear t) ++ lit "-" ++ two_digits (getMonth t + 1) /\
     Forall (fun c => (48 <= c <= 57)%N) (two_digits (getMonth t + 1)) /\
     ((1000 <= getFullYear t <= 9999)%Z ->
        four_digits (Number_toString (getFullYear t)) /\
        length (extractYearMonth (Some s)) = 7)).
Proof using getMonth_range.
  repeat (split; [reflexivity| ]). split.
  - intros s Hs Hparse. destruct s as [|c s]; [contradiction| ].
    assert (Hruns : extractYear (Some (c :: s))
                    = match find (fun r => (4 <=? length r)%nat) (digit_runs (c :: s) false) with
                      | Some r => firstn 4 r
                      | None => s_Unknown
                      end).
    { unfold extractYear. rewrite Hparse.
      rewrite (match_four_digits_runs (c :: s) false) by discriminate.
      destruct (find (fun r => (4 <=? length r)%nat) (digit_runs (c :: s) false));
        reflexivity. }
    split; [ | split; [ | split; [ | split; [exact Hruns | ]]]].
    + intros w Hw. unfold extractYear. rewrite Hparse.
      pose proof (match_four_digits_spec (c :: s)) as Hm.
      destruct (match_four_digits (c :: s)) as [w0| ].
      * exact (first_four_digits_unique _ _ _ Hm Hw).
      * exfalso. exact (first_four_digits_some _ _ Hw Hm).
    + intro Hno. unfold extractYear. rewrite Hparse.
      pose proof (match_four_digits_spec (c :: s)) as Hm.
      destruct (match_four_digits (c :: s)) as [w0| ]; [ | reflexivity].
      exfalso. exact (first_four_digits_some _ _ Hm Hno).
    + unfold extractYear. rewrite Hparse.
      pose proof (match_four_digits_spec (c :: s)) as Hm.
      destruct (match_four_digits (c :: s)) as [w0| ]; [left | right]; exact Hm.
    + unfold extractYearMonth. rewrite Hparse. reflexivity.
  - intros s t Hs Hparse. destruct s as [|c s]; [contradiction| ].
    assert (Hbucket : extractYearMonth (Some (c :: s)) =
              Number_toString (getFullYear t) ++ lit "-" ++ two_digits (getMonth t + 1)).
    { unfold extractYearMonth. rewrite Hparse.
      rewrite two_digits_month; [reflexivity| ].
      pose proof (getMonth_range t). lia. }
    split; [exact Hbucket | ]. split.
    + pose proof (getMonth_range t) as Hr.
      assert (Hm : (getMonth t = 0 \/ getMonth t = 1 \/ getMonth t = 2 \/ getMonth t = 3 \/
                    getMonth t = 4 \/ getMonth t = 5 \/ getMonth t = 6 \/ getMonth t = 7 \/
                    getMonth t = 8 \/ getMonth t = 9 \/ getMonth t = 10 \/
                    getMonth t = 11)%Z) by lia.
      clear Hbucket Hparse Hs Hr.
      repeat (destruct Hm as [Hm | Hm];
              [rewrite Hm; repeat constructor; cbv; discriminate | idtac]).
      rewrite Hm; repeat constructor; cbv; discriminate.
    + intro Hy. destruct (four_digit_year _ Hy) as [Hl Hd].
      split; [split; assumption | ].
      rewrite Hbucket, !length_app, Hl. reflexivity.
Qed.

(** ** Header normalization *)

Lemma drop_space_spec : forall s,
  exists a, s = a ++ drop_space s /\
    Forall (fun c => is_space c = true) a /\
    (forall c t, drop_space s = c :: t -> is_space c = false).
Proof.
  induction s as [|c s [a [Hs [Ha Hd]]]].
  - exists []. repeat split; [constructor | discriminate].
  - cbn [drop_space]. destruct (is_space c) eqn:E.
    + exists (c :: a). repeat split.
      * simpl. rewrite <- Hs. reflexivity.
      * constructor; assumption.
      * exact Hd.
    + exists []. repeat split; [constructor | ].
      intros c' t H. injection H as <- _. exact E.
Qed.

Lemma trim_trimmed : forall s, trimmed s (trim s).
Proof.
  intro s. unfold trimmed, trim.
  destruct (drop_space_spec s) as [a [Hs [Ha Hd]]].
  destruct (drop_space_spec (rev (drop_space s))) as [b [Hm [Hb He]]].
  exists a, (rev b). split; [ | split; [ | split; [ | split]]].
  - rewrite <- rev_app_distr, <- Hm, rev_involutive. exact Hs.
  - exact Ha.
  - apply Forall_rev. exact Hb.
  - intros c t Ht. apply (Hd c (t ++ rev b)).
    rewrite <- (rev_involutive (drop_space s)), Hm, rev_app_distr, Ht. reflexivity.
  - intros c t Ht. apply (He c (rev t)).
    rewrite <- (rev_involutive (drop_space (rev (drop_space s)))), Ht, rev_app_distr.
    reflexivity.
Qed.

Lemma replace_in_run : forall s,
  replace_space_runs true s = replace_space_runs false (drop_space s).
Proof.
  induction s as [|c s IH]; simpl.
  - reflexivity.
  - destruct (is_space c) eqn:E.
    + exact IH.
    + simpl. rewrite E. reflexivity.
Qed.

Lemma drop_space_length : forall s, length (drop_space s) <= length s.
Proof.
  induction s as [|c s IH]; simpl.
  - lia.
  - destruct (is_space c); simpl; lia.
Qed.

Lemma replace_underscored_bounded : forall n s,
  length s <= n -> underscored s (replace_space_runs false s).
Proof.
  induction n as [|n IH]; intros s Hn.
  - destruct s; [constructor | simpl in Hn; lia].
  - destruct s as [|c s]; [constructor | ].
    simpl in Hn. cbn [replace_space_runs].
    destruct (is_space c) eqn:E.
    + rewrite replace_in_run.
      destruct (drop_space_spec s) as [a [Hs [Ha Hd]]].
      rewrite Hs at 1. change (c :: a ++ drop_space s) with ((c :: a) ++ drop_space s).
      apply underscored_run.
      * discriminate.
      * constructor; assumption.
      * exact Hd.
      * apply IH. pose proof (drop_space_length s). lia.
    + apply underscored_char; [exact E | apply IH; lia].
Qed.

Lemma replace_underscored : forall s, underscored s (replace_space_runs false s).
Proof. intro s. apply (replace_underscored_bounded (length s)). lia. Qed.

Lemma filter_pass : forall (A : Type) (f : A -> bool) l,
  forallb f l = true -> filter f l = l.
Proof.
  intros A f l. induction l as [|x l IH]; simpl.
  - reflexivity.
  - intro H. apply andb_true_iff in H as [Hx Hl]. rewrite Hx, IH by exact Hl.
    reflexivity.
Qed.

Lemma normalizeHeader_lower : forall s,
  forallb is_lower_or_digit s = true -> normalizeHeader s = s.
Proof using toLowerCase_lower.
  intros s H. unfold normalizeHeader. rewrite toLowerCase_lower by exact H.
  apply filter_pass. exact H.
Qed.

Lemma entries_HEADER_ALIASES : Obj.entries HEADER_ALIASES = HEADER_ALIASES.
Proof. reflexivity. Qed.

Lemma aliases_lower : forall e alias,
  In e HEADER_ALIASES -> In alias (snd e) -> forallb is_lower_or_digit alias = true.
Proof.
  assert (H : forallb (fun e => forallb (forallb is_lower_or_digit) (snd e))
                      HEADER_ALIASES = true) by reflexivity.
  intros e alias He Ha.
  rewrite forallb_forall in H. specialize (H e He).
  rewrite forallb_forall in H. exact (H alias Ha).
Qed.

(** On an entry of the table, the test of [mapHeader] is membership of the
    token in the aliases. *)
Lemma alias_test : forall token e,
  In e HEADER_ALIASES ->
  existsb (fun alias => str_eqb (normalizeHeader alias) token) (snd e) = true <->
  In token (snd e).
Proof using toLowerCase_lower.
  intros token e He. rewrite existsb_exists. split.
  - intros [alias [Ha E]]. apply str_eqb_eq in E.
    rewrite normalizeHeader_lower in E by exact (aliases_lower e alias He Ha).
    subst. exact Ha.
  - intro H. exists token. split; [exact H | ].
    rewrite normalizeHeader_lower by exact (aliases_lower e token He H).
    apply str_eqb_refl.
Qed.

Lemma find_first : forall (A : Type) (f : A -> bool) before x after,
  (forall e, In e before -> f e = false) -> f x = true ->
  find f (before ++ x :: after) = Some x.
Proof.
  intros A f before x after Hb Hx. induction before as [|y before IH]; simpl.
  - rewrite Hx. reflexivity.
  - rewrite (Hb y (or_introl eq_refl)). apply IH.
    intros e He. apply Hb. right. exact He.
Qed.

Lemma find_split : forall (A : Type) (f : A -> bool) l x,
  find f l = Some x ->
  exists before after, l = before ++ x :: after /\ f x = true /\
                       forall e, In e before -> f e = false.
Proof.
  intros A f l x. induction l as [|y l IH]; simpl; [discriminate | ].
  destruct (f y) eqn:E.
  - intro H. injection H as ->. exists [], l. repeat split; [exact E | ].
    intros e [].
  - intro H. destruct (IH H) as [before [after [Hl [Hx Hb]]]].
    exists (y :: before), after. repeat split.
    + rewrite Hl. reflexivity.
    + exact Hx.
    + intros e [<- | He]; [exact E | exact (Hb e He)].
Qed.

Lemma not_true_false : forall b : bool, b <> true <-> b = false.
Proof. intros []; split; congruence. Qed.

(** C6: the token of a header is its lower-casing with every code unit
    outside [a-z0-9] taken out; the header maps to the canonical key of the
    first entry of the alias table whose aliases contain the token, and,
    where no entry does, to the header trimmed, lower-cased and with every
    run of white space turned into one underscore; one of the two cases
    holds for every header. *)
Theorem header_normalization : forall header : jsstring,
  let token := filter is_lower_or_digit (toLowerCase header) in
  normalizeHeader header = token /\
  (forall canonical, first_alias_match token canonical -> mapHeader header = canonical) /\
  (no_alias_match token ->
     mapHeader header = replace_space_runs false (toLowerCase (trim header)) /\
     trimmed header (trim header) /\
     underscored (toLowerCase (trim header)) (mapHeader header)) /\
  ((exists canonical, first_alias_match token canonical) \/ no_alias_match token).
Proof using toLowerCase_lower.
  intros header token. split; [reflexivity | ]. split; [ | split].
  - intros canonical [before [aliases [after [Ht [Hin Hb]]]]].
    unfold mapHeader. rewrite entries_HEADER_ALIASES, Ht.
    fold token. rewrite (find_first _ _ before (canonical, aliases) after).
    + reflexivity.
    + intros e He. apply not_true_false. intro H.
      apply alias_test in H.
      * exact (Hb e He H).
      * rewrite Ht. apply in_or_app. left. exact He.
    + apply alias_test; [ | exact Hin].
      rewrite Ht. apply in_or_app. right. left. reflexivity.
  - intro Hno.
    assert (E : mapHeader header = replace_space_runs false (toLowerCase (trim header))).
    { unfold mapHeader. rewrite entries_HEADER_ALIASES. fold token.
      destruct (find _ HEADER_ALIASES) as [[c al] | ] eqn:F; [ | reflexivity].
      exfalso. pose proof (find_some _ _ F) as [He Hx].
      apply alias_test in Hx; [ | exact He]. exact (Hno _ He Hx). }
    split; [exact E | ]. split; [apply trim_trimmed | ].
    rewrite E. apply replace_underscored.
  - destruct (find (fun e => existsb (fun alias => str_eqb (normalizeHeader alias) token)
                                     (snd e)) HEADER_ALIASES) as [[c al] | ] eqn:F.
    + left. exists c. destruct (find_split _ _ _ _ F) as [before [after [Hl [Hx Hb]]]].
      exists before, al, after. split; [exact Hl | ]. split.
      * apply (alias_test token (c, al)); [ | exact Hx].
        rewrite Hl. apply in_or_app. right. left. reflexivity.
      * intros e He H.
        assert (Hin : In e HEADER_ALIASES).
        { rewrite Hl. apply in_or_app. left. exact He. }
        apply (alias_test token e Hin) in H. rewrite (Hb e He) in H. discriminate.
    + right. intros e He H. apply (alias_test token e He) in H.
      rewrite (find_none _ _ F e He) in H. discriminate.
Qed.

(** ** Loading and clearing *)

Lemma msg_no_data_distinct : forall filename message,
  msg_no_data <> msg_failed_parse filename message.
Proof. intros filename message. unfold msg_no_data, msg_failed_parse. discriminate. Qed.

(** C8: when the parser completes with no data row, the session shows the
    message "No data found in the CSV file.", which is not a message of a
    failed parse, and the records loaded before stay as they were. *)
Theorem empty_result_keeps_records :
  forall (st : state) (csvText filename : jsstring) (errors : list parse_error),
    Papa_parse mapHeader csvText = Complete [] errors ->
    let st' := parseCSVData csvText filename st in
    error st' = msg_no_data /\
    (forall file message, error st' <> msg_failed_parse file message) /\
    data st' = data st /\
    filteredData st' = filteredData st /\
    isLoading st' = false.
Proof.
  intros st csvText filename errors Hparse st'. subst st'.
  unfold parseCSVData. rewrite Hparse. unfold on_complete.
  destruct errors; cbn; repeat split; intros; apply msg_no_data_distinct.
Qed.

(** C10: clearing empties the record list and the filtered list, empties
    the search term, sets the provider and the year selections to "All",
    and clears the message and the parse warnings, in one step. *)
Theorem clear_resets_session : forall st : state,
  let st' := clearData st in
  data st' = [] /\
  filteredData st' = [] /\
  searchTerm st' = [] /\
  selectedProvider st' = s_All /\
  selectedYear st' = s_All /\
  error st' = [] /\
  parseErrors st' = [] /\
  isLoading st' = isLoading st.
Proof. intro st. cbn. repeat split. Qed.

(** ** Sorting *)

Section SortFacts.
Context {A : Type}.
Variable compare : A -> A -> Z.
Variable key : A -> Z.
Variable R : A -> A -> Prop.

(** Sorted by key, and in the order of the input where keys are equal. *)
Let sorted_stable (a b : A) : Prop :=
  (key a <= key b)%Z /\ (key a = key b -> R a b).

Lemma sort_insert_In : forall x l e,
  In e (sort_insert compare x l) <-> e = x \/ In e l.
Proof. no_host.
  intros x l e. induction l as [|y l IH]; simpl.
  - intuition congruence.
  - destruct (compare x y <=? 0)%Z; simpl; [intuition congruence | ].
    rewrite IH. intuition congruence.
Qed.

Lemma sort_insert_perm : forall x l, Permutation (sort_insert compare x l) (x :: l).
Proof.
  intros x l. induction l as [|y l IH]; simpl.
  - apply Permutation_refl.
  - destruct (compare x y <=? 0)%Z.
    + apply Permutation_refl.
    + apply Permutation_trans with (y :: x :: l).
      * apply perm_skip. exact IH.
      * apply perm_swap.
Qed.

Lemma js_sort_perm : forall l, Permutation (js_sort compare l) l.
Proof.
  induction l as [|x l IH]; simpl.
  - apply Permutation_refl.
  - apply Permutation_trans with (x :: js_sort compare l).
    + apply sort_insert_perm.
    + apply perm_skip. exact IH.
Qed.

Lemma js_sort_In : forall l e, In e (js_sort compare l) <-> In e l.
Proof.
  intros l e. split; apply Permutation_in.
  - apply js_sort_perm.
  - apply Permutation_sym, js_sort_perm.
Qed.

Lemma sort_insert_sorted : forall x l,
  (forall a b, In a (x :: l) -> In b (x :: l) -> compare a b = (key a - key b)%Z) ->
  StronglySorted sorted_stable l -> Forall (R x) l ->
  StronglySorted sorted_stable (sort_insert compare x l).
Proof. no_host.
  intros x l. induction l as [|y l IH]; intros Hc Hs Hx; simpl.
  - constructor; constructor.
  - inversion Hs as [|? ? Hs' Hy]; subst.
    inversion Hx as [|? ? Hxy Hxl]; subst.
    rewrite (Hc x y) by (simpl; auto).
    destruct (key x - key y <=? 0)%Z eqn:E;
      [apply Z.leb_le in E | apply Z.leb_gt in E].
    + constructor; [exact Hs | ].
      constructor.
      * split; [lia | intros _; exact Hxy].
      * rewrite Forall_forall in Hy, Hxl |- *. intros z Hz.
        destruct (Hy z Hz) as [Hyz _]. split; [lia | intros _; exact (Hxl z Hz)].
    + constructor.
      * apply IH; [ | exact Hs' | exact Hxl].
        intros a b Ha Hb. apply Hc; simpl in *; tauto.
      * rewrite Forall_forall in Hy |- *. intros z Hz.
        apply sort_insert_In in Hz as [-> | Hz].
        -- split; lia.
        -- exact (Hy z Hz).
Qed.

(** The sort orders by key and keeps the order of the input among equal
    keys. *)
Lemma js_sort_sorted : forall l,
  (forall a b, In a l -> In b l -> compare a b = (key a - key b)%Z) ->
  StronglySorted R l ->
  StronglySorted sorted_stable (js_sort compare l).
Proof.
  induction l as [|x l IH]; intros Hc Hs; simpl.
  - constructor.
  - inversion Hs as [|? ? Hs' Hx]; subst.
    apply sort_insert_sorted.
    + intros a b Ha Hb. apply Hc.
      * destruct Ha as [<- | Ha]; [left; reflexivity | right; apply js_sort_In, Ha].
      * destruct Hb as [<- | Hb]; [left; reflexivity | right; apply js_sort_In, Hb].
    + apply IH; [ | exact Hs'].
      intros a b Ha Hb. apply Hc; right; assumption.
    + rewrite Forall_forall in Hx |- *. intros z Hz. apply Hx, js_sort_In, Hz.
Qed.
End SortFacts.

Lemma StronglySorted_weaken : forall (A : Type) (P Q : A -> A -> Prop) l,
  (forall a b, In a l -> In b l -> P a b -> Q a b) ->
  StronglySorted P l -> StronglySorted Q l.
Proof.
  intros A P Q l. induction l as [|x l IH]; intros H Hs.
  - constructor.
  - inversion Hs as [|? ? Hs' Hx]; subst. constructor.
    + apply IH; [ | exact Hs']. intros a b Ha Hb. apply H; right; assumption.
    + rewrite Forall_forall in Hx |- *. intros z Hz.
      apply H; [left; reflexivity | right; exact Hz | exact (Hx z Hz)].
Qed.

Lemma StronglySorted_True : forall (A : Type) (l : list A),
  StronglySorted (fun _ _ => True) l.
Proof.
  intros A l. induction l as [|x l IH]; constructor.
  - exact IH.
  - apply Forall_forall. intros; exact I.
Qed.

Lemma StronglySorted_filter : forall (A : Type) (P : A -> A -> Prop) f l,
  StronglySorted P l -> StronglySorted P (filter f l).
Proof.
  intros A P f l Hs. induction Hs as [|x l Hs IH Hx]; simpl.
  - constructor.
  - destruct (f x); [ | exact IH]. constructor; [exact IH | ].
    rewrite Forall_forall in Hx |- *. intros z Hz.
    apply filter_In in Hz as [Hz _]. exact (Hx z Hz).
Qed.

Lemma In_firstn : forall (A : Type) n (l : list A) x, In x (firstn n l) -> In x l.
Proof.
  intros A n l x H. rewrite <- (firstn_skipn n l). apply in_or_app. left. exact H.
Qed.

Lemma StronglySorted_firstn : forall (A : Type) (P : A -> A -> Prop) n l,
  StronglySorted P l -> StronglySorted P (firstn n l).
Proof.
  intros A P n l Hs. revert n. induction Hs as [|x l Hs IH Hx]; intros [|n]; simpl;
    try constructor.
  - apply IH.
  - rewrite Forall_forall in Hx |- *. intros z Hz.
    apply Hx. exact (In_firstn _ _ _ _ Hz).
Qed.

Lemma StronglySorted_app : forall (A : Type) (P : A -> A -> Prop) l1 l2,
  StronglySorted P l1 -> StronglySorted P l2 ->
  (forall a b, In a l1 -> In b l2 -> P a b) ->
  StronglySorted P (l1 ++ l2).
Proof.
  intros A P l1 l2 H1 H2 H. induction H1 as [|x l1 H1 IH Hx]; simpl.
  - exact H2.
  - constructor.
    + apply IH. intros a b Ha Hb. apply H; [right; exact Ha | exact Hb].
    + apply Forall_app. split; [exact Hx | ].
      apply Forall_forall. intros z Hz. apply H; [left; reflexivity | exact Hz].
Qed.

Lemma StronglySorted_map : forall (A B : Type) (f : A -> B) (P : B -> B -> Prop) l,
  StronglySorted (fun a b => P (f a) (f b)) l -> StronglySorted P (map f l).
Proof.
  intros A B f P l Hs. induction Hs as [|x l Hs IH Hx]; simpl.
  - constructor.
  - constructor; [exact IH | ].
    rewrite Forall_forall in Hx |- *. intros z Hz.
    apply in_map_iff in Hz as [a [<- Ha]]. exact (Hx a Ha).
Qed.

(** ** Year list *)

Lemma dedupe_In : forall l seen y,
  In y (dedupe seen l) <-> In y l /\ ~ In y seen.
Proof. no_host.
  induction l as [|x l IH]; intros seen y; simpl.
  - tauto.
  - destruct (existsb (str_eqb x) seen) eqn:E.
    + apply existsb_str_eqb_In in E. rewrite IH. split.
      * tauto.
      * intros [[-> | H] Hs]; [contradiction | tauto].
    + assert (Hx : ~ In x seen).
      { intro H. apply existsb_str_eqb_In in H. congruence. }
      simpl. rewrite IH. simpl. split.
      * intros [<- | [Hy Hs]]; [tauto | ]. split; [tauto | ]. intro; apply Hs; tauto.
      * intros [[-> | Hy] Hs]; [tauto | ].
        destruct (str_eq_dec x y) as [-> | Hne]; [tauto | ].
        right. split; [exact Hy | ]. intros [? | ?]; [contradiction | tauto].
Qed.

Lemma dedupe_NoDup : forall l seen, NoDup (dedupe seen l).
Proof. no_host.
  induction l as [|x l IH]; intro seen; simpl.
  - constructor.
  - destruct (existsb (str_eqb x) seen); [apply IH | ].
    constructor; [ | apply IH].
    rewrite dedupe_In. simpl. tauto.
Qed.

Lemma digit_not_space : forall c, is_digit c = true -> is_space c = false.
Proof.
  intros c H. apply is_digit_range in H. unfold is_space.
  assert (H1 : (c <=? 13)%N = false) by (apply N.leb_gt; lia).
  assert (H2 : (8192 <=? c)%N = false) by (apply N.leb_gt; lia).
  assert (H3 : forall k, (57 < k)%N \/ (k < 48)%N -> (c =? k)%N = false)
    by (intros k Hk; apply N.eqb_neq; lia).
  rewrite H1, H2, !H3 by lia. rewrite andb_false_r. reflexivity.
Qed.

Lemma digit_val_decimal : forall c,
  is_digit c = true -> digit_val 10 c = Some (c - 48)%N.
Proof.
  intros c H. unfold digit_val. rewrite H. apply is_digit_range in H.
  assert (E : (c - 48 <? 10)%N = true) by (apply N.ltb_lt; lia).
  rewrite E. reflexivity.
Qed.

Lemma parse_digits_all : forall s a,
  forallb is_digit s = true ->
  parse_digits 10 s (Some a) = Some (fold_left (fun acc c => (acc * 10 + (c - 48))%N) s a).
Proof.
  induction s as [|c s IH]; intros a H; simpl in *.
  - reflexivity.
  - apply andb_true_iff in H as [Hc Hs].
    rewrite digit_val_decimal by exact Hc. apply IH. exact Hs.
Qed.

Lemma parse_digits_decimal : forall s,
  s <> [] -> forallb is_digit s = true ->
  parse_digits 10 s None = Some (digits_value s).
Proof.
  intros [|c s] Hne H; [contradiction | ]. simpl in H.
  apply andb_true_iff in H as [Hc Hs]. cbn [parse_digits].
  rewrite digit_val_decimal by exact Hc.
  rewrite parse_digits_all by exact Hs. reflexivity.
Qed.

Lemma strip_sign_digit : forall c s,
  is_digit c = true -> strip_sign (c :: s) = (false, c :: s).
Proof.
  intros c s H. apply is_digit_range in H. unfold strip_sign.
  assert (E1 : (c =? 45)%N = false) by (apply N.eqb_neq; lia).
  assert (E2 : (c =? 43)%N = false) by (apply N.eqb_neq; lia).
  rewrite E1, E2. reflexivity.
Qed.

Lemma strip_radix_digits : forall s,
  forallb is_digit s = true -> strip_radix s = (10%N, s).
Proof.
  intros [|c [|x s]] H; try reflexivity.
  cbn [forallb] in H. apply andb_true_iff in H as [_ H].
  apply andb_true_iff in H as [Hx _]. apply is_digit_range in Hx.
  unfold strip_radix.
  assert (X1 : (x =? 120)%N = false) by (apply N.eqb_neq; lia).
  assert (X2 : (x =? 88)%N = false) by (apply N.eqb_neq; lia).
  rewrite X1, X2, andb_false_r. reflexivity.
Qed.

Lemma parseInt_unsigned : forall (s : jsstring) (neg : bool),
  s <> [] -> forallb is_digit s = true ->
  (let (R, s') := strip_radix s in
   match parse_digits R s' None with
   | Some n => Some (if neg then (- Z.of_N n)%Z else Z.of_N n)
   | None => None
   end) = Some (if neg then (- Z.of_N (digits_value s))%Z else Z.of_N (digits_value s)).
Proof.
  intros s neg Hne H. rewrite strip_radix_digits by exact H.
  rewrite parse_digits_decimal by assumption. reflexivity.
Qed.

(** On a string of decimal digits [parseInt] reads its value. *)
Lemma parseInt_digits : forall s,
  s <> [] -> forallb is_digit s = true ->
  parseInt s = Some (Z.of_N (digits_value s)).
Proof.
  intros s Hne H. unfold parseInt.
  destruct s as [|c s]; [contradiction | ].
  pose proof H as H'. cbn [forallb] in H'. apply andb_true_iff in H' as [Hc Hs].
  cbn [drop_space]. rewrite (digit_not_space c Hc), (strip_sign_digit c s Hc).
  apply (parseInt_unsigned (c :: s) false Hne H).
Qed.

Lemma decimal_digits : forall s n, decimal_of s n -> forallb is_digit s = true.
Proof.
  intros s n [H _]. apply forallb_forall. intros c Hc. apply is_digit_range.
  rewrite Forall_forall in H. exact (H c Hc).
Qed.

Lemma parseInt_N_toString : forall n, parseInt (N_toString n) = Some (Z.of_N n).
Proof.
  intro n. pose proof (N_toString_decimal n) as H.
  rewrite parseInt_digits.
  - destruct H as [_ [-> _]]. reflexivity.
  - apply H.
  - exact (decimal_digits _ _ H).
Qed.

Lemma parseInt_Number_toString : forall z, parseInt (Number_toString z) = Some z.
Proof.
  intro z. unfold Number_toString. destruct (z <? 0)%Z eqn:E.
  - apply Z.ltb_lt in E.
    pose proof (N_toString_decimal (Z.to_N (- z))) as H.
    unfold parseInt.
    change (strip_sign (drop_space (lit "-" ++ N_toString (Z.to_N (- z)))))
      with (true, N_toString (Z.to_N (- z))).
    transitivity (Some (- Z.of_N (digits_value (N_toString (Z.to_N (- z)))))%Z).
    + exact (parseInt_unsigned _ true (N_toString_nonempty _) (decimal_digits _ _ H)).
    + destruct H as [_ [-> _]]. f_equal. lia.
  - apply Z.ltb_ge in E. rewrite parseInt_N_toString. f_equal. lia.
Qed.

Lemma four_digits_forallb : forall w, four_digits w -> forallb is_digit w = true.
Proof. intros w H. apply four_digits_test in H. apply andb_true_iff in H. apply H. Qed.

(** A classified year is "Unknown" or reads as a number. *)
Lemma extractYear_numeric : forall d,
  extractYear d = s_Unknown \/ exists z, parseInt (extractYear d) = Some z.
Proof.
  intros [[|c s] | ]; [left; reflexivity | | left; reflexivity].
  unfold extractYear. destruct (Date_parse (c :: s)) as [t | ].
  - right. exists (getFullYear t). apply parseInt_Number_toString.
  - pose proof (match_four_digits_spec (c :: s)) as H.
    destruct (match_four_digits (c :: s)) as [w | ]; [ | left; reflexivity].
    right. destruct H as [p [q [_ [Hw _]]]].
    exists (Z.of_N (digits_value w)). apply parseInt_digits.
    + destruct Hw as [Hl _]. destruct w; [discriminate | discriminate].
    + apply four_digits_forallb. exact Hw.
Qed.

Lemma classified_year_number : forall data y,
  In y (classified_years data) -> y <> s_Unknown -> parseInt y = Some (year_number y).
Proof.
  intros data y Hy Hne. unfold classified_years in Hy.
  apply in_map_iff in Hy as [r [<- _]].
  destruct (extractYear_numeric (Obj.get r k_date)) as [H | [z H]]; [contradiction | ].
  unfold year_number. rewrite H. reflexivity.
Qed.

(** C9: the year list is "All", then the distinct classified years other
    than "Unknown", each of them a number and in descending numeric order,
    then "Unknown", which is there exactly when some record classifies to
    it. *)
Theorem year_list_order : forall data : list record,
  exists numericYears unknown,
    yearList data = [s_All] ++ numericYears ++ unknown /\
    NoDup numericYears /\
    (forall y, In y numericYears <-> In y (classified_years data) /\ y <> s_Unknown) /\
    Forall (fun y => parseInt y = Some (year_number y)) numericYears /\
    StronglySorted (fun a b => (year_number b <= year_number a)%Z) numericYears /\
    (In s_Unknown (classified_years data) -> unknown = [s_Unknown]) /\
    (~ In s_Unknown (classified_years data) -> unknown = []).
Proof. no_host.
  intro data.
  set (yearArray := dedupe [] (classified_years data)).
  set (candidates := filter (fun y => negb (str_eqb y s_Unknown)) yearArray).
  assert (Hin : forall y, In y candidates <-> In y (classified_years data) /\ y <> s_Unknown).
  { intro y. unfold candidates, yearArray.
    rewrite filter_In, dedupe_In, negb_true_iff, str_eqb_neq. simpl. tauto. }
  assert (Hnum : forall y, In y candidates -> parseInt y = Some (year_number y)).
  { intros y Hy. apply Hin in Hy as [Hy Hne].
    exact (classified_year_number data y Hy Hne). }
  exists (js_sort year_compare candidates),
         (if existsb (fun y => str_eqb y s_Unknown) yearArray then [s_Unknown] else []).
  split; [reflexivity | ]. split; [ | split; [ | split; [ | split; [ | split]]]].
  - apply (Permutation_NoDup (Permutation_sym (js_sort_perm year_compare candidates))).
    apply NoDup_filter. apply dedupe_NoDup.
  - intro y. rewrite js_sort_In. apply Hin.
  - apply Forall_forall. intros y Hy. apply Hnum. apply js_sort_In in Hy. exact Hy.
  - apply StronglySorted_weaken
      with (P := fun a b => (- year_number a <= - year_number b)%Z /\
                            ((- year_number a)%Z = (- year_number b)%Z -> True)).
    + intros a b _ _ [H _]. lia.
    + apply js_sort_sorted.
      * intros a b Ha Hb. unfold year_compare.
        rewrite (Hnum a Ha), (Hnum b Hb). lia.
      * apply StronglySorted_True.
  - intro H.
    assert (E : existsb (fun y => str_eqb y s_Unknown) yearArray = true).
    { apply existsb_exists. exists s_Unknown. split; [ | apply str_eqb_refl].
      unfold yearArray. apply dedupe_In. simpl. tauto. }
    rewrite E. reflexivity.
  - intro H.
    destruct (existsb (fun y => str_eqb y s_Unknown) yearArray) eqn:E; [ | reflexivity].
    exfalso. apply H. apply existsb_exists in E as [y [Hy E]].
    apply str_eqb_eq in E. subst y. unfold yearArray in Hy.
    apply dedupe_In in Hy. tauto.
Qed.

(** ** Count tables *)

Lemma get_None_keys : forall (V : Type) (o : Obj.t V) k,
  Obj.get o k = None <-> ~ In k (map fst o).
Proof. no_host.
  intros V o k. induction o as [|[k' v] o IH]; simpl.
  - tauto.
  - destruct (str_eqb k' k) eqn:E.
    + apply str_eqb_eq in E. split; [discriminate | tauto].
    + apply str_eqb_neq in E. rewrite IH. tauto.
Qed.

Lemma set_absent : forall (V : Type) (o : Obj.t V) k v,
  Obj.get o k = None -> Obj.set o k v = o ++ [(k, v)].
Proof.
  intros V o k v. induction o as [|[k' v'] o IH]; simpl.
  - reflexivity.
  - destruct (str_eqb k' k); [discriminate | ]. intro H. rewrite IH by exact H.
    reflexivity.
Qed.

Lemma set_present : forall (V : Type) (o : Obj.t V) k v0 v,
  Obj.get o k = Some v0 ->
  exists o1 o2, o = o1 ++ (k, v0) :: o2 /\ Obj.set o k v = o1 ++ (k, v) :: o2.
Proof.
  intros V o k v0 v. induction o as [|[k' v'] o IH]; simpl; [discriminate | ].
  destruct (str_eqb k' k) eqn:E.
  - apply str_eqb_eq in E. subst k'. intro H. injection H as ->.
    exists [], o. split; reflexivity.
  - intro H. destruct (IH H) as [o1 [o2 [Ho Hs]]].
    exists ((k', v') :: o1), o2. rewrite Ho at 1. rewrite Hs. split; reflexivity.
Qed.

Lemma occurrences_snoc : forall m ms x,
  occurrences m (ms ++ [x]) = occurrences m ms + (if str_eqb m x then 1 else 0).
Proof.
  intros m ms x. unfold occurrences. rewrite filter_app, length_app. simpl.
  destruct (str_eqb m x); reflexivity.
Qed.

Lemma occurrences_absent : forall m ms, ~ In m ms -> occurrences m ms = 0.
Proof.
  intros m ms. unfold occurrences. induction ms as [|x ms IH]; simpl.
  - reflexivity.
  - intro H. destruct (str_eqb m x) eqn:E.
    + apply str_eqb_eq in E. subst x. exfalso. apply H. left. reflexivity.
    + apply IH. intro Hm. apply H. right. exact Hm.
Qed.

Lemma first_split : forall (a : jsstring) ms,
  In a ms -> exists l1 l2, ms = l1 ++ a :: l2 /\ ~ In a l1.
Proof. no_host.
  intros a ms. induction ms as [|x ms IH]; simpl; [tauto | ].
  intro H. destruct (str_eq_dec x a) as [-> | Hne].
  - exists [], ms. split; [reflexivity | intros []].
  - destruct H as [H | H]; [contradiction | ].
    destruct (IH H) as [l1 [l2 [Hs Hn]]].
    exists (x :: l1), l2. split.
    + rewrite Hs. reflexivity.
    + simpl. tauto.
Qed.

Lemma first_seen_before_snoc : forall ms x a b,
  first_seen_before ms a b -> first_seen_before (ms ++ [x]) a b.
Proof.
  intros ms x a b [l1 [l2 [Hs H]]]. exists l1, (l2 ++ [x]). split; [ | exact H].
  rewrite Hs, <- app_assoc. reflexivity.
Qed.

Lemma first_seen_before_new : forall ms x a,
  In a ms -> ~ In x ms -> first_seen_before (ms ++ [x]) a x.
Proof.
  intros ms x a Ha Hx. destruct (first_split a ms Ha) as [l1 [l2 [Hs Hn]]].
  exists l1, (l2 ++ [x]). split; [ | split; [ | split]].
  - rewrite Hs, <- app_assoc. reflexivity.
  - exact Hn.
  - intro H. apply Hx. rewrite Hs. apply in_or_app. left. exact H.
  - intros ->. contradiction.
Qed.

Lemma counted_nil : counted [] [].
Proof. no_host.
  unfold counted. simpl. repeat split; try constructor; try tauto; contradiction.
Qed.

(** Counting one more marker keeps the table right. *)
Lemma counted_step : forall ms table x,
  counted ms table -> counted (ms ++ [x]) (add_marker table x).
Proof. no_host.
  intros ms table x [Hnd [Hc [Hk Hs]]]. unfold add_marker.
  destruct (Obj.get table x) as [c | ] eqn:G.
  - destruct (set_present _ table x c (or_zero (Some c) + 1) G) as [o1 [o2 [Ho ->]]].
    assert (Hkeys : map fst (o1 ++ (x, or_zero (Some c) + 1) :: o2) = map fst table).
    { rewrite Ho, !map_app. reflexivity. }
    unfold counted. rewrite Hkeys. split; [exact Hnd | ]. split; [ | split].
    + intros m c' Hin. rewrite occurrences_snoc.
      apply in_app_or in Hin as [Hin | [Hin | Hin]].
      * assert (Hm : m <> x).
        { intros ->. rewrite Ho, map_app in Hnd. simpl in Hnd.
          apply NoDup_remove_2 in Hnd. apply Hnd. apply in_or_app. left.
          apply (in_map fst) in Hin. exact Hin. }
        apply str_eqb_neq in Hm. rewrite Hm, Nat.add_0_r.
        apply Hc. rewrite Ho. apply in_or_app. left. exact Hin.
      * injection Hin as <- <-. rewrite str_eqb_refl. simpl.
        destruct (Hc x c) as [-> _]; [ | lia].
        rewrite Ho. apply in_or_app. right. left. reflexivity.
      * assert (Hm : m <> x).
        { intros ->. rewrite Ho, map_app in Hnd. simpl in Hnd.
          apply NoDup_remove_2 in Hnd. apply Hnd. apply in_or_app. right.
          apply (in_map fst) in Hin. exact Hin. }
        apply str_eqb_neq in Hm. rewrite Hm, Nat.add_0_r.
        apply Hc. rewrite Ho. apply in_or_app. right. right. exact Hin.
    + intro m. rewrite in_app_iff, Hk. simpl. split; [ | tauto].
      intros [H | [<- | []]]; [exact H | ].
      rewrite Ho, map_app. apply in_or_app. right. left. reflexivity.
    + apply StronglySorted_weaken with (P := first_seen_before ms); [ | exact Hs].
      intros a b _ _. apply first_seen_before_snoc.
  - rewrite (set_absent _ table x _ G).
    pose proof (proj1 (get_None_keys _ table x) G) as Hx.
    assert (Hxm : ~ In x ms) by (rewrite Hk; exact Hx).
    unfold counted. rewrite map_app. simpl. split; [ | split; [ | split]].
    + apply NoDup_app; [exact Hnd | repeat constructor; simpl; tauto | ].
      intros k Hk1 [<- | []]. contradiction.
    + intros m c' Hin. rewrite occurrences_snoc.
      apply in_app_or in Hin as [Hin | [Hin | []]].
      * assert (Hm : m <> x).
        { intros ->. apply Hx. apply (in_map fst) in Hin. exact Hin. }
        apply str_eqb_neq in Hm. rewrite Hm, Nat.add_0_r. apply Hc. exact Hin.
      * injection Hin as <- <-. rewrite str_eqb_refl.
        rewrite (occurrences_absent x ms Hxm). simpl. lia.
    + intro m. rewrite !in_app_iff, Hk. simpl. tauto.
    + apply StronglySorted_app.
      * apply StronglySorted_weaken with (P := first_seen_before ms); [ | exact Hs].
        intros a b _ _. apply first_seen_before_snoc.
      * repeat constructor.
      * intros a b Ha [<- | []]. apply first_seen_before_new; [ | exact Hxm].
        apply Hk. exact Ha.
Qed.

Lemma fold_count_marker : forall records table,
  fold_left count_marker records table = fold_left add_marker (map marker_of records) table.
Proof.
  induction records as [|r records IH]; intro table; simpl.
  - reflexivity.
  - apply IH.
Qed.

Lemma counted_fold : forall ms' ms table,
  counted ms table -> counted (ms ++ ms') (fold_left add_marker ms' table).
Proof.
  induction ms' as [|x ms' IH]; intros ms table H; simpl.
  - rewrite app_nil_r. exact H.
  - replace (ms ++ x :: ms') with ((ms ++ [x]) ++ ms') by (rewrite <- app_assoc; reflexivity).
    apply IH. apply counted_step. exact H.
Qed.

Lemma counted_markers : forall records,
  counted (map marker_of records) (fold_left count_marker records []).
Proof.
  intro records. rewrite fold_count_marker.
  apply (counted_fold (map marker_of records) [] []). exact counted_nil.
Qed.

(** ** Enumeration order *)

Lemma StronglySorted_map_inv : forall (A B : Type) (f : A -> B) (P : B -> B -> Prop) l,
  StronglySorted P (map f l) -> StronglySorted (fun a b => P (f a) (f b)) l.
Proof.
  intros A B f P l. induction l as [|x l IH]; simpl; intro Hs.
  - constructor.
  - inversion Hs as [|? ? Hs' Hx]; subst. constructor; [apply IH; exact Hs' | ].
    rewrite Forall_forall in Hx |- *. intros z Hz. apply Hx. apply in_map. exact Hz.
Qed.

Lemma NoDup_StronglySorted : forall (A : Type) (l : list A),
  NoDup l -> StronglySorted (fun a b => a <> b) l.
Proof.
  intros A l H. induction H as [|x l Hx H IH]; constructor.
  - exact IH.
  - apply Forall_forall. intros z Hz ->. contradiction.
Qed.

Lemma filter_partition_perm : forall (A : Type) (f : A -> bool) l,
  Permutation (filter f l ++ filter (fun x => negb (f x)) l) l.
Proof.
  intros A f l. induction l as [|x l IH]; simpl.
  - constructor.
  - destruct (f x); simpl.
    + apply perm_skip. exact IH.
    + apply Permutation_sym, Permutation_cons_app, Permutation_sym. exact IH.
Qed.

Lemma entries_perm : forall (V : Type) (o : Obj.t V), Permutation (Obj.entries o) o.
Proof.
  intros V o. unfold Obj.entries.
  apply Permutation_trans with (filter Obj.is_index o ++ filter (fun e => negb (Obj.is_index e)) o).
  - apply Permutation_app_tail. apply js_sort_perm.
  - apply filter_partition_perm.
Qed.

Lemma array_index_canonical : forall k n,
  Obj.array_index k = Some n -> k = N_toString n.
Proof.
  intros k n. unfold Obj.array_index.
  destruct (forallb is_digit k && truthy k); [ | discriminate].
  destruct (str_eqb (N_toString (digits_value k)) k && (digits_value k <? 4294967295)%N)
    eqn:E; [ | discriminate].
  intro H. injection H as <-. apply andb_true_iff in E as [E _].
  apply str_eqb_eq in E. symmetry. exact E.
Qed.

Lemma is_index_true : forall (V : Type) (e : jsstring * V),
  Obj.is_index e = true -> Obj.array_index (fst e) = Some (Obj.index_of e).
Proof.
  intros V e. unfold Obj.is_index, Obj.index_of.
  destruct (Obj.array_index (fst e)); [reflexivity | discriminate].
Qed.

Lemma is_index_false : forall (V : Type) (e : jsstring * V),
  Obj.is_index e = false -> Obj.array_index (fst e) = None.
Proof.
  intros V e. unfold Obj.is_index.
  destruct (Obj.array_index (fst e)); [discriminate | reflexivity].
Qed.

(** The entries of a count table come in enumeration order. *)
Lemma entries_enumerated : forall ms (table : Obj.t nat),
  counted ms table ->
  StronglySorted (fun a b => enumerated_before ms (fst a) (fst b)) (Obj.entries table).
Proof.
  intros ms table [Hnd [_ [_ Hs]]]. unfold Obj.entries.
  apply StronglySorted_app.
  - apply StronglySorted_weaken
      with (P := fun a b : jsstring * nat =>
                   (Z.of_N (Obj.index_of a) <= Z.of_N (Obj.index_of b))%Z /\
                   (Z.of_N (Obj.index_of a) = Z.of_N (Obj.index_of b) -> fst a <> fst b)).
    + intros a b Ha Hb [Hle Hne].
      apply js_sort_In, filter_In in Ha as [_ Ha].
      apply js_sort_In, filter_In in Hb as [_ Hb].
      apply is_index_true in Ha. apply is_index_true in Hb.
      unfold enumerated_before. rewrite Ha, Hb.
      destruct (N.eq_dec (Obj.index_of a) (Obj.index_of b)) as [E | E]; [ | lia].
      exfalso. apply Hne; [congruence | ].
      rewrite (array_index_canonical _ _ Ha), (array_index_canonical _ _ Hb), E.
      reflexivity.
    + apply js_sort_sorted; [reflexivity | ].
      apply StronglySorted_filter.
      apply (StronglySorted_map_inv _ _ fst (fun a b => a <> b)).
      apply NoDup_StronglySorted. exact Hnd.
  - apply StronglySorted_weaken
      with (P := fun a b : jsstring * nat => first_seen_before ms (fst a) (fst b)).
    + intros a b Ha Hb H.
      apply filter_In in Ha as [_ Ha]. apply filter_In in Hb as [_ Hb].
      apply negb_true_iff, is_index_false in Ha.
      apply negb_true_iff, is_index_false in Hb.
      unfold enumerated_before. rewrite Ha, Hb. exact H.
    + apply StronglySorted_filter. apply StronglySorted_map_inv. exact Hs.
  - intros a b Ha Hb.
    apply js_sort_In, filter_In in Ha as [_ Ha].
    apply filter_In in Hb as [_ Hb].
    apply is_index_true in Ha. apply negb_true_iff, is_index_false in Hb.
    unfold enumerated_before. rewrite Ha, Hb. exact I.
Qed.

Lemma StronglySorted_app_inv : forall (A : Type) (P : A -> A -> Prop) l1 l2 a b,
  StronglySorted P (l1 ++ l2) -> In a l1 -> In b l2 -> P a b.
Proof.
  intros A P l1 l2 a b. induction l1 as [|x l1 IH]; simpl; intros Hs Ha Hb.
  - contradiction.
  - inversion Hs as [|? ? Hs' Hx]; subst. destruct Ha as [-> | Ha].
    + rewrite Forall_forall in Hx. apply Hx. apply in_or_app. right. exact Hb.
    + exact (IH Hs' Ha Hb).
Qed.

Lemma NoDup_firstn : forall (A : Type) n (l : list A), NoDup l -> NoDup (firstn n l).
Proof.
  intros A n l H. rewrite <- (firstn_skipn n l) in H.
  exact (NoDup_app_remove_r _ _ H).
Qed.

(** ** Top markers *)

Lemma marker_of_missing : forall r,
  missing_or_empty (Obj.get r k_marker) -> marker_of r = s_Unknown.
Proof. intros r [H | H]; unfold marker_of; rewrite H; reflexivity. Qed.

Lemma counted_keys_length : forall ms (table : Obj.t nat),
  counted ms table -> length table = length (dedupe [] ms).
Proof. no_host.
  intros ms table [Hnd [_ [Hk _]]].
  rewrite <- (length_map fst table). apply Permutation_length.
  apply NoDup_Permutation; [exact Hnd | apply dedupe_NoDup | ].
  intro m. rewrite dedupe_In, <- Hk. simpl. tauto.
Qed.

(** C7, amended: for markers that are not names inherited from
    [Object.prototype], the aggregate gives every marker met (a missing or
    empty one as "Unknown") with the number of its occurrences, at most
    [n] of them and those of highest count, in non-increasing order of
    count; entries of equal count come in the enumeration order of the
    count table: markers that are array indices first, by ascending value,
    then the other markers as first met.  Where no marker is an array
    index, equal counts come as first met. *)
Theorem top_markers_enumeration_order : forall (data : list record) (n : nat),
  Forall (fun r => inherited_name (marker_of r) = false) data ->
  let ms := map marker_of data in
  let out := top_entries data n in
  aggregateTopMarkers data n = mkChart (map fst out) (map snd out) /\
  (forall r, missing_or_empty (Obj.get r k_marker) -> marker_of r = s_Unknown) /\
  length out <= n /\
  length out = Nat.min n (length (dedupe [] ms)) /\
  NoDup (map fst out) /\
  (forall m c, In (m, c) out -> In m ms /\ c = occurrences m ms) /\
  (forall m, In m ms -> ~ In m (map fst out) ->
     forall e, In e out -> occurrences m ms <= snd e) /\
  StronglySorted (fun a b => snd b <= snd a) out /\
  ties_enumerated ms out /\
  ((forall m, In m ms -> Obj.array_index m = None) -> ties_first_seen ms out).
Proof.
  intros records n _ ms out.
  set (table := fold_left count_marker records []).
  set (compare := fun a b : jsstring * nat => (Z.of_nat (snd b) - Z.of_nat (snd a))%Z).
  set (sorted := js_sort compare (Obj.entries table)).
  assert (Hout : out = firstn n sorted) by reflexivity.
  pose proof (counted_markers records) as Hcnt. fold ms table in Hcnt.
  assert (Hperm : Permutation sorted table).
  { apply Permutation_trans with (Obj.entries table);
      [apply js_sort_perm | apply entries_perm]. }
  assert (Hsorted : StronglySorted
            (fun a b : jsstring * nat =>
               (- Z.of_nat (snd a) <= - Z.of_nat (snd b))%Z /\
               ((- Z.of_nat (snd a))%Z = (- Z.of_nat (snd b))%Z ->
                enumerated_before ms (fst a) (fst b))) sorted).
  { apply js_sort_sorted.
    - intros a b _ _. unfold compare. lia.
    - apply entries_enumerated. exact Hcnt. }
  assert (Hties : ties_enumerated ms out).
  { unfold ties_enumerated. rewrite Hout. apply StronglySorted_firstn.
    eapply StronglySorted_weaken; [ | exact Hsorted].
    intros a b _ _ [_ H] E. apply H. rewrite E. reflexivity. }
  assert (Hin : forall m c, In (m, c) out -> In m ms /\ c = occurrences m ms).
  { intros m c H. rewrite Hout in H. apply In_firstn in H.
    apply (Permutation_in _ Hperm) in H.
    destruct Hcnt as [_ [Hc [Hk _]]]. split.
    - apply Hk. apply (in_map fst) in H. exact H.
    - apply Hc. exact H. }
  split; [reflexivity | ]. split; [exact marker_of_missing | ].
  split; [rewrite Hout; apply firstn_le_length | ].
  split; [ | split; [ | split; [exact Hin | split; [ | split; [ | split]]]]].
  - rewrite Hout, length_firstn, (Permutation_length Hperm).
    rewrite (counted_keys_length ms table Hcnt). reflexivity.
  - rewrite Hout, <- firstn_map. apply NoDup_firstn.
    apply (Permutation_NoDup (Permutation_sym (Permutation_map fst Hperm))).
    apply Hcnt.
  - intros m Hm Hnot e He.
    destruct Hcnt as [_ [Hc [Hk _]]].
    apply Hk, in_map_iff in Hm as [[m' c] [Hfst Hmc]]. simpl in Hfst. subst m'.
    destruct (Hc m c Hmc) as [-> _].
    apply (Permutation_in _ (Permutation_sym Hperm)) in Hmc.
    rewrite <- (firstn_skipn n sorted), <- Hout in Hmc.
    apply in_app_or in Hmc as [Hmc | Hmc].
    + exfalso. apply Hnot. apply (in_map fst) in Hmc. exact Hmc.
    + rewrite <- (firstn_skipn n sorted), <- Hout in Hsorted.
      destruct (StronglySorted_app_inv _ _ _ _ e _ Hsorted He Hmc) as [Hle _].
      simpl in Hle. lia.
  - rewrite Hout. apply StronglySorted_firstn.
    eapply StronglySorted_weaken; [ | exact Hsorted].
    intros a b _ _ [H _]. lia.
  - exact Hties.
  - intro Hnone. unfold ties_first_seen.
    eapply StronglySorted_weaken; [ | exact Hties].
    intros [ma ca] [mb cb] Ha Hb H E. specialize (H E).
    destruct (Hin _ _ Ha) as [Hma _]. destruct (Hin _ _ Hb) as [Hmb _].
    unfold enumerated_before in H. simpl in H.
    rewrite (Hnone ma Hma), (Hnone mb Hmb) in H. exact H.
Qed.

(** * Further properties of the dashboard *)

(** ** Sorting with a comparator that is a total preorder *)

Section SortPreorder.
Context {A : Type}.
Variable compare : A -> A -> Z.
Hypothesis compare_total : forall a b, (0 < compare a b)%Z -> (compare b a <= 0)%Z.
Hypothesis compare_trans :
  forall a b c, (compare a b <= 0)%Z -> (compare b c <= 0)%Z -> (compare a c <= 0)%Z.

Lemma sort_insert_ordered : forall x l,
  StronglySorted (fun a b => (compare a b <= 0)%Z) l ->
  StronglySorted (fun a b => (compare a b <= 0)%Z) (sort_insert compare x l).
Proof using compare_total compare_trans.
  intros x l Hs. induction Hs as [|y l Hs IH Hy]; simpl.
  - constructor; constructor.
  - destruct (compare x y <=? 0)%Z eqn:E;
      [apply Z.leb_le in E | apply Z.leb_gt in E].
    + constructor; [constructor; assumption | ].
      constructor; [exact E | ].
      rewrite Forall_forall in Hy |- *. intros z Hz.
      exact (compare_trans x y z E (Hy z Hz)).
    + constructor; [exact IH | ].
      rewrite Forall_forall in Hy |- *. intros z Hz.
      apply sort_insert_In in Hz as [-> | Hz].
      * apply compare_total. exact E.
      * exact (Hy z Hz).
Qed.

Lemma js_sort_ordered : forall l,
  StronglySorted (fun a b => (compare a b <= 0)%Z) (js_sort compare l).
Proof using compare_total compare_trans.
  induction l as [|x l IH]; simpl.
  - constructor.
  - apply sort_insert_ordered. exact IH.
Qed.
End SortPreorder.

(** ** The order of strings by code units *)

Lemma str_compare_refl : forall a, str_compare a a = 0%Z.
Proof. no_host.
  induction a as [|c a IH]; simpl; [reflexivity | ].
  rewrite N.ltb_irrefl. exact IH.
Qed.

Lemma str_compare_eq : forall a b, str_compare a b = 0%Z -> a = b.
Proof. no_host.
  induction a as [|c a IH]; intros [|d b]; simpl; try discriminate; [reflexivity | ].
  destruct (c <? d)%N eqn:E1; [discriminate | ].
  destruct (d <? c)%N eqn:E2; [discriminate | ].
  apply N.ltb_ge in E1, E2. intro H. f_equal; [lia | exact (IH b H)].
Qed.

Lemma str_compare_antisym : forall a b, str_compare b a = (- str_compare a b)%Z.
Proof. no_host.
  induction a as [|c a IH]; intros [|d b]; simpl; try reflexivity.
  destruct (c <? d)%N eqn:E1; destruct (d <? c)%N eqn:E2; try reflexivity.
  - apply N.ltb_lt in E1, E2. lia.
  - apply IH.
Qed.

Lemma str_compare_total : forall a b,
  (0 < str_compare a b)%Z -> (str_compare b a <= 0)%Z.
Proof. no_host. intros a b H. rewrite str_compare_antisym. lia. Qed.

Lemma str_compare_range : forall a b, (-1 <= str_compare a b <= 1)%Z.
Proof. no_host.
  induction a as [|c a IH]; intros [|d b]; simpl; try lia.
  destruct (c <? d)%N; [lia | ]. destruct (d <? c)%N; [lia | apply IH].
Qed.

Lemma str_compare_trans : forall a b c,
  (str_compare a b <= 0)%Z -> (str_compare b c <= 0)%Z -> (str_compare a c <= 0)%Z.
Proof. no_host.
  induction a as [|x a IH]; intros [|y b] [|z c]; simpl; try lia.
  destruct (x <? y)%N eqn:E1.
    + apply N.ltb_lt in E1. intros _.
      destruct (y <? z)%N eqn:E2.
      * apply N.ltb_lt in E2. intros _.
        assert (E : (x <? z)%N = true) by (apply N.ltb_lt; lia). rewrite E. lia.
      * destruct (z <? y)%N eqn:E3; [lia | ].
        apply N.ltb_ge in E2, E3. intros _.
        assert (E : (x <? z)%N = true) by (apply N.ltb_lt; lia). rewrite E. lia.
    + destruct (y <? x)%N eqn:E2; [lia | ].
      apply N.ltb_ge in E1, E2. assert (x = y) by lia. subst y. intro Hab.
      destruct (x <? z)%N eqn:E3; [lia | ].
      destruct (z <? x)%N eqn:E4; [lia | ].
      intro Hbc. exact (IH b c Hab Hbc).
Qed.

(** [str_compare] is negative exactly where the first string is, at the
    first place the two differ, the shorter or the one of lesser code
    unit. *)
Lemma str_compare_lt : forall a b,
  (str_compare a b < 0)%Z <->
  (exists p x y a' b', a = p ++ x :: a' /\ b = p ++ y :: b' /\ (x < y)%N) \/
  (exists y b', b = a ++ y :: b').
Proof. no_host.
  induction a as [|c a IH]; intros [|d b]; simpl.
  - split; [lia | ]. intros [[p [x [y [a' [b' [H _]]]]]] | [y [b' H]]].
    + destruct p; discriminate.
    + discriminate.
  - split; [ | lia]. intros _. right. exists d, b. reflexivity.
  - split; [lia | ]. intros [[p [x [y [a' [b' [_ [H _]]]]]]] | [y [b' H]]].
    + destruct p; discriminate.
    + discriminate.
  - destruct (c <? d)%N eqn:E1.
    + apply N.ltb_lt in E1. split; [ | lia]. intros _. left.
      exists [], c, d, a, b. repeat split. exact E1.
    + apply N.ltb_ge in E1. destruct (d <? c)%N eqn:E2.
      * apply N.ltb_lt in E2. split; [lia | ].
        intros [[p [x [y [a' [b' [Ha [Hb Hxy]]]]]]] | [y [b' H]]].
        -- destruct p as [|q p]; simpl in Ha, Hb.
           ++ injection Ha as -> _. injection Hb as -> _. lia.
           ++ injection Ha as -> _. injection Hb as -> _. lia.
        -- injection H as -> _. lia.
      * apply N.ltb_ge in E2. assert (c = d) by lia. subst d. rewrite IH. split.
        -- intros [[p [x [y [a' [b' [Ha [Hb Hxy]]]]]]] | [y [b' H]]].
           ++ left. exists (c :: p), x, y, a', b'. subst. repeat split. exact Hxy.
           ++ right. exists y, b'. subst. reflexivity.
        -- intros [[p [x [y [a' [b' [Ha [Hb Hxy]]]]]]] | [y [b' H]]].
           ++ destruct p as [|q p]; simpl in Ha, Hb.
              ** injection Ha as -> _. injection Hb as -> _. lia.
              ** injection Ha as _ Ha. injection Hb as _ Hb.
                 left. exists p, x, y, a', b'. repeat split; assumption.
           ++ injection H as H. right. exists y, b'. exact H.
Qed.

(** ** Provider list *)

Lemma filter_Boolean_In : forall l s,
  In s (filter_Boolean l) <-> s <> [] /\ In (Some s) l.
Proof. no_host.
  induction l as [|x l IH]; intro s; simpl.
  - tauto.
  - destruct x as [[|c t] | ]; simpl; rewrite IH.
    + split; [tauto | ]. intros [Hs [H | H]]; [congruence | tauto].
    + split.
      * intros [<- | [Hs H]]; [split; [discriminate | left; reflexivity] | tauto].
      * intros [Hs [H | H]]; [left; congruence | tauto].
    + split; [tauto | ]. intros [Hs [H | H]]; [discriminate | tauto].
Qed.

Lemma StronglySorted_NoDup_strict : forall (A : Type) (P : A -> A -> Prop) l,
  StronglySorted P l -> NoDup l -> StronglySorted (fun a b => P a b /\ a <> b) l.
Proof. no_host.
  intros A P l Hs. induction Hs as [|x l Hs IH Hx]; intro Hnd.
  - constructor.
  - inversion Hnd as [|? ? Hnot Hnd']; subst. constructor; [exact (IH Hnd') | ].
    rewrite Forall_forall in Hx |- *. intros z Hz. split; [exact (Hx z Hz) | ].
    intros ->. contradiction.
Qed.

(** X3: the provider list is "All" followed by the providers of the
    records that are not empty, each once, in strictly ascending order of
    code units. *)
Theorem provider_list_sorted : forall data : list record,
  exists providers,
    providerList data = s_All :: providers /\
    StronglySorted code_unit_less providers /\
    (forall p, In p providers <->
               p <> [] /\ exists r, In r data /\ Obj.get r k_provider = Some p).
Proof. no_host.
  intro records.
  set (ps := dedupe [] (filter_Boolean (map (fun r => Obj.get r k_provider) records))).
  exists (js_sort str_compare ps). split; [reflexivity | ]. split.
  - apply StronglySorted_weaken
      with (P := fun a b => (str_compare a b <= 0)%Z /\ a <> b).
    + intros a b _ _ [Hle Hne]. apply str_compare_lt.
      assert (str_compare a b <> 0%Z) by (intro E; apply Hne, str_compare_eq, E). lia.
    + apply StronglySorted_NoDup_strict.
      * apply js_sort_ordered; [exact str_compare_total | exact str_compare_trans].
      * apply (Permutation_NoDup (Permutation_sym (js_sort_perm str_compare ps))).
        apply dedupe_NoDup.
  - intro p. rewrite js_sort_In. unfold ps. rewrite dedupe_In, filter_Boolean_In, in_map_iff.
    simpl. split.
    + intros [[Hp [r [Hr Hin]]] _]. split; [exact Hp | ]. exists r. tauto.
    + intros [Hp [r [Hin Hr]]]. split; [ | tauto]. split; [exact Hp | ]. exists r. tauto.
Qed.

(** ** Totals of count tables *)

Lemma total_app : forall l1 l2, total (l1 ++ l2) = total l1 + total l2.
Proof. no_host.
  induction l1 as [|x l1 IH]; intro l2; simpl.
  - reflexivity.
  - rewrite IH. lia.
Qed.

Lemma total_perm : forall l l', Permutation l l' -> total l = total l'.
Proof. no_host.
  intros l l' H. induction H; simpl; lia.
Qed.

Lemma filter_perm : forall (A : Type) (f : A -> bool) l l',
  Permutation l l' -> Permutation (filter f l) (filter f l').
Proof. no_host.
  intros A f l l' H. induction H as [ | x l l' H IH | x y l | l l' l'' H1 IH1 H2 IH2]; simpl.
  - constructor.
  - destruct (f x); [apply perm_skip | ]; exact IH.
  - destruct (f x), (f y); try apply Permutation_refl. apply perm_swap.
  - exact (Permutation_trans IH1 IH2).
Qed.

Lemma combine_fst_snd : forall (A B : Type) (l : list (A * B)),
  combine (map fst l) (map snd l) = l.
Proof. no_host.
  intros A B l. induction l as [|[a b] l IH]; simpl; [reflexivity | ].
  rewrite IH. reflexivity.
Qed.

(** Sum of the counts kept under the keys that pass [keep]. *)
Lemma add_marker_total : forall (keep : jsstring -> bool) table x,
  total (map snd (filter (fun e => keep (fst e)) (add_marker table x))) =
  total (map snd (filter (fun e => keep (fst e)) table)) + (if keep x then 1 else 0).
Proof. no_host.
  intros keep table x. unfold add_marker.
  destruct (Obj.get table x) as [c | ] eqn:G.
  - destruct (set_present _ table x c (or_zero (Some c) + 1) G) as [o1 [o2 [Ho ->]]].
    rewrite Ho, !filter_app, !map_app, !total_app. simpl.
    destruct (keep x); simpl; lia.
  - rewrite (set_absent _ table x _ G), filter_app, map_app, total_app. simpl.
    destruct (keep x); simpl; lia.
Qed.

Lemma fold_add_marker_total : forall (keep : jsstring -> bool) ms table,
  total (map snd (filter (fun e => keep (fst e)) (fold_left add_marker ms table))) =
  total (map snd (filter (fun e => keep (fst e)) table)) + length (filter keep ms).
Proof. no_host.
  intros keep ms. induction ms as [|x ms IH]; intro table; simpl.
  - lia.
  - rewrite IH, add_marker_total. destruct (keep x); simpl; lia.
Qed.

Lemma fold_count_provider : forall records table,
  fold_left count_provider records table
  = fold_left add_marker (map provider_of records) table.
Proof. no_host.
  induction records as [|r records IH]; intro table; simpl.
  - reflexivity.
  - apply IH.
Qed.

Lemma provider_of_missing : forall r,
  missing_or_empty (Obj.get r k_provider) -> provider_of r = s_Unknown.
Proof. no_host. intros r [H | H]; unfold provider_of; rewrite H; reflexivity. Qed.

(** X1: for providers that are not names inherited from [Object.prototype],
    the provider distribution has one label for each provider met (a
    missing or empty one as "Unknown"), with the number of its records as
    count; the counts add up to the number of records, and the labels come
    in the enumeration order of the count table. *)
Theorem provider_distribution : forall data : list record,
  Forall (fun r => inherited_name (provider_of r) = false) data ->
  let ps := map provider_of data in
  let c := aggregateProviders data in
  length (labels c) = length (counts c) /\
  NoDup (labels c) /\
  (forall p, In p (labels c) <-> In p ps) /\
  (forall p n, In (p, n) (combine (labels c) (counts c)) -> n = occurrences p ps) /\
  total (counts c) = length data /\
  StronglySorted (enumerated_before ps) (labels c) /\
  (forall r, missing_or_empty (Obj.get r k_provider) -> provider_of r = s_Unknown).
Proof. no_host.
  intros records _ ps c.
  set (table := fold_left count_provider records []).
  assert (Hcnt : counted ps table).
  { unfold table, ps. rewrite fold_count_provider.
    apply (counted_fold (map provider_of records) [] []). exact counted_nil. }
  pose proof (entries_perm _ table) as Hperm.
  assert (Hl : labels c = map fst (Obj.entries table)) by reflexivity.
  assert (Hc : counts c = map snd (Obj.entries table)) by reflexivity.
  rewrite Hl, Hc, combine_fst_snd.
  destruct Hcnt as [Hnd [Hocc [Hk Hs]]].
  split; [rewrite !length_map; reflexivity | ]. split; [ | split; [ | split; [ | split; [ | split]]]].
  - apply (Permutation_NoDup (Permutation_sym (Permutation_map fst Hperm))). exact Hnd.
  - intro p. rewrite Hk. split; apply Permutation_in, Permutation_map.
    + exact Hperm.
    + apply Permutation_sym. exact Hperm.
  - intros p n H. apply (Permutation_in _ Hperm) in H. apply Hocc. exact H.
  - rewrite (total_perm _ _ (Permutation_map snd Hperm)).
    pose proof (fold_add_marker_total (fun _ => true) ps []) as Ht.
    unfold table. rewrite fold_count_provider. fold ps.
    rewrite (filter_all _ (fun e : jsstring * nat => true)) in Ht by reflexivity.
    rewrite Ht. simpl. rewrite (filter_all _ (fun _ => true)) by reflexivity.
    unfold ps. apply length_map.
  - apply StronglySorted_map. apply entries_enumerated.
    split; [exact Hnd | ]. split; [exact Hocc | ]. split; [exact Hk | exact Hs].
  - exact provider_of_missing.
Qed.

(** ** Records per month *)

Lemma month_key : forall d,
  extractYearMonth d = s_Unknown \/ In 45%N (extractYearMonth d).
Proof.
  intros [[|c s] | ]; [left; reflexivity | | left; reflexivity].
  unfold extractYearMonth. destruct (Date_parse (c :: s)); [ | left; reflexivity].
  right. apply in_or_app. right. left. reflexivity.
Qed.

Lemma hyphen_not_inherited : forall m, In 45%N m -> inherited_name m = false.
Proof. no_host.
  intros m H. unfold inherited_name.
  destruct (existsb (str_eqb m) inherited_names) eqn:E; [ | reflexivity].
  exfalso. apply existsb_str_eqb_In in E.
  assert (Hn : forallb (fun name => negb (existsb (N.eqb 45) name)) inherited_names = true)
    by reflexivity.
  rewrite forallb_forall in Hn. specialize (Hn m E).
  apply negb_true_iff in Hn.
  assert (Ht : existsb (N.eqb 45) m = true).
  { apply existsb_exists. exists 45%N. split; [exact H | reflexivity]. }
  congruence.
Qed.

Lemma hyphen_not_index : forall m, In 45%N m -> Obj.array_index m = None.
Proof. no_host.
  intros m H. unfold Obj.array_index.
  assert (E : forallb is_digit m = false).
  { destruct (forallb is_digit m) eqn:E; [ | reflexivity].
    rewrite forallb_forall in E. specialize (E _ H). discriminate. }
  rewrite E. reflexivity.
Qed.

Lemma month_key_own : forall d,
  inherited_name (extractYearMonth d) = false /\
  Obj.array_index (extractYearMonth d) = None.
Proof.
  intro d. destruct (month_key d) as [-> | H].
  - split; reflexivity.
  - split; [apply hyphen_not_inherited | apply hyphen_not_index]; exact H.
Qed.

Lemma fold_count_month : forall records table,
  fold_left count_month records table
  = fold_left add_marker (map (fun r => extractYearMonth (Obj.get r k_date)) records) table.
Proof.
  induction records as [|r records IH]; intro table; simpl.
  - reflexivity.
  - apply IH.
Qed.

Lemma NoDup_map_filter : forall (A B : Type) (g : A -> B) (f : A -> bool) l,
  NoDup (map g l) -> NoDup (map g (filter f l)).
Proof. no_host.
  intros A B g f l. induction l as [|x l IH]; simpl; intro H.
  - constructor.
  - inversion H as [|? ? Hx Hl]; subst. destruct (f x); simpl; [ | exact (IH Hl)].
    constructor; [ | exact (IH Hl)].
    intro Hin. apply Hx. apply in_map_iff in Hin as [y [Hy Hin]].
    apply filter_In in Hin as [Hin _]. rewrite <- Hy. apply in_map. exact Hin.
Qed.

(** X2: the monthly series never has an "Unknown" label; it has one label
    for each month that some record classifies to, with the number of those
    records as count; the counts add up to the number of records whose date
    classifies to a month, and the labels are in the order of the host's
    collation.  A month key is never an array index nor a name inherited
    from [Object.prototype], so the count table is read exactly. *)
Theorem months_over_time : forall data : list record,
  let ms := map (fun r => extractYearMonth (Obj.get r k_date)) data in
  let c := aggregateMarkersOverTime data in
  length (labels c) = length (counts c) /\
  ~ In s_Unknown (labels c) /\
  NoDup (labels c) /\
  (forall m, In m (labels c) <-> In m ms /\ m <> s_Unknown) /\
  (forall m n, In (m, n) (combine (labels c) (counts c)) -> n = occurrences m ms) /\
  total (counts c) = length (filter (fun m => negb (str_eqb m s_Unknown)) ms) /\
  StronglySorted (fun a b => (localeCompare a b <= 0)%Z) (labels c) /\
  Forall (fun m => inherited_name m = false /\ Obj.array_index m = None) ms.
Proof using localeCompare_total localeCompare_trans.
  clear toLowerCase_lower getMonth_range. clear toLowerCase Papa_parse.
  intros records ms c.
  set (table := fold_left count_month records []).
  set (known := fun e : jsstring * nat => negb (str_eqb (fst e) s_Unknown)).
  set (compare := fun a b : jsstring * nat => localeCompare (fst a) (fst b)).
  set (sorted := js_sort compare (filter known (Obj.entries table))).
  assert (Hcnt : counted ms table).
  { unfold table, ms. rewrite fold_count_month.
    apply (counted_fold _ [] []). exact counted_nil. }
  assert (Hperm : Permutation sorted (filter known table)).
  { apply Permutation_trans with (filter known (Obj.entries table)).
    - apply js_sort_perm.
    - apply filter_perm, entries_perm. }
  assert (Hl : labels c = map fst sorted) by reflexivity.
  assert (Hc : counts c = map snd sorted) by reflexivity.
  destruct Hcnt as [Hnd [Hocc [Hk _]]].
  assert (Hin : forall m, In m (map fst sorted) <-> In m ms /\ m <> s_Unknown).
  { intro m. split.
    - intro H. apply (Permutation_in _ (Permutation_map fst Hperm)) in H.
      apply in_map_iff in H as [[m' n] [<- H]]. apply filter_In in H as [H Hm].
      unfold known in Hm. simpl in Hm |- *. apply negb_true_iff, str_eqb_neq in Hm.
      split; [ | exact Hm]. apply Hk. apply (in_map fst) in H. exact H.
    - intros [Hm Hne]. apply Hk, in_map_iff in Hm as [[m' n] [Hf Hm]].
      simpl in Hf. subst m'.
      apply (Permutation_in _ (Permutation_sym (Permutation_map fst Hperm))).
      apply in_map_iff. exists (m, n). split; [reflexivity | ].
      apply filter_In. split; [exact Hm | ].
      unfold known. simpl. apply negb_true_iff, str_eqb_neq. exact Hne. }
  rewrite Hl, Hc, combine_fst_snd.
  split; [rewrite !length_map; reflexivity | ].
  split; [intro H; apply Hin in H; tauto | ].
  split; [ | split; [exact Hin | split; [ | split; [ | split]]]].
  - apply (Permutation_NoDup (Permutation_sym (Permutation_map fst Hperm))).
    apply NoDup_map_filter. exact Hnd.
  - intros m n H. apply (Permutation_in _ Hperm) in H.
    apply filter_In in H as [H _]. apply Hocc. exact H.
  - rewrite (total_perm _ _ (Permutation_map snd Hperm)).
    pose proof (fold_add_marker_total (fun m => negb (str_eqb m s_Unknown)) ms []) as Ht.
    unfold table. rewrite fold_count_month. fold ms.
    exact Ht.
  - apply StronglySorted_map.
    apply (js_sort_ordered compare).
    + intros a b. apply localeCompare_total.
    + intros a b d. apply localeCompare_trans.
  - apply Forall_forall. intros m Hm. unfold ms in Hm.
    apply in_map_iff in Hm as [r [<- _]]. apply month_key_own.
Qed.

(** ** Summary statistics *)

Lemma dedupe_length : forall l seen, length (dedupe seen l) <= length l.
Proof. no_host.
  induction l as [|x l IH]; intro seen; simpl.
  - lia.
  - destruct (existsb (str_eqb x) seen); simpl.
    + specialize (IH seen). lia.
    + specialize (IH (x :: seen)). lia.
Qed.

Lemma filter_Boolean_length : forall l, length (filter_Boolean l) <= length l.
Proof. no_host.
  induction l as [|x l IH]; simpl.
  - lia.
  - destruct x as [[|c s] | ]; simpl; lia.
Qed.

Lemma distinct_count : forall (props : list (option jsstring)) (l : list jsstring),
  NoDup l ->
  (forall m, In m l <-> m <> [] /\ In (Some m) props) ->
  length (dedupe [] (filter_Boolean props)) = length l.
Proof. no_host.
  intros props l Hnd H. apply Permutation_length.
  apply NoDup_Permutation; [apply dedupe_NoDup | exact Hnd | ].
  intro m. rewrite dedupe_In, filter_Boolean_In, H. simpl. tauto.
Qed.

Lemma In_prop : forall (records : list record) k m,
  In (Some m) (map (fun r => Obj.get r k) records) <->
  exists r, In r records /\ Obj.get r k = Some m.
Proof. no_host.
  intros records k m. rewrite in_map_iff. split; intros [r H]; exists r; tauto.
Qed.

Lemma summaryStats_some : forall (records : list record) s,
  summaryStats records = Some s ->
  s = mkSummary
        (length records)
        (length (dedupe [] (filter_Boolean (map (fun r => Obj.get r k_marker) records))))
        (length (dedupe [] (filter_Boolean (map (fun r => Obj.get r k_provider) records))))
        (latest_of (filter_Boolean (map (fun r => Obj.get r k_date) records))).
Proof.
  intros records s Hs. destruct records as [|r0 records]; [discriminate | ].
  unfold summaryStats in Hs. injection Hs as <-. reflexivity.
Qed.

(** X4: there is no summary for no records; otherwise the total is the
    number of records, and the marker and provider figures are the numbers
    of distinct markers and providers that are not empty, which never
    exceed the total. *)
Theorem summary_counts : forall data : list record,
  (summaryStats data = None <-> data = []) /\
  (forall s, summaryStats data = Some s ->
     totalRecords s = length data /\
     uniqueMarkers s <= totalRecords s /\
     uniqueProviders s <= totalRecords s /\
     (forall l, NoDup l ->
        (forall m, In m l <-> m <> [] /\ exists r, In r data /\ Obj.get r k_marker = Some m) ->
        uniqueMarkers s = length l) /\
     (forall l, NoDup l ->
        (forall p, In p l <-> p <> [] /\ exists r, In r data /\ Obj.get r k_provider = Some p) ->
        uniqueProviders s = length l)).
Proof.
  clear. intro records. split.
  - destruct records; simpl; split; congruence.
  - intros s Hs. rewrite (summaryStats_some records s Hs).
    cbn [totalRecords uniqueMarkers uniqueProviders].
    split; [reflexivity | ]. split; [ | split; [ | split]].
    + etransitivity; [apply dedupe_length | ].
      etransitivity; [apply filter_Boolean_length | ]. rewrite length_map. apply Nat.le_refl.
    + etransitivity; [apply dedupe_length | ].
      etransitivity; [apply filter_Boolean_length | ]. rewrite length_map. apply Nat.le_refl.
    + intros l Hnd H. apply distinct_count; [exact Hnd | ].
      intro m. rewrite H, In_prop. reflexivity.
    + intros l Hnd H. apply distinct_count; [exact Hnd | ].
      intro m. rewrite H, In_prop. reflexivity.
Qed.

Lemma later_date_unparsed : forall latest current,
  Date_parse latest = None -> later_date latest current = latest.
Proof.
  intros latest current H. unfold later_date, date_after. rewrite H.
  destruct (Date_parse current); reflexivity.
Qed.

Lemma later_date_skip : forall latest current,
  Date_parse current = None -> later_date latest current = latest.
Proof.
  intros latest current H. unfold later_date, date_after. rewrite H. reflexivity.
Qed.

Lemma later_date_parsed : forall latest current tl tc,
  Date_parse latest = Some tl -> Date_parse current = Some tc ->
  later_date latest current = if (tl <? tc)%Z then current else latest.
Proof.
  intros latest current tl tc Hl Hc. unfold later_date, date_after.
  rewrite Hl, Hc. reflexivity.
Qed.

Lemma fold_later_unparsed : forall rest first,
  Date_parse first = None -> fold_left later_date rest first = first.
Proof.
  induction rest as [|d rest IH]; intros first H; simpl.
  - reflexivity.
  - rewrite later_date_unparsed by exact H. apply IH. exact H.
Qed.

Lemma fold_later_parsed : forall rest first t0,
  Date_parse first = Some t0 ->
  exists t, Date_parse (fold_left later_date rest first) = Some t /\
            (t0 <= t)%Z /\
            In (fold_left later_date rest first) (first :: rest) /\
            (forall d t', In d rest -> Date_parse d = Some t' -> (t' <= t)%Z).
Proof.
  induction rest as [|d rest IH]; intros first t0 H; simpl.
  - exists t0. repeat split; [exact H | lia | left; reflexivity | ]. intros d t' [].
  - destruct (Date_parse d) as [td | ] eqn:Hd.
    + rewrite (later_date_parsed first d t0 td H Hd).
      destruct (t0 <? td)%Z eqn:E; [apply Z.ltb_lt in E | apply Z.ltb_ge in E].
      * destruct (IH d td Hd) as [t [Ht [Hle [Hin Hmax]]]].
        exists t. split; [exact Ht | ]. split; [lia | ]. split.
        -- right. exact Hin.
        -- intros d' t' [<- | Hd'] Hp; [rewrite Hd in Hp; injection Hp as <-; exact Hle | ].
           exact (Hmax d' t' Hd' Hp).
      * destruct (IH first t0 H) as [t [Ht [Hle [Hin Hmax]]]].
        exists t. split; [exact Ht | ]. split; [exact Hle | ]. split.
        -- destruct Hin as [Hin | Hin]; [left; exact Hin | right; right; exact Hin].
        -- intros d' t' [<- | Hd'] Hp; [rewrite Hd in Hp; injection Hp as <-; lia | ].
           exact (Hmax d' t' Hd' Hp).
    + rewrite (later_date_skip first d Hd).
      destruct (IH first t0 H) as [t [Ht [Hle [Hin Hmax]]]].
      exists t. split; [exact Ht | ]. split; [exact Hle | ]. split.
      * destruct Hin as [Hin | Hin]; [left; exact Hin | right; right; exact Hin].
      * intros d' t' [<- | Hd'] Hp; [congruence | ].
        exact (Hmax d' t' Hd' Hp).
Qed.

Lemma summaryStats_latest : forall (records : list record) s,
  summaryStats records = Some s ->
  latestDate s = latest_of (filter_Boolean (map (fun r => Obj.get r k_date) records)).
Proof.
  intros records s Hs. rewrite (summaryStats_some records s Hs). reflexivity.
Qed.

(** X5: the latest date is "N/A" when no record has a date that is not
    empty, and one of the dates otherwise; when the first date parses, the
    latest date parses too and no date that parses is later. *)
Theorem latest_date_maximal : forall (data : list record) (s : summary),
  summaryStats data = Some s ->
  let dates := filter_Boolean (map (fun r => Obj.get r k_date) data) in
  (dates = [] -> latestDate s = lit "N/A") /\
  (dates <> [] -> In (latestDate s) dates) /\
  (forall first rest t0, dates = first :: rest -> Date_parse first = Some t0 ->
     exists t, Date_parse (latestDate s) = Some t /\
               forall d t', In d dates -> Date_parse d = Some t' -> (t' <= t)%Z).
Proof.
  clear toLowerCase_lower getMonth_range localeCompare_total localeCompare_trans.
  clear toLowerCase Papa_parse localeCompare getMonth.
  intros records s Hs dates. rewrite (summaryStats_latest records s Hs). fold dates.
  split; [intros ->; reflexivity | ]. split.
  - intro Hne. destruct dates as [|first rest]; [contradiction | ].
    unfold latest_of. destruct (Date_parse first) as [t0 | ] eqn:H.
    + destruct (fold_later_parsed rest first t0 H) as [t [_ [_ [Hin _]]]]. exact Hin.
    + rewrite fold_later_unparsed by exact H. left. reflexivity.
  - intros first rest t0 -> H. unfold latest_of.
    destruct (fold_later_parsed rest first t0 H) as [t [Ht [Hle [_ Hmax]]]].
    exists t. split; [exact Ht | ].
    intros d t' [<- | Hd] Hp; [rewrite H in Hp; injection Hp as <-; exact Hle | ].
    exact (Hmax d t' Hd Hp).
Qed.

(** X6: when the first date that is not empty does not parse, it is the
    latest date, whatever dates follow. *)
Theorem latest_date_first_unparsed : forall (data : list record) (s : summary) first rest,
  summaryStats data = Some s ->
  filter_Boolean (map (fun r => Obj.get r k_date) data) = first :: rest ->
  Date_parse first = None ->
  latestDate s = first.
Proof.
  intros records s first rest Hs Hd H.
  rewrite (summaryStats_latest records s Hs), Hd. unfold latest_of.
  apply fold_later_unparsed. exact H.
Qed.

(** ** Materialization, again *)

Lemma set_set : forall (V : Type) (o : Obj.t V) k v v',
  Obj.set (Obj.set o k v) k v' = Obj.set o k v'.
Proof. no_host.
  intros V o k v v'. induction o as [|[k0 v0] o IH]; simpl.
  - rewrite str_eqb_refl. reflexivity.
  - destruct (str_eqb k0 k) eqn:E; simpl; rewrite E; [reflexivity | ].
    rewrite IH. reflexivity.
Qed.

Lemma or_default_nonempty : forall x d, d <> [] -> or_default x d <> [].
Proof. no_host. intros [[|c s] | ] d H; simpl; try exact H. discriminate. Qed.

Lemma generateStableId_nonempty : forall r, generateStableId r <> [].
Proof. no_host.
  intro r. rewrite generateStableId_synthetic. apply Number_toString_nonempty.
Qed.

Lemma process_row_has_id : forall row, has_id (process_row row).
Proof. no_host.
  intro row. exists (or_default (Obj.get row k_id) (generateStableId row)). split.
  - apply get_set_same.
  - apply or_default_nonempty, generateStableId_nonempty.
Qed.

(** X7: materializing a record that is already materialized changes
    nothing: its id is kept. *)
Theorem process_row_idempotent :
  (forall row, process_row (process_row row) = process_row row) /\
  (forall rows, process_rows (process_rows rows) = process_rows rows).
Proof. no_host.
  assert (H : forall row, process_row (process_row row) = process_row row).
  { intro row. unfold process_row at 1 3.
    set (id := or_default (Obj.get row k_id) (generateStableId row)).
    assert (Hid : id <> []) by apply or_default_nonempty, generateStableId_nonempty.
    unfold process_row. fold id. rewrite get_set_same.
    destruct id as [|c s]; [contradiction | ]. simpl or_default. apply set_set. }
  split; [exact H | ].
  intro rows. unfold process_rows. rewrite map_map. apply map_ext. exact H.
Qed.

(** X8: a vertical bar inside a field cannot be told from the separator of
    the composite key: two rows without id whose dates and providers are
    [a|b], [c] and [a], [b|c] get the same id. *)
Theorem pipe_in_field_collides : forall (r1 r2 : record) (a b c : jsstring),
  missing_or_empty (Obj.get r1 k_id) ->
  missing_or_empty (Obj.get r2 k_id) ->
  field r1 k_date = a ++ [124%N] ++ b ->
  field r1 k_provider = c ->
  field r2 k_date = a ->
  field r2 k_provider = b ++ [124%N] ++ c ->
  field r1 k_marker = field r2 k_marker ->
  field r1 k_value = field r2 k_value ->
  Obj.get (process_row r1) k_id = Obj.get (process_row r2) k_id.
Proof. no_host.
  intros r1 r2 a b c H1 H2 Hd1 Hp1 Hd2 Hp2 Hm Hv.
  rewrite !process_row_missing by assumption.
  rewrite !generateStableId_synthetic, Hd1, Hp1, Hd2, Hp2, Hm, Hv.
  unfold synthetic_id, composite_key. rewrite <- !app_assoc. reflexivity.
Qed.

(** ** The session *)

Lemma process_rows_have_id : forall rows, Forall has_id (process_rows rows).
Proof. no_host.
  intro rows. apply Forall_forall. intros r Hr. unfold process_rows in Hr.
  apply in_map_iff in Hr as [row [<- _]]. apply process_row_has_id.
Qed.

Lemma firstn_length_le5 : forall (A : Type) (l : list A), length (firstn 5 l) <= 5.
Proof. no_host. intros A l. apply firstn_le_length. Qed.

(** What every session keeps. *)
Lemma parseCSVData_keeps : forall csvText filename st,
  Forall has_id (data st) -> Forall has_id (filteredData st) ->
  Forall has_id (data (parseCSVData csvText filename st)) /\
  Forall has_id (filteredData (parseCSVData csvText filename st)) /\
  length (parseErrors (parseCSVData csvText filename st)) <= 5.
Proof.
  intros csvText filename st Hd Hf. unfold parseCSVData.
  destruct (Papa_parse mapHeader csvText) as [rows errors | message].
  - unfold on_complete.
    destruct errors as [|e errors]; destruct rows as [|r rows]; cbn;
      repeat split; try assumption; try lia;
      try (apply (process_rows_have_id (r :: rows)));
      try (apply (firstn_length_le5 _ (e :: errors))).
  - cbn. repeat split; try assumption. lia.
Qed.

(** X9: in every session the page can get to, the records and the filtered
    records all have an id that is not empty, and there are at most five
    parse warnings. *)
Theorem session_invariant : forall st : state,
  reachable st ->
  Forall has_id (data st) /\ Forall has_id (filteredData st) /\
  length (parseErrors st) <= 5.
Proof.
  clear toLowerCase_lower getMonth_range localeCompare_total localeCompare_trans.
  clear localeCompare getMonth.
  intros st H. induction H as [|e st H [Hd [Hf He]]].
  - cbn. repeat split; try lia; constructor.
  - destruct e as [f proceed read | outcome | | v | v | v | ]; cbn [handle].
    + unfold handleFileUpload. destruct f as [f | ]; [ | tauto].
      destruct ((10485760 <? file_size f)%N && negb proceed); [tauto | ].
      destruct read as [result | ].
      * apply parseCSVData_keeps; assumption.
      * cbn. tauto.
    + unfold loadDemoCSV. destruct outcome as [text | | message].
      * apply parseCSVData_keeps; assumption.
      * cbn. tauto.
      * cbn. tauto.
    + cbn. repeat split; try lia; constructor.
    + cbn. tauto.
    + cbn. tauto.
    + cbn. tauto.
    + split; [exact Hd | ]. split; [ | exact He].
      rewrite applyFilters_filter. apply Forall_forall. intros r Hr.
      apply filter_In in Hr as [Hr _]. rewrite Forall_forall in Hd. exact (Hd r Hr).
Qed.

(** ** Loading *)

(** X10: when the parser fails, the message is "Failed to parse", the file
    name and the parser's message; the records and the filtered records
    stay, the warnings are cleared and the loading flag is down. *)
Theorem failed_parse_keeps_records :
  forall (st : state) (csvText filename message : jsstring),
    Papa_parse mapHeader csvText = Failed message ->
    let st' := parseCSVData csvText filename st in
    error st' = lit "Failed to parse " ++ filename ++ lit ": " ++ message /\
    data st' = data st /\
    filteredData st' = filteredData st /\
    parseErrors st' = [] /\
    isLoading st' = false.
Proof.
  intros st csvText filename message H st'. subst st'.
  unfold parseCSVData. rewrite H. cbn. repeat split.
Qed.

Lemma parseCSVData_spec_kept : forall csvText filename st,
  searchTerm (parseCSVData csvText filename st) = searchTerm st /\
  selectedProvider (parseCSVData csvText filename st) = selectedProvider st /\
  selectedYear (parseCSVData csvText filename st) = selectedYear st /\
  filteredData (parseCSVData csvText filename st) = filteredData st.
Proof.
  intros csvText filename st. unfold parseCSVData.
  destruct (Papa_parse mapHeader csvText) as [rows errors | message].
  - unfold on_complete. destruct errors, rows; cbn; repeat split.
  - cbn. repeat split.
Qed.

Lemma keeps_ext : forall st st' r,
  searchTerm st' = searchTerm st -> selectedProvider st' = selectedProvider st ->
  selectedYear st' = selectedYear st -> keeps st' r = keeps st r.
Proof.
  intros st st' r Hs Hp Hy. unfold keeps. rewrite Hs, Hp, Hy. reflexivity.
Qed.

(** X11: a load never touches the search term nor the selections, and the
    filtered list stays as it was until the filters are applied again; after
    a load with rows, the message is cleared, the records are the
    materialized rows, and applying the filters gives the materialized rows
    that pass the filter specification held before the load. *)
Theorem load_keeps_filter_spec : forall (st : state) (csvText filename : jsstring),
  let st' := parseCSVData csvText filename st in
  searchTerm st' = searchTerm st /\
  selectedProvider st' = selectedProvider st /\
  selectedYear st' = selectedYear st /\
  filteredData st' = filteredData st /\
  (forall rows errors,
     Papa_parse mapHeader csvText = Complete rows errors -> rows <> [] ->
     error st' = [] /\
     data st' = process_rows rows /\
     length (data st') = length rows /\
     filteredData (applyFilters st') = filter (keeps st) (process_rows rows)).
Proof.
  clear toLowerCase_lower getMonth_range localeCompare_total localeCompare_trans.
  clear localeCompare getMonth.
  intros st csvText filename st'.
  destruct (parseCSVData_spec_kept csvText filename st) as [Hs [Hp [Hy Hf]]].
  fold st' in Hs, Hp, Hy, Hf.
  split; [exact Hs | ]. split; [exact Hp | ]. split; [exact Hy | ]. split; [exact Hf | ].
  intros rows errors Hparse Hrows.
  assert (Hd : data st' = process_rows rows).
  { unfold st', parseCSVData. rewrite Hparse. apply on_complete_data. exact Hrows. }
  split; [ | split; [exact Hd | split]].
  - unfold st', parseCSVData. rewrite Hparse. unfold on_complete.
    destruct rows; [contradiction | ]. destruct errors; reflexivity.
  - rewrite Hd. unfold process_rows. apply length_map.
  - rewrite applyFilters_filter, Hd. apply filter_ext.
    intro r. apply keeps_ext; assumption.
Qed.

(** X12: loading the demo with a response that is [ok] is parsing its text
    under the name "demo CSV"; when the fetch fails, the records, the
    filtered records and the warnings stay, the loading flag is down and the
    message is "Failed to load demo CSV: " and the reason, which for a
    response that is not [ok] is "Failed to load demo CSV" once more. *)
Theorem demo_load_outcomes : forall st : state,
  (forall text, loadDemoCSV (FetchText text) st = parseCSVData text (lit "demo CSV") st) /\
  error (loadDemoCSV FetchNotOk st)
    = lit "Failed to load demo CSV: Failed to load demo CSV" /\
  (forall message,
     error (loadDemoCSV (FetchThrew message) st)
       = lit "Failed to load demo CSV: " ++ message) /\
  (forall outcome,
     (forall text, outcome <> FetchText text) ->
     let st' := loadDemoCSV outcome st in
     data st' = data st /\ filteredData st' = filteredData st /\
     parseErrors st' = parseErrors st /\ isLoading st' = false /\
     searchTerm st' = searchTerm st /\ selectedProvider st' = selectedProvider st /\
     selectedYear st' = selectedYear st).
Proof.
  clear toLowerCase_lower getMonth_range localeCompare_total localeCompare_trans.
  clear localeCompare getMonth getFullYear Date_parse.
  intro st. split; [ | split; [ | split]].
  - intro text. destruct st. reflexivity.
  - reflexivity.
  - reflexivity.
  - intros outcome Hno. destruct outcome as [text | | message].
    + exfalso. exact (Hno text eq_refl).
    + cbn. repeat split.
    + cbn. repeat split.
Qed.

(** X13: an upload without a file, or of a file of more than 10485760 bytes
    that the user does not confirm, leaves the session as it is; a file of
    at most 10485760 bytes is handled without regard to the confirmation; a
    file that is read is parsed under its name; a reader error sets the
    message "Failed to read file. Please try again." and leaves everything
    else, the old warnings included. *)
Theorem upload_outcomes : forall (st : state) (f : file) (proceed : bool) (read : read_outcome),
  handleFileUpload None proceed read st = st /\
  ((10485760 < file_size f)%N -> handleFileUpload (Some f) false read st = st) /\
  ((file_size f <= 10485760)%N ->
     handleFileUpload (Some f) proceed read st = handleFileUpload (Some f) true read st) /\
  (forall result,
     handleFileUpload (Some f) true (ReadText result) st
     = parseCSVData result (file_name f) st) /\
  handleFileUpload (Some f) true ReadError st = setError msg_read_failed st /\
  data (setError msg_read_failed st) = data st /\
  parseErrors (setError msg_read_failed st) = parseErrors st.
Proof.
  clear toLowerCase_lower getMonth_range localeCompare_total localeCompare_trans.
  clear localeCompare getMonth getFullYear Date_parse.
  intros st f proceed read. split; [reflexivity | ]. split; [ | split; [ | split; [ | split]]].
  - intro H. unfold handleFileUpload.
    apply N.ltb_lt in H. rewrite H. reflexivity.
  - intro H. unfold handleFileUpload.
    assert (E : (10485760 <? file_size f)%N = false) by (apply N.ltb_ge; exact H).
    rewrite E. reflexivity.
  - intro result. unfold handleFileUpload. rewrite andb_false_r. reflexivity.
  - unfold handleFileUpload. rewrite andb_false_r. reflexivity.
  - split; reflexivity.
Qed.

(** ** Options of the dropdowns *)

Lemma filter_nonempty : forall (A : Type) (f : A -> bool) l,
  filter f l <> [] <-> exists x, In x l /\ f x = true.
Proof. no_host.
  intros A f l. split.
  - intro H. destruct (filter f l) as [|x l'] eqn:E; [contradiction | ].
    exists x. apply filter_In. rewrite E. left. reflexivity.
  - intros [x Hx] E. apply filter_In in Hx. rewrite E in Hx. contradiction.
Qed.

Lemma yearList_In : forall (records : list record) y,
  In y (yearList records) <-> y = s_All \/ In y (classified_years records).
Proof. no_host.
  intros records y. unfold yearList. fold (classified_years records).
  set (yearArray := dedupe [] (classified_years records)).
  rewrite !in_app_iff, js_sort_In, filter_In, negb_true_iff, str_eqb_neq.
  assert (Ha : In y yearArray <-> In y (classified_years records)).
  { unfold yearArray. rewrite dedupe_In. simpl. tauto. }
  assert (Hu : In y (if existsb (fun y => str_eqb y s_Unknown) yearArray
                     then [s_Unknown] else [])
               <-> y = s_Unknown /\ In y yearArray).
  { destruct (existsb (fun y => str_eqb y s_Unknown) yearArray) eqn:E; simpl.
    - apply existsb_exists in E as [u [Hu E]]. apply str_eqb_eq in E. subst u.
      split; [intros [<- | []]; tauto | intros [-> _]; left; reflexivity].
    - split; [tauto | ]. intros [-> H].
      assert (existsb (fun y => str_eqb y s_Unknown) yearArray = true).
      { apply existsb_exists. exists s_Unknown. split; [exact H | apply str_eqb_refl]. }
      congruence. }
  rewrite Hu, Ha. simpl. split.
  - intros [[E | []] | [[H _] | [_ H]]];
      [left; symmetry; exact E | right; exact H | right; exact H].
  - intros [-> | H]; [left; left; reflexivity | ].
    destruct (str_eq_dec y s_Unknown) as [-> | Hne]; right; [right | left]; split;
      solve [reflexivity | assumption].
Qed.

(** X14: with no search term and no provider selected, a year other than
    "All" selects some record exactly when it is in the year list. *)
Theorem year_option_selects : forall st : state,
  searchTerm st = [] -> selectedProvider st = s_All -> selectedYear st <> s_All ->
  (filteredData (applyFilters st) <> [] <-> In (selectedYear st) (yearList (data st))).
Proof.
  clear toLowerCase_lower getMonth_range localeCompare_total localeCompare_trans.
  clear localeCompare getMonth Papa_parse.
  intros st Hs Hp Hy.
  rewrite applyFilters_filter, filter_nonempty, yearList_In.
  unfold classified_years. rewrite in_map_iff. split.
  - intros [r [Hr Hk]]. right. exists r. split; [ | exact Hr].
    unfold keeps in Hk. rewrite Hs, Hp in Hk. simpl in Hk.
    apply str_eqb_neq in Hy. rewrite Hy in Hk. simpl in Hk.
    apply str_eqb_eq. exact Hk.
  - intros [E | [r [Hr Hin]]]; [congruence | ]. exists r. split; [exact Hin | ].
    unfold keeps. rewrite Hs, Hp, Hr. simpl. rewrite !str_eqb_refl, !orb_true_r. reflexivity.
Qed.

Lemma providerList_In : forall (records : list record) p,
  In p (providerList records) <->
  p = s_All \/ (p <> [] /\ exists r, In r records /\ Obj.get r k_provider = Some p).
Proof. no_host.
  intros records p. unfold providerList.
  rewrite in_app_iff, js_sort_In, dedupe_In, filter_Boolean_In, In_prop. simpl.
  split.
  - intros [[E | []] | [H _]]; [left; symmetry; exact E | right; exact H].
  - intros [-> | H]; [left; left; reflexivity | right; tauto].
Qed.

(** X15: with no search term and no year selected, a provider other than
    "All" and not empty selects some record exactly when it is in the
    provider list. *)
Theorem provider_option_selects : forall st : state,
  searchTerm st = [] -> selectedYear st = s_All ->
  selectedProvider st <> s_All -> selectedProvider st <> [] ->
  (filteredData (applyFilters st) <> [] <-> In (selectedProvider st) (providerList (data st))).
Proof.
  clear toLowerCase_lower getMonth_range localeCompare_total localeCompare_trans.
  clear localeCompare getMonth Papa_parse.
  intros st Hs Hy Hp Hne.
  rewrite applyFilters_filter, filter_nonempty, providerList_In. split.
  - intros [r [Hr Hk]]. right. split; [exact Hne | ]. exists r. split; [exact Hr | ].
    unfold keeps in Hk. rewrite Hs, Hy in Hk. simpl in Hk.
    apply str_eqb_neq in Hp. rewrite Hp in Hk. simpl in Hk.
    rewrite andb_true_r in Hk. apply prop_eqb_eq. exact Hk.
  - intros [E | [_ [r [Hr Hin]]]]; [congruence | ]. exists r. split; [exact Hr | ].
    unfold keeps. rewrite Hs, Hy, Hin. simpl.
    rewrite !str_eqb_refl, !orb_true_r. reflexivity.
Qed.

(** ** Year and month of one date *)

Lemma Number_toString_not_Unknown : forall z, Number_toString z <> s_Unknown.
Proof. no_host.
  intro z. unfold Number_toString. destruct (z <? 0)%Z; [discriminate | ].
  pose proof (N_toString_decimal (Z.to_N z)) as [Hd [_ [Hne _]]].
  destruct (N_toString (Z.to_N z)) as [|c s]; [contradiction | ].
  inversion Hd as [|? ? Hc _]; subst. intro E. injection E as -> _. lia.
Qed.

Lemma two_digits_shape : forall m,
  (1 <= m <= 12)%Z -> length (two_digits m) = 2 /\ forallb is_digit (two_digits m) = true.
Proof. no_host.
  intros m H.
  assert (Hm : (m = 1 \/ m = 2 \/ m = 3 \/ m = 4 \/ m = 5 \/ m = 6 \/ m = 7 \/ m = 8 \/
                m = 9 \/ m = 10 \/ m = 11 \/ m = 12)%Z) by lia.
  repeat (destruct Hm as [Hm | Hm]; [subst m; split; reflexivity | idtac]).
  subst m. split; reflexivity.
Qed.

(** X16: a date that classifies to a month classifies to a year: the month
    bucket is the year of [extractYear], a hyphen and two digits. *)
Theorem month_extends_year : forall d : option jsstring,
  extractYearMonth d = s_Unknown \/
  (extractYear d <> s_Unknown /\
   exists mm, length mm = 2 /\ forallb is_digit mm = true /\
              extractYearMonth d = extractYear d ++ lit "-" ++ mm).
Proof using getMonth_range.
  clear toLowerCase_lower localeCompare_total localeCompare_trans.
  clear localeCompare toLowerCase Papa_parse.
  intros [[|c s] | ]; [left; reflexivity | | left; reflexivity].
  unfold extractYearMonth, extractYear.
  destruct (Date_parse (c :: s)) as [t | ]; [ | left; reflexivity].
  right. split; [apply Number_toString_not_Unknown | ].
  assert (Hm : (1 <= getMonth t + 1 <= 12)%Z) by (pose proof (getMonth_range t); lia).
  exists (two_digits (getMonth t + 1)).
  destruct (two_digits_shape _ Hm) as [Hl Hd].
  split; [exact Hl | ]. split; [exact Hd | ].
  rewrite two_digits_month by exact Hm. reflexivity.
Qed.

(** ** The alias table *)

Lemma alias_owner_unique : forall e alias,
  In e HEADER_ALIASES -> In alias (snd e) ->
  forallb (str_eqb (fst e)) (alias_owners alias) = true.
Proof. no_host.
  assert (H : forallb (fun e => forallb (fun alias =>
                forallb (str_eqb (fst e)) (alias_owners alias)) (snd e))
              HEADER_ALIASES = true) by (vm_compute; reflexivity).
  intros e alias He Ha. rewrite forallb_forall in H. specialize (H e He).
  rewrite forallb_forall in H. exact (H alias Ha).
Qed.

Lemma alias_one_key : forall e1 e2 alias,
  In e1 HEADER_ALIASES -> In e2 HEADER_ALIASES ->
  In alias (snd e1) -> In alias (snd e2) -> fst e1 = fst e2.
Proof. no_host.
  intros e1 e2 alias H1 H2 Ha1 Ha2.
  pose proof (alias_owner_unique e1 alias H1 Ha1) as H.
  rewrite forallb_forall in H. apply str_eqb_eq. apply H.
  unfold alias_owners. apply in_map. apply filter_In. split; [exact H2 | ].
  apply existsb_str_eqb_In. exact Ha2.
Qed.

(** X17: no alias of the table belongs to two canonical keys, so the order
    of the table never decides; and every alias of the table maps to its
    canonical key. *)
Theorem alias_table_unambiguous :
  (forall e1 e2 alias,
     In e1 HEADER_ALIASES -> In e2 HEADER_ALIASES ->
     In alias (snd e1) -> In alias (snd e2) -> fst e1 = fst e2) /\
  (forall e alias,
     In e HEADER_ALIASES -> In alias (snd e) -> mapHeader alias = fst e).
Proof using toLowerCase_lower.
  clear getMonth_range localeCompare_total localeCompare_trans.
  clear localeCompare getMonth getFullYear Date_parse Papa_parse.
  split; [exact alias_one_key | ].
  intros e alias He Ha. unfold mapHeader. rewrite entries_HEADER_ALIASES.
  rewrite (normalizeHeader_lower alias) by exact (aliases_lower e alias He Ha).
  destruct (find _ HEADER_ALIASES) as [[c al] | ] eqn:F.
  - pose proof (find_some _ _ F) as [Hin Ht].
    apply (alias_test alias (c, al) Hin) in Ht.
    exact (alias_one_key (c, al) e alias Hin He Ht Ha).
  - exfalso. pose proof (find_none _ _ F e He) as Hn.
    apply not_true_false in Hn. apply Hn. apply alias_test; assumption.
Qed.

Lemma replace_no_space : forall s in_run,
  Forall (fun c => is_space c = false) (replace_space_runs in_run s).
Proof. no_host.
  induction s as [|c s IH]; intro in_run; simpl.
  - constructor.
  - destruct (is_space c) eqn:E.
    + destruct in_run; [apply IH | ]. constructor; [reflexivity | apply IH].
    + constructor; [exact E | apply IH].
Qed.

(** X18: the key of a header never contains white space: it is a canonical
    key of the table or a fallback in which the runs of white space are
    underscores. *)
Theorem mapped_header_no_space : forall header : jsstring,
  Forall (fun c => is_space c = false) (mapHeader header) /\
  (In (mapHeader header) (map fst HEADER_ALIASES) \/
   mapHeader header = replace_space_runs false (toLowerCase (trim header))).
Proof.
  clear toLowerCase_lower getMonth_range localeCompare_total localeCompare_trans.
  clear localeCompare getMonth getFullYear Date_parse Papa_parse.
  intro header. unfold mapHeader. rewrite entries_HEADER_ALIASES.
  destruct (find _ HEADER_ALIASES) as [[c al] | ] eqn:F.
  - pose proof (find_some _ _ F) as [Hin _]. split.
    + assert (H : forallb (fun e => forallb (fun c => negb (is_space c)) (fst e))
                          HEADER_ALIASES = true) by reflexivity.
      rewrite forallb_forall in H. specialize (H _ Hin). simpl in H.
      rewrite forallb_forall in H. apply Forall_forall. intros x Hx.
      apply negb_true_iff. exact (H x Hx).
    + left. apply (in_map fst) in Hin. exact Hin.
  - split; [apply replace_no_space | right; reflexivity].
Qed.

(** ** Top markers, again *)

(** X19: for markers that are not names inherited from [Object.prototype],
    a shorter top list is the start of a longer one, and a top list long
    enough for every distinct marker names them all, with counts that add up
    to the number of records. *)
Theorem top_markers_totals : forall (data : list record) (n m : nat),
  Forall (fun r => inherited_name (marker_of r) = false) data ->
  (n <= m -> top_entries data n = firstn n (top_entries data m)) /\
  (length (dedupe [] (map marker_of data)) <= n ->
     total (counts (aggregateTopMarkers data n)) = length data /\
     forall mk, In mk (map marker_of data) -> In mk (labels (aggregateTopMarkers data n))).
Proof. no_host.
  intros records n m _. split.
  - intro H. unfold top_entries. rewrite firstn_firstn.
    replace (Nat.min n m) with n by lia. reflexivity.
  - intro H.
    set (table := fold_left count_marker records []).
    set (compare := fun a b : jsstring * nat => (Z.of_nat (snd b) - Z.of_nat (snd a))%Z).
    set (sorted := js_sort compare (Obj.entries table)).
    pose proof (counted_markers records) as Hcnt. fold table in Hcnt.
    assert (Hperm : Permutation sorted table).
    { apply Permutation_trans with (Obj.entries table);
        [apply js_sort_perm | apply entries_perm]. }
    assert (Hall : top_entries records n = sorted).
    { unfold top_entries. fold table compare sorted. apply firstn_all2.
      rewrite (Permutation_length Hperm), (counted_keys_length _ _ Hcnt). exact H. }
    unfold aggregateTopMarkers. cbn [counts labels]. rewrite Hall. split.
    + rewrite (total_perm _ _ (Permutation_map snd Hperm)).
      pose proof (fold_add_marker_total (fun _ => true) (map marker_of records) []) as Ht.
      unfold table. rewrite fold_count_marker.
      rewrite (filter_all _ (fun e : jsstring * nat => true)) in Ht by reflexivity.
      rewrite Ht. simpl. rewrite (filter_all _ (fun _ => true)) by reflexivity.
      apply length_map.
    + intros mk Hmk. destruct Hcnt as [_ [_ [Hk _]]]. apply Hk in Hmk.
      apply (Permutation_in _ (Permutation_sym (Permutation_map fst Hperm))). exact Hmk.
Qed.

(** ** Length of a synthetic id *)

(** X20: a synthetic id has between one and ten code units, all of them
    decimal digits. *)
Theorem synthetic_id_length : forall row : record,
  missing_or_empty (Obj.get row k_id) ->
  exists id, Obj.get (process_row row) k_id = Some id /\
             1 <= length id <= 10 /\
             forallb is_digit id = true.
Proof. no_host.
  intros row H. exists (generateStableId row). split; [exact (process_row_missing row H) | ].
  rewrite generateStableId_synthetic.
  pose proof (synthetic_id_decimal (field row k_date) (field row k_provider)
                (field row k_marker) (field row k_value)) as Hd.
  split; [ | exact (decimal_digits _ _ Hd)].
  apply (decimal_length _ _ 10 Hd); [ | lia].
  pose proof (rolling_hash_range (composite_key (field row k_date) (field row k_provider)
                                    (field row k_marker) (field row k_value))) as Hr.
  change (10 ^ N.of_nat 10)%N with 10000000000%N.
  change (2 ^ 31)%Z with 2147483648%Z in Hr. lia.
Qed.

(** ** Narrowing *)

Lemma filter_implies_subseq : forall (A : Type) (f g : A -> bool) l,
  (forall x, f x = true -> g x = true) -> subseq (filter f l) (filter g l).
Proof. no_host.
  intros A f g l H. induction l as [|x l IH]; simpl.
  - constructor.
  - destruct (f x) eqn:E.
    + rewrite (H x E). apply subseq_keep. exact IH.
    + destruct (g x); [apply subseq_skip | ]; exact IH.
Qed.

(** X21: a constraint only takes records away: the filtered list is a
    subsequence of the list filtered without the search term, of the one
    without the provider selection and of the one without the year
    selection. *)
Theorem filters_only_narrow : forall st : state,
  subseq (filteredData (applyFilters st))
         (filteredData (applyFilters (setSearchTerm [] st))) /\
  subseq (filteredData (applyFilters st))
         (filteredData (applyFilters (setSelectedProvider s_All st))) /\
  subseq (filteredData (applyFilters st))
         (filteredData (applyFilters (setSelectedYear s_All st))).
Proof.
  clear toLowerCase_lower getMonth_range localeCompare_total localeCompare_trans.
  clear localeCompare getMonth Papa_parse.
  intro st. rewrite !applyFilters_filter.
  split; [ | split]; apply filter_implies_subseq; intros r H; unfold keeps in *;
    unfold setSearchTerm, setSelectedProvider, setSelectedYear;
    cbn [searchTerm selectedProvider selectedYear];
    apply andb_true_iff in H as [H H3]; apply andb_true_iff in H as [H1 H2];
    rewrite ?H1, ?H2, ?H3; reflexivity.
Qed.

(** * The reference chart *)

Lemma subseq_length : forall (A : Type) (l1 l2 : list A),
  subseq l1 l2 -> length l1 <= length l2.
Proof. no_host.
  intros A l1 l2 H. induction H; simpl; lia.
Qed.

(** X22: the entries shown by the reference chart are a subsequence of the
    table, so never more than the table has; an entry is shown exactly when
    the search term is empty or is, in lower case, a substring of its
    lower-cased marker, low, high or clinical text, and the panel selection
    is "All" or its panel; with no search term and "All" the whole table is
    shown. *)
Theorem reference_filter :
  forall (referenceData : list RefChart.item) (searchTerm selectedPanel : jsstring),
    let shown := RefChart.filteredData toLowerCase referenceData searchTerm selectedPanel in
    subseq shown referenceData /\
    length shown <= length referenceData /\
    (forall it, In it shown <->
       In it referenceData /\
       (searchTerm = [] \/
        case_insensitive_substring searchTerm (RefChart.marker it) \/
        case_insensitive_substring searchTerm (RefChart.low it) \/
        case_insensitive_substring searchTerm (RefChart.high it) \/
        case_insensitive_substring searchTerm (RefChart.clinical it)) /\
       (selectedPanel = s_All \/ RefChart.panel it = selectedPanel)) /\
    RefChart.filteredData toLowerCase referenceData [] s_All = referenceData.
Proof.
  clear toLowerCase_lower getMonth_range localeCompare_total localeCompare_trans.
  clear localeCompare getMonth getFullYear Date_parse Papa_parse.
  intros referenceData term sel shown. subst shown. unfold RefChart.filteredData.
  split; [apply filter_subseq | ]. split; [apply subseq_length, filter_subseq | ]. split.
  - intro it. rewrite filter_In. unfold RefChart.matchesSearch, RefChart.matchesPanel.
    rewrite !andb_true_iff, !orb_true_iff, !includes_substring, !str_eqb_eq.
    unfold case_insensitive_substring. tauto.
  - apply filter_all. intro it. reflexivity.
Qed.

(** X23: the panel options are "All" and then every panel of the table
    once; with no search term, each of these panels shows at least one
    entry. *)
Theorem panel_options : forall referenceData : list RefChart.item,
  exists options,
    RefChart.panels referenceData = s_All :: options /\
    NoDup options /\
    (forall p, In p options <-> exists it, In it referenceData /\ RefChart.panel it = p) /\
    (forall p, In p options ->
               RefChart.filteredData toLowerCase referenceData [] p <> []).
Proof.
  clear toLowerCase_lower getMonth_range localeCompare_total localeCompare_trans.
  clear localeCompare getMonth getFullYear Date_parse Papa_parse.
  intro referenceData. exists (dedupe [] (map RefChart.panel referenceData)).
  assert (Hin : forall p, In p (dedupe [] (map RefChart.panel referenceData)) <->
                          exists it, In it referenceData /\ RefChart.panel it = p).
  { intro p. rewrite dedupe_In, in_map_iff. simpl. split.
    - intros [[it [Hp Hit]] _]. exists it. tauto.
    - intros [it [Hit Hp]]. split; [exists it; tauto | tauto]. }
  split; [reflexivity | ]. split; [apply dedupe_NoDup | ]. split; [exact Hin | ].
  intros p Hp. apply Hin in Hp as [it [Hit Hp]].
  unfold RefChart.filteredData. apply filter_nonempty. exists it. split; [exact Hit | ].
  unfold RefChart.matchesSearch, RefChart.matchesPanel.
  rewrite Hp, (str_eqb_refl p). simpl. apply orb_true_r.
Qed.

(** ** Groups *)

Lemma sizes_keys : forall (V : Type) (table : Obj.t (list V)),
  map fst (sizes table) = map fst table.
Proof. no_host.
  intros V table. unfold sizes. rewrite map_map. reflexivity.
Qed.

Lemma sizes_get : forall (V : Type) (table : Obj.t (list V)) k,
  Obj.get (sizes table) k = option_map (@length V) (Obj.get table k).
Proof. no_host.
  intros V table k. induction table as [|[k' v] table IH]; simpl.
  - reflexivity.
  - destruct (str_eqb k' k); [reflexivity | exact IH].
Qed.

Lemma sizes_set : forall (V : Type) (table : Obj.t (list V)) k v,
  sizes (Obj.set table k v) = Obj.set (sizes table) k (length v).
Proof. no_host.
  intros V table k v. induction table as [|[k' v'] table IH]; simpl.
  - reflexivity.
  - destruct (str_eqb k' k); simpl; [reflexivity | ]. rewrite <- IH. reflexivity.
Qed.

Lemma sizes_add_item : forall table it,
  sizes (add_item table it) = add_marker (sizes table) (RefChart.panel it).
Proof. no_host.
  intros table it. unfold add_item, add_marker.
  rewrite sizes_set, sizes_get, length_app.
  destruct (Obj.get table (RefChart.panel it)); reflexivity.
Qed.

Lemma sizes_fold : forall items table,
  sizes (fold_left add_item items table)
  = fold_left add_marker (map RefChart.panel items) (sizes table).
Proof. no_host.
  induction items as [|it items IH]; intro table; simpl.
  - reflexivity.
  - rewrite IH, sizes_add_item. reflexivity.
Qed.

(** A turn of the grouping that does not throw adds the item to its
    group. *)
Lemma group_step_add : forall table it,
  inherited_name (RefChart.panel it) = false ->
  RefChart.group_step (Some table) it = Some (add_item table it).
Proof. no_host.
  intros table it H. unfold RefChart.group_step, add_item. rewrite H.
  destruct (Obj.get table (RefChart.panel it)) as [items | ] eqn:G.
  - rewrite G. reflexivity.
  - rewrite get_set_same, set_set. reflexivity.
Qed.

Lemma group_fold_add : forall items table,
  Forall (fun it => inherited_name (RefChart.panel it) = false) items ->
  fold_left RefChart.group_step items (Some table) = Some (fold_left add_item items table).
Proof. no_host.
  induction items as [|it items IH]; intros table H; cbn [fold_left].
  - reflexivity.
  - inversion H as [|? ? Hit Hrest]; subst.
    rewrite group_step_add by exact Hit. apply IH. exact Hrest.
Qed.

Lemma group_fold_thrown : forall items,
  fold_left RefChart.group_step items None = None.
Proof. no_host. induction items as [|it items IH]; simpl; [reflexivity | exact IH]. Qed.

Lemma group_fold_throws : forall items acc it,
  In it items -> inherited_name (RefChart.panel it) = true ->
  fold_left RefChart.group_step items acc = None.
Proof. no_host.
  induction items as [|x items IH]; intros acc it Hin Hit; cbn [fold_left];
    [contradiction | ].
  destruct Hin as [-> | Hin].
  - destruct acc as [table | ]; cbn [RefChart.group_step];
      [rewrite Hit | ]; apply group_fold_thrown.
  - exact (IH _ it Hin Hit).
Qed.

Lemma of_panel_snoc : forall p items it,
  of_panel p (items ++ [it])
  = of_panel p items ++ (if str_eqb (RefChart.panel it) p then [it] else []).
Proof. no_host.
  intros p items it. unfold of_panel. rewrite filter_app. simpl.
  destruct (str_eqb (RefChart.panel it) p); reflexivity.
Qed.

Lemma of_panel_none : forall p items,
  ~ In p (map RefChart.panel items) -> of_panel p items = [].
Proof. no_host.
  intros p items. unfold of_panel. induction items as [|x items IH]; simpl; intro H.
  - reflexivity.
  - destruct (str_eqb (RefChart.panel x) p) eqn:E.
    + apply str_eqb_eq in E. exfalso. apply H. left. exact E.
    + apply IH. intro Hin. apply H. right. exact Hin.
Qed.

(** Every group holds the items of its panel, in their order. *)
Lemma add_item_groups : forall items table it,
  NoDup (map fst table) ->
  (forall p, In p (map RefChart.panel items) <-> In p (map fst table)) ->
  (forall p g, In (p, g) table -> g = of_panel p items) ->
  forall p g, In (p, g) (add_item table it) -> g = of_panel p (items ++ [it]).
Proof. no_host.
  intros items table it Hnd Hk Hg p g Hin. unfold add_item in Hin.
  rewrite of_panel_snoc.
  destruct (Obj.get table (RefChart.panel it)) as [old | ] eqn:G.
  - destruct (set_present _ table _ old (old ++ [it]) G) as [o1 [o2 [Ho Hs]]].
    rewrite Hs in Hin.
    assert (Hother : forall q h, In (q, h) o1 \/ In (q, h) o2 -> q <> RefChart.panel it).
    { intros q h Hq ->. rewrite Ho, map_app in Hnd. simpl in Hnd.
      apply NoDup_remove_2 in Hnd. apply Hnd. apply in_or_app.
      destruct Hq as [Hq | Hq]; [left | right]; apply (in_map fst) in Hq; exact Hq. }
    apply in_app_or in Hin as [Hin | [Hin | Hin]].
    + assert (Hne : RefChart.panel it <> p)
        by (intro E; apply (Hother p g (or_introl Hin)); symmetry; exact E).
      apply str_eqb_neq in Hne. rewrite Hne, app_nil_r.
      apply Hg. rewrite Ho. apply in_or_app. left. exact Hin.
    + injection Hin as <- <-. rewrite str_eqb_refl. f_equal.
      apply Hg. rewrite Ho. apply in_or_app. right. left. reflexivity.
    + assert (Hne : RefChart.panel it <> p)
        by (intro E; apply (Hother p g (or_intror Hin)); symmetry; exact E).
      apply str_eqb_neq in Hne. rewrite Hne, app_nil_r.
      apply Hg. rewrite Ho. apply in_or_app. right. right. exact Hin.
  - rewrite (set_absent _ table _ _ G) in Hin.
    pose proof (proj1 (get_None_keys _ table _) G) as Hx.
    apply in_app_or in Hin as [Hin | [Hin | []]].
    + assert (Hne : RefChart.panel it <> p).
      { intro E. apply Hx. rewrite E. apply (in_map fst) in Hin. exact Hin. }
      apply str_eqb_neq in Hne. rewrite Hne, app_nil_r. apply Hg. exact Hin.
    + injection Hin as <- <-. rewrite str_eqb_refl.
      rewrite of_panel_none; [reflexivity | ]. rewrite Hk. exact Hx.
Qed.

Lemma groups_fold : forall items' items table,
  counted (map RefChart.panel items) (sizes table) ->
  (forall p g, In (p, g) table -> g = of_panel p items) ->
  forall p g, In (p, g) (fold_left add_item items' table) ->
              g = of_panel p (items ++ items').
Proof. no_host.
  induction items' as [|it items' IH]; intros items table Hc Hg p g Hin; simpl in Hin.
  - rewrite app_nil_r. apply Hg. exact Hin.
  - replace (items ++ it :: items') with ((items ++ [it]) ++ items')
      by (rewrite <- app_assoc; reflexivity).
    apply (IH (items ++ [it]) (add_item table it)); [ | | exact Hin].
    + rewrite sizes_add_item, map_app. apply counted_step. exact Hc.
    + destruct Hc as [Hnd [_ [Hk _]]]. rewrite sizes_keys in Hnd, Hk.
      apply add_item_groups; assumption.
Qed.

Lemma entries_enumerated_keys : forall (V : Type) ms (table : Obj.t V),
  NoDup (map fst table) ->
  StronglySorted (first_seen_before ms) (map fst table) ->
  StronglySorted (fun a b => enumerated_before ms (fst a) (fst b)) (Obj.entries table).
Proof. no_host.
  intros V ms table Hnd Hs. unfold Obj.entries.
  apply StronglySorted_app.
  - apply StronglySorted_weaken
      with (P := fun a b : jsstring * V =>
                   (Z.of_N (Obj.index_of a) <= Z.of_N (Obj.index_of b))%Z /\
                   (Z.of_N (Obj.index_of a) = Z.of_N (Obj.index_of b) -> fst a <> fst b)).
    + intros a b Ha Hb [Hle Hne].
      apply js_sort_In, filter_In in Ha as [_ Ha].
      apply js_sort_In, filter_In in Hb as [_ Hb].
      apply is_index_true in Ha. apply is_index_true in Hb.
      unfold enumerated_before. rewrite Ha, Hb.
      destruct (N.eq_dec (Obj.index_of a) (Obj.index_of b)) as [E | E]; [ | lia].
      exfalso. apply Hne; [congruence | ].
      rewrite (array_index_canonical _ _ Ha), (array_index_canonical _ _ Hb), E.
      reflexivity.
    + apply js_sort_sorted; [reflexivity | ].
      apply StronglySorted_filter.
      apply (StronglySorted_map_inv _ _ fst (fun a b => a <> b)).
      apply NoDup_StronglySorted. exact Hnd.
  - apply StronglySorted_weaken
      with (P := fun a b : jsstring * V => first_seen_before ms (fst a) (fst b)).
    + intros a b Ha Hb H.
      apply filter_In in Ha as [_ Ha]. apply filter_In in Hb as [_ Hb].
      apply negb_true_iff, is_index_false in Ha.
      apply negb_true_iff, is_index_false in Hb.
      unfold enumerated_before. rewrite Ha, Hb. exact H.
    + apply StronglySorted_filter. apply StronglySorted_map_inv. exact Hs.
  - intros a b Ha Hb.
    apply js_sort_In, filter_In in Ha as [_ Ha].
    apply filter_In in Hb as [_ Hb].
    apply is_index_true in Ha. apply negb_true_iff, is_index_false in Hb.
    unfold enumerated_before. rewrite Ha, Hb. exact I.
Qed.

(** X24: grouping throws as soon as an item's panel is a name inherited
    from [Object.prototype]; otherwise it gives one group for each panel
    met, holding the items of that panel in their order, none of them
    empty, the sizes adding up to the number of items, and the groups come
    in the enumeration order of the table of groups. *)
Theorem grouped_by_panel : forall items : list RefChart.item,
  (forall it, In it items -> inherited_name (RefChart.panel it) = true ->
              RefChart.groupedData items = None) /\
  (Forall (fun it => inherited_name (RefChart.panel it) = false) items ->
   exists groups,
     RefChart.groupedData items = Some groups /\
     NoDup (map fst groups) /\
     (forall p, In p (map fst groups) <-> In p (map RefChart.panel items)) /\
     (forall p g, In (p, g) groups -> g = of_panel p items /\ g <> []) /\
     total (map (fun e => length (snd e)) groups) = length items /\
     StronglySorted
       (fun a b => enumerated_before (map RefChart.panel items) (fst a) (fst b)) groups).
Proof. no_host.
  intro items. split.
  - intros it Hin Hit. unfold RefChart.groupedData.
    set (acc := fold_left RefChart.group_step items _).
    assert (E : acc = None) by exact (group_fold_throws items _ it Hin Hit).
    rewrite E. reflexivity.
  - intro Hok. set (table := fold_left add_item items []).
    exists (Obj.entries table).
    assert (Hc : counted (map RefChart.panel items) (sizes table)).
    { unfold table. rewrite sizes_fold.
      apply (counted_fold (map RefChart.panel items) [] []). exact counted_nil. }
    pose proof (entries_perm _ table) as Hperm.
    destruct Hc as [Hnd [Hocc [Hk Hs]]].
    pose proof Hnd as Hnd'. pose proof Hk as Hk'. pose proof Hs as Hs'.
    rewrite sizes_keys in Hnd', Hk', Hs'.
    split; [ | split; [ | split; [ | split; [ | split]]]].
    + unfold RefChart.groupedData.
      set (acc := fold_left RefChart.group_step items _).
      assert (E : acc = Some table) by exact (group_fold_add items [] Hok).
      rewrite E. reflexivity.
    + apply (Permutation_NoDup (Permutation_sym (Permutation_map fst Hperm))). exact Hnd'.
    + intro p. rewrite Hk'. split; apply Permutation_in, Permutation_map.
      * exact Hperm.
      * apply Permutation_sym. exact Hperm.
    + intros p g Hin. apply (Permutation_in _ Hperm) in Hin.
      assert (Hg : g = of_panel p items).
      { apply (groups_fold items [] []); [exact counted_nil | intros ? ? [] | exact Hin]. }
      split; [exact Hg | ].
      assert (Hsz : In (p, length g) (sizes table)).
      { unfold sizes. apply in_map_iff. exists (p, g). split; [reflexivity | exact Hin]. }
      destruct (Hocc p (length g) Hsz) as [_ Hpos].
      intros ->. simpl in Hpos. lia.
    + rewrite (total_perm _ _ (Permutation_map (fun e => length (snd e)) Hperm)).
      transitivity (total (map snd (sizes table))).
      * unfold sizes. rewrite map_map. reflexivity.
      * unfold table. rewrite sizes_fold.
        pose proof (fold_add_marker_total (fun _ => true) (map RefChart.panel items) [])
          as Ht.
        rewrite (filter_all _ (fun e : jsstring * nat => true)) in Ht by reflexivity.
        change (sizes []) with (@nil (jsstring * nat)).
        rewrite Ht. simpl. rewrite (filter_all _ (fun _ => true)) by reflexivity.
        apply length_map.
    + apply entries_enumerated_keys; assumption.
Qed.

(** ** What an event may change *)

Lemma parseCSVData_data : forall csvText filename st,
  data (parseCSVData csvText filename st) = data st \/
  exists rows errors,
    Papa_parse mapHeader csvText = Complete rows errors /\ rows <> [] /\
    data (parseCSVData csvText filename st) = process_rows rows.
Proof.
  intros csvText filename st. unfold parseCSVData.
  destruct (Papa_parse mapHeader csvText) as [rows errors | message] eqn:E.
  - destruct rows as [|r rows].
    + left. unfold on_complete. destruct errors; reflexivity.
    + right. exists (r :: rows), errors. split; [reflexivity | ].
      split; [discriminate | ]. apply on_complete_data. discriminate.
  - left. reflexivity.
Qed.

(** X25: the records change only by a clear or by a load whose own text
    the parser completes with rows.  A clear empties them; an event that
    hands a text to the parser, which completes it with rows, makes them
    the materialized rows of that text; every other event leaves them as
    they are: a filter input, the filter effect, a refused upload, an
    upload or a demo that fails before the parser, a parse that fails and
    a parse that completes with no row.  The filtered records change only
    when the session is cleared or the filters are applied. *)
Theorem records_change_only_by_load : forall (e : event) (st : state),
  (e = Clear -> data (handle e st) = []) /\
  (forall text rows errors,
     hands_to_parser e text ->
     Papa_parse mapHeader text = Complete rows errors -> rows <> [] ->
     data (handle e st) = process_rows rows) /\
  (e <> Clear ->
   (forall text rows errors,
      hands_to_parser e text ->
      Papa_parse mapHeader text = Complete rows errors -> rows = []) ->
   data (handle e st) = data st) /\
  (filteredData (handle e st) = filteredData st \/ e = Clear \/ e = FilterEffect).
Proof.
  clear toLowerCase_lower getMonth_range localeCompare_total localeCompare_trans.
  clear localeCompare getMonth.
  assert (Hrows : forall csvText filename st0 rows errors,
            Papa_parse mapHeader csvText = Complete rows errors -> rows <> [] ->
            data (parseCSVData csvText filename st0) = process_rows rows).
  { intros csvText filename st0 rows errors Hp Hne. unfold parseCSVData. rewrite Hp.
    destruct rows as [|r rows]; [contradiction | ].
    unfold on_complete. destruct errors; reflexivity. }
  assert (Hkept : forall csvText filename st0,
            (forall rows errors,
               Papa_parse mapHeader csvText = Complete rows errors -> rows = []) ->
            data (parseCSVData csvText filename st0) = data st0).
  { intros csvText filename st0 Hno.
    destruct (parseCSVData_data csvText filename st0) as [H | [rows [errors [Hp [Hne _]]]]].
    - exact H.
    - exfalso. exact (Hne (Hno rows errors Hp)). }
  intros e st. split; [ | split; [ | split]].
  - intros ->. reflexivity.
  - intros text rows errors Hhands Hp Hne.
    inversion Hhands as [f proceed result Hsize E1 E2 | text' E1 E2]; subst; cbn [handle].
    + unfold handleFileUpload.
      assert (Hgo : (10485760 <? file_size f)%N && negb proceed = false).
      { destruct Hsize as [Hsize | ->].
        - apply N.leb_le in Hsize. rewrite N.ltb_antisym, Hsize. reflexivity.
        - apply andb_false_r. }
      rewrite Hgo. exact (Hrows _ _ _ _ _ Hp Hne).
    + unfold loadDemoCSV. exact (Hrows _ _ _ _ _ Hp Hne).
  - intros Hclear Hno.
    destruct e as [f proceed read | outcome | | v | v | v | ]; cbn [handle];
      try reflexivity.
    + unfold handleFileUpload. destruct f as [f | ]; [ | reflexivity].
      destruct ((10485760 <? file_size f)%N && negb proceed) eqn:Hgo; [reflexivity | ].
      destruct read as [result | ]; [ | reflexivity].
      apply Hkept. intros rows errors Hp.
      apply (Hno result rows errors); [ | exact Hp].
      constructor. apply andb_false_iff in Hgo as [Hgo | Hgo].
      * left. apply N.ltb_ge. exact Hgo.
      * right. destruct proceed; [reflexivity | discriminate].
    + destruct outcome as [text | | message]; [ | reflexivity | reflexivity].
      unfold loadDemoCSV.
      apply (eq_trans (Hkept text (lit "demo CSV") (setError [] (setIsLoading true st))
                         (fun rows errors Hp => Hno text rows errors (hands_demo text) Hp))).
      reflexivity.
    + exfalso. apply Hclear. reflexivity.
  - destruct e as [f proceed read | outcome | | v | v | v | ]; cbn [handle];
      try (left; reflexivity); try (right; left; reflexivity);
      try (right; right; reflexivity).
    + left. unfold handleFileUpload. destruct f as [f | ]; [ | reflexivity].
      destruct ((10485760 <? file_size f)%N && negb proceed); [reflexivity | ].
      destruct read as [result | ]; [ | reflexivity].
      apply parseCSVData_spec_kept.
    + left. destruct outcome as [text | | message]; [ | reflexivity | reflexivity].
      unfold loadDemoCSV.
      exact (proj2 (proj2 (proj2 (parseCSVData_spec_kept text (lit "demo CSV")
                                    (setError [] (setIsLoading true st)))))).
Qed.

End Dashboard.

(** * The properties on the example host *)

Lemma lower_ascii_lower : forall s,
  forallb is_lower_or_digit s = true -> lower_ascii s = s.
Proof.
  induction s as [|c s IH]; simpl; intro H.
  - reflexivity.
  - apply andb_true_iff in H as [Hc Hs]. rewrite (IH Hs).
    assert (E : ((65 <=? c) && (c <=? 90))%N = false).
    { unfold is_lower_or_digit, is_digit in Hc.
      apply orb_true_iff in Hc. rewrite !andb_true_iff, !N.leb_le in Hc.
      apply andb_false_iff. rewrite !N.leb_gt. lia. }
    rewrite E. reflexivity.
Qed.

Lemma months_getMonth_range : forall t, (0 <= months_getMonth t <= 11)%Z.
Proof.
  intro t. unfold months_getMonth.
  pose proof (Z.mod_pos_bound t 12 ltac:(lia)). lia.
Qed.

Lemma synthetic_id_is_rolling_hash_witness :
  missing_or_empty (Obj.get sample_row k_id) /\
  Obj.get (process_row sample_row) k_id = Some (lit "225879548").
Proof.
  split; [left; reflexivity | ].
  destruct (synthetic_id_is_rolling_hash lower_ascii one_cell_parse sample_row
              (or_introl eq_refl)) as [_ [[id [H1 [H2 _]]] _]].
  rewrite H1, H2. reflexivity.
Defined.

Lemma record_id_nonempty_witness :
  Obj.get (process_row ((k_id, lit "1") :: sample_row)) k_id = Some (lit "1") /\
  Obj.get (process_row sample_row) k_id = Some (lit "225879548").
Proof.
  split.
  - destruct (record_id_nonempty ((k_id, lit "1") :: sample_row)) as [id [H1 [_ [H3 _]]]].
    rewrite H1. f_equal. apply H3; [reflexivity | discriminate].
  - destruct (record_id_nonempty sample_row) as [id [H1 [_ [_ [H4 _]]]]].
    rewrite H1. f_equal. rewrite H4 by (left; reflexivity). reflexivity.
Defined.

Lemma filter_keeps_conjunction_witness :
  satisfies lower_ascii iso_Date_parse months_getFullYear
    (setSearchTerm (lit "gLu") sample_state) (nth 1 sample_records []) /\
  map (fun r => Obj.get r k_id)
    (filteredData (applyFilters lower_ascii iso_Date_parse months_getFullYear
                     (setSearchTerm (lit "gLu") sample_state)))
  = [Some (lit "2"); Some (lit "4")].
Proof.
  destruct (filter_keeps_conjunction lower_ascii iso_Date_parse months_getFullYear
              (setSearchTerm (lit "gLu") sample_state)) as [H1 [H2 _]].
  split.
  - apply (proj1 (H2 (nth 1 sample_records []))). reflexivity.
  - rewrite H1. reflexivity.
Defined.

Lemma filter_is_subsequence_witness :
  searchTerm sample_state = [] /\ selectedProvider sample_state = s_All /\
  selectedYear sample_state = s_All /\
  filteredData (applyFilters lower_ascii iso_Date_parse months_getFullYear sample_state)
  = sample_records.
Proof.
  repeat (split; [reflexivity | ]).
  apply (proj2 (proj2 (filter_is_subsequence lower_ascii iso_Date_parse
                         months_getFullYear sample_state))); reflexivity.
Defined.

Lemma date_classifier_witness :
  (forall t, (0 <= months_getMonth t <= 11)%Z) /\
  iso_Date_parse (lit "2024-07-15") = Some 24294%Z /\
  (1000 <= months_getFullYear 24294 <= 9999)%Z /\
  extractYearMonth iso_Date_parse months_getFullYear months_getMonth
    (Some (lit "2024-07-15")) = lit "2024-07" /\
  length (extractYearMonth iso_Date_parse months_getFullYear months_getMonth
            (Some (lit "2024-07-15"))) = 7 /\
  iso_Date_parse (lit "20240715") = None /\
  extractYear iso_Date_parse months_getFullYear (Some (lit "20240715")) = lit "2024" /\
  extractYearMonth iso_Date_parse months_getFullYear months_getMonth
    (Some (lit "20240715")) = s_Unknown.
Proof.
  pose proof (date_classifier iso_Date_parse months_getFullYear months_getMonth
                months_getMonth_range) as [_ [_ [_ [_ [Hnone Hsome]]]]].
  destruct (Hsome (lit "2024-07-15") 24294%Z ltac:(discriminate) eq_refl)
    as [Hbucket [_ Hyear]].
  destruct (Hnone (lit "20240715") ltac:(discriminate) eq_refl)
    as [_ [_ [_ [Hruns Hmonth]]]].
  split; [exact months_getMonth_range | ].
  split; [reflexivity | ].
  split; [split; discriminate | ].
  split; [apply (eq_trans Hbucket); reflexivity | ].
  split; [apply Hyear; split; discriminate | ].
  split; [reflexivity | ].
  split; [apply (eq_trans Hruns); reflexivity | exact Hmonth].
Defined.

(** The calendar of the example does not parse "x12345" nor "20240715",
    and neither string has a run of exactly four digits; the year is
    nevertheless "1234" and "2024", the first four digits of a longer run.
    And the year 99 of "0099-01-01" is written as it is: the bucket is
    "99-01", which is not four digits, a hyphen and two digits. *)
Lemma date_classifier_counterexample :
  iso_Date_parse (lit "x12345") = None /\
  first_run_of_exactly_four (lit "x12345") = None /\
  extractYear iso_Date_parse months_getFullYear (Some (lit "x12345")) = lit "1234" /\
  iso_Date_parse (lit "20240715") = None /\
  first_run_of_exactly_four (lit "20240715") = None /\
  extractYear iso_Date_parse months_getFullYear (Some (lit "20240715")) = lit "2024" /\
  lit "1234" <> s_Unknown /\ lit "2024" <> s_Unknown /\
  iso_Date_parse (lit "0099-01-01") = Some 1188%Z /\
  months_getFullYear 1188 = 99%Z /\
  extractYearMonth iso_Date_parse months_getFullYear months_getMonth
    (Some (lit "0099-01-01")) = lit "99-01" /\
  ~ (exists yyyy mm, length yyyy = 4 /\ length mm = 2 /\
                     lit "99-01" = yyyy ++ lit "-" ++ mm).
Proof.
  repeat (split; [first [reflexivity | discriminate] | ]).
  intros [yyyy [mm [Hy [Hm H]]]].
  apply (f_equal (@length N)) in H. rewrite !length_app, Hy, Hm in H. discriminate H.
Qed.

Lemma header_normalization_witness :
  (forall s, forallb is_lower_or_digit s = true -> lower_ascii s = s) /\
  first_alias_match (lit "sampledate") (lit "date") /\
  mapHeader lower_ascii (lit " Sample Date") = lit "date".
Proof.
  assert (Hfirst : first_alias_match (lit "sampledate") (lit "date")).
  { exists (firstn 3 HEADER_ALIASES),
           [lit "date"; lit "sampledate"; lit "specimendate"; lit "testdate"],
           (skipn 4 HEADER_ALIASES).
    split; [reflexivity | ]. split; [right; left; reflexivity | ].
    intros e He H. simpl in He.
    repeat (destruct He as [He | He]; [subst e; simpl in H | ]); try contradiction;
      repeat (destruct H as [H | H]; [discriminate H | ]); exact H. }
  split; [exact lower_ascii_lower | ]. split; [exact Hfirst | ].
  apply (header_normalization lower_ascii lower_ascii_lower (lit " Sample Date")).
  exact Hfirst.
Defined.

Lemma top_markers_enumeration_order_witness :
  Forall (fun r => inherited_name (marker_of r) = false) tie_records /\
  ties_enumerated (map marker_of tie_records) (top_entries tie_records 10) /\
  length (top_entries tie_records 10) <= 10.
Proof.
  assert (H : Forall (fun r => inherited_name (marker_of r) = false) tie_records)
    by (repeat constructor).
  split; [exact H | ].
  destruct (top_markers_enumeration_order tie_records 10 H)
    as [_ [_ [Hlen [_ [_ [_ [_ [_ [Hties _]]]]]]]]].
  split; [exact Hties | exact Hlen].
Defined.

(** On [tie_records] the two markers are met once each, "b" first, and the
    aggregate gives "1" first: equal counts do not come as first met. *)
Lemma top_markers_ties_counterexample :
  Forall (fun r => inherited_name (marker_of r) = false) tie_records /\
  aggregateTopMarkers tie_records 10 = mkChart [lit "1"; lit "b"] [1; 1] /\
  ~ ties_first_seen (map marker_of tie_records) (top_entries tie_records 10).
Proof.
  split; [repeat constructor | ]. split; [reflexivity | ].
  intro H. unfold ties_first_seen in H.
  change (top_entries tie_records 10) with [(lit "1", 1); (lit "b", 1)] in H.
  inversion H as [|? ? _ Hx]; subst.
  inversion Hx as [|? ? Hb _]; subst.
  destruct (Hb eq_refl) as [l1 [l2 [Hs [_ [Hn _]]]]].
  destruct l1 as [|x l1].
  - discriminate Hs.
  - injection Hs as Hx1 _. apply Hn. left. symmetry. exact Hx1.
Qed.

Lemma empty_result_keeps_records_witness :
  one_cell_parse (mapHeader lower_ascii) [] = Complete [] [] /\
  error (parseCSVData lower_ascii one_cell_parse [] (lit "empty.csv") sample_state)
  = lit "No data found in the CSV file." /\
  data (parseCSVData lower_ascii one_cell_parse [] (lit "empty.csv") sample_state)
  = sample_records.
Proof.
  split; [reflexivity | ].
  destruct (empty_result_keeps_records lower_ascii one_cell_parse sample_state []
              (lit "empty.csv") [] eq_refl) as [H1 [_ [H2 _]]].
  split; [exact H1 | exact H2].
Defined.

Lemma year_list_order_witness :
  exists numericYears unknown,
    [lit "All"; lit "2025"; lit "2024"; lit "1234"; lit "Unknown"]
    = [s_All] ++ numericYears ++ unknown /\
    StronglySorted (fun a b => (year_number b <= year_number a)%Z) numericYears.
Proof.
  destruct (year_list_order iso_Date_parse months_getFullYear sample_records)
    as [numericYears [unknown [H1 [_ [_ [_ [H2 _]]]]]]].
  exists numericYears, unknown. split; [exact H1 | exact H2].
Defined.

(** * The further properties on the example host *)

Lemma provider_list_sorted_witness :
  providerList sample_records = [lit "All"; lit "Dr. Jones"; lit "Dr. Smith"] /\
  exists providers,
    providerList sample_records = s_All :: providers /\
    StronglySorted code_unit_less providers.
Proof.
  split; [reflexivity | ].
  destruct (provider_list_sorted sample_records) as [providers [H1 [H2 _]]].
  exists providers. split; [exact H1 | exact H2].
Defined.

Lemma provider_distribution_witness :
  Forall (fun r => inherited_name (provider_of r) = false) sample_records /\
  aggregateProviders sample_records
    = mkChart [lit "Dr. Smith"; lit "Dr. Jones"; lit "Unknown"] [1; 2; 1] /\
  total (counts (aggregateProviders sample_records)) = length sample_records.
Proof.
  assert (H : Forall (fun r => inherited_name (provider_of r) = false) sample_records)
    by (repeat constructor).
  split; [exact H | ]. split; [reflexivity | ].
  exact (proj1 (proj2 (proj2 (proj2 (proj2 (provider_distribution sample_records H)))))).
Defined.

Lemma months_over_time_witness :
  (forall a b, (0 < str_compare a b)%Z -> (str_compare b a <= 0)%Z) /\
  aggregateMarkersOverTime iso_Date_parse months_getFullYear months_getMonth str_compare
    sample_records = mkChart [lit "2024-07"; lit "2025-01"] [1; 1] /\
  ~ In s_Unknown
      (labels (aggregateMarkersOverTime iso_Date_parse months_getFullYear months_getMonth
                 str_compare sample_records)).
Proof.
  split; [exact str_compare_total | ]. split; [reflexivity | ].
  exact (proj1 (proj2 (months_over_time iso_Date_parse months_getFullYear months_getMonth
                         str_compare str_compare_total str_compare_trans sample_records))).
Defined.

Lemma summary_counts_witness :
  summaryStats iso_Date_parse sample_records
    = Some (mkSummary 4 2 2 (lit "2025-01-10")) /\
  uniqueMarkers (mkSummary 4 2 2 (lit "2025-01-10")) = length [lit "WBC"; lit "Glucose"].
Proof.
  split; [reflexivity | ].
  destruct (summary_counts iso_Date_parse sample_records) as [_ H].
  destruct (H _ eq_refl) as [_ [_ [_ [Hm _]]]].
  apply Hm.
  - repeat constructor; simpl; intuition discriminate.
  - intro m. split.
    + intros [<- | [<- | []]]; (split; [discriminate | ]).
      * exists (nth 0 sample_records []). split; [left; reflexivity | reflexivity].
      * exists (nth 1 sample_records []). split; [right; left; reflexivity | reflexivity].
    + intros [_ [r [Hr Hm']]]. simpl in Hr.
      destruct Hr as [<- | [<- | [<- | [<- | []]]]]; injection Hm' as <-; simpl; tauto.
Defined.

Lemma latest_date_maximal_witness :
  summaryStats iso_Date_parse sample_records
    = Some (mkSummary 4 2 2 (lit "2025-01-10")) /\
  In (lit "2025-01-10")
     (filter_Boolean (map (fun r => Obj.get r k_date) sample_records)).
Proof.
  split; [reflexivity | ].
  destruct (latest_date_maximal iso_Date_parse sample_records _ eq_refl) as [_ [H _]].
  apply H. discriminate.
Defined.

Lemma latest_date_first_unparsed_witness :
  iso_Date_parse (lit "last spring") = None /\
  summaryStats iso_Date_parse undated_first
    = Some (mkSummary 2 0 0 (lit "last spring")) /\
  latestDate (mkSummary 2 0 0 (lit "last spring")) = lit "last spring".
Proof.
  split; [reflexivity | ]. split; [reflexivity | ].
  exact (latest_date_first_unparsed iso_Date_parse undated_first _ (lit "last spring")
           [lit "2024-07-15"] eq_refl eq_refl eq_refl).
Defined.

Lemma pipe_in_field_collides_witness :
  field pipe_row_1 k_date <> field pipe_row_2 k_date /\
  Obj.get (process_row pipe_row_1) k_id = Obj.get (process_row pipe_row_2) k_id.
Proof.
  split; [discriminate | ].
  apply (pipe_in_field_collides pipe_row_1 pipe_row_2 (lit "2024") (lit "07") (lit "A"));
    try reflexivity; left; reflexivity.
Defined.

Lemma session_invariant_witness :
  reachable lower_ascii iso_Date_parse months_getFullYear one_cell_parse
    (handle lower_ascii iso_Date_parse months_getFullYear one_cell_parse FilterEffect
       (handle lower_ascii iso_Date_parse months_getFullYear one_cell_parse
          (LoadDemo (FetchText (lit "2024-07-15"))) initial_state)) /\
  Forall has_id
    (filteredData
       (handle lower_ascii iso_Date_parse months_getFullYear one_cell_parse FilterEffect
          (handle lower_ascii iso_Date_parse months_getFullYear one_cell_parse
             (LoadDemo (FetchText (lit "2024-07-15"))) initial_state))).
Proof.
  assert (H : reachable lower_ascii iso_Date_parse months_getFullYear one_cell_parse
                (handle lower_ascii iso_Date_parse months_getFullYear one_cell_parse
                   FilterEffect
                   (handle lower_ascii iso_Date_parse months_getFullYear one_cell_parse
                      (LoadDemo (FetchText (lit "2024-07-15"))) initial_state)))
    by (repeat constructor).
  split; [exact H | ].
  exact (proj1 (proj2 (session_invariant _ _ _ _ _ H))).
Defined.

Lemma failed_parse_keeps_records_witness :
  refusing_parse (mapHeader lower_ascii) (lit "a,b") = Failed (lit "unreadable") /\
  error (parseCSVData lower_ascii refusing_parse (lit "a,b") (lit "labs.csv") sample_state)
    = lit "Failed to parse labs.csv: unreadable" /\
  data (parseCSVData lower_ascii refusing_parse (lit "a,b") (lit "labs.csv") sample_state)
    = sample_records.
Proof.
  split; [reflexivity | ].
  destruct (failed_parse_keeps_records lower_ascii refusing_parse sample_state (lit "a,b")
              (lit "labs.csv") (lit "unreadable") eq_refl) as [H1 [H2 _]].
  split; [exact H1 | exact H2].
Defined.

Lemma load_keeps_filter_spec_witness :
  one_cell_parse (mapHeader lower_ascii) (lit "2024-07-15")
    = Complete [[(lit "date", lit "2024-07-15")]] [] /\
  filteredData
    (applyFilters lower_ascii iso_Date_parse months_getFullYear
       (parseCSVData lower_ascii one_cell_parse (lit "2024-07-15") (lit "one.csv")
          (setSelectedYear (lit "2025") sample_state))) = [].
Proof.
  split; [reflexivity | ].
  destruct (load_keeps_filter_spec lower_ascii iso_Date_parse months_getFullYear
              one_cell_parse (setSelectedYear (lit "2025") sample_state)
              (lit "2024-07-15") (lit "one.csv")) as [_ [_ [_ [_ H]]]].
  destruct (H _ _ eq_refl ltac:(discriminate)) as [_ [_ [_ H4]]].
  rewrite H4. reflexivity.
Defined.

Lemma demo_load_outcomes_witness :
  FetchNotOk <> FetchText [] /\
  data (loadDemoCSV lower_ascii one_cell_parse FetchNotOk sample_state) = sample_records /\
  error (loadDemoCSV lower_ascii one_cell_parse FetchNotOk sample_state)
    = lit "Failed to load demo CSV: Failed to load demo CSV".
Proof.
  split; [discriminate | ].
  destruct (demo_load_outcomes lower_ascii one_cell_parse sample_state)
    as [_ [H2 [_ H4]]].
  split; [ | exact H2].
  exact (proj1 (H4 FetchNotOk ltac:(discriminate))).
Defined.

Lemma upload_outcomes_witness :
  (10485760 < file_size (mkFile (lit "big.csv") 20000000))%N /\
  handleFileUpload lower_ascii one_cell_parse (Some (mkFile (lit "big.csv") 20000000))
    false (ReadText (lit "2024-07-15")) sample_state = sample_state /\
  (file_size sample_file <= 10485760)%N /\
  handleFileUpload lower_ascii one_cell_parse (Some sample_file) false ReadError sample_state
    = setError msg_read_failed sample_state.
Proof.
  split; [reflexivity | ]. split.
  - apply (upload_outcomes lower_ascii one_cell_parse sample_state
             (mkFile (lit "big.csv") 20000000) false (ReadText (lit "2024-07-15"))).
    reflexivity.
  - split; [discriminate | ].
    destruct (upload_outcomes lower_ascii one_cell_parse sample_state sample_file false
                ReadError) as [_ [_ [H3 [_ [H5 _]]]]].
    rewrite H3 by discriminate. exact H5.
Defined.

Lemma year_option_selects_witness :
  searchTerm (setSelectedYear (lit "1234") sample_state) = [] /\
  selectedProvider (setSelectedYear (lit "1234") sample_state) = s_All /\
  selectedYear (setSelectedYear (lit "1234") sample_state) <> s_All /\
  In (lit "1234") (yearList iso_Date_parse months_getFullYear sample_records) /\
  filteredData (applyFilters lower_ascii iso_Date_parse months_getFullYear
                  (setSelectedYear (lit "1234") sample_state)) <> [].
Proof.
  split; [reflexivity | ]. split; [reflexivity | ]. split; [discriminate | ].
  assert (H : In (lit "1234") (yearList iso_Date_parse months_getFullYear sample_records))
    by (vm_compute; tauto).
  split; [exact H | ].
  apply (year_option_selects lower_ascii iso_Date_parse months_getFullYear
           (setSelectedYear (lit "1234") sample_state));
    [reflexivity | reflexivity | discriminate | exact H].
Defined.

Lemma provider_option_selects_witness :
  selectedProvider (setSelectedProvider (lit "Dr. Nobody") sample_state) <> s_All /\
  selectedProvider (setSelectedProvider (lit "Dr. Nobody") sample_state) <> [] /\
  ~ In (lit "Dr. Nobody") (providerList sample_records) /\
  ~ filteredData (applyFilters lower_ascii iso_Date_parse months_getFullYear
                    (setSelectedProvider (lit "Dr. Nobody") sample_state)) <> [].
Proof.
  split; [discriminate | ]. split; [discriminate | ].
  assert (H : ~ In (lit "Dr. Nobody") (providerList sample_records))
    by (vm_compute; intuition discriminate).
  split; [exact H | ]. intro Hf. apply H.
  apply (provider_option_selects lower_ascii iso_Date_parse months_getFullYear
           (setSelectedProvider (lit "Dr. Nobody") sample_state));
    [reflexivity | reflexivity | discriminate | discriminate | exact Hf].
Defined.

Lemma month_extends_year_witness :
  (forall t, (0 <= months_getMonth t <= 11)%Z) /\
  extractYearMonth iso_Date_parse months_getFullYear months_getMonth
    (Some (lit "2024-07-15")) <> s_Unknown /\
  extractYear iso_Date_parse months_getFullYear (Some (lit "2024-07-15")) <> s_Unknown.
Proof.
  split; [exact months_getMonth_range | ]. split; [discriminate | ].
  destruct (month_extends_year iso_Date_parse months_getFullYear months_getMonth
              months_getMonth_range (Some (lit "2024-07-15"))) as [H | [H _]].
  - discriminate H.
  - exact H.
Defined.

Lemma alias_table_unambiguous_witness :
  (forall s, forallb is_lower_or_digit s = true -> lower_ascii s = s) /\
  mapHeader lower_ascii (lit "physician") = lit "provider".
Proof.
  split; [exact lower_ascii_lower | ].
  apply (proj2 (alias_table_unambiguous lower_ascii lower_ascii_lower)
           (lit "provider", [lit "provider"; lit "doctor"; lit "physician"])).
  - right. right. left. reflexivity.
  - right. right. left. reflexivity.
Defined.

Lemma top_markers_totals_witness :
  Forall (fun r => inherited_name (marker_of r) = false) sample_records /\
  length (dedupe [] (map marker_of sample_records)) <= 10 /\
  total (counts (aggregateTopMarkers sample_records 10)) = length sample_records /\
  top_entries sample_records 1 = firstn 1 (top_entries sample_records 10).
Proof.
  assert (H : Forall (fun r => inherited_name (marker_of r) = false) sample_records)
    by (repeat constructor).
  assert (Hn : length (dedupe [] (map marker_of sample_records)) <= 10)
    by (vm_compute; repeat constructor).
  destruct (top_markers_totals sample_records 1 10 H) as [H1 _].
  destruct (top_markers_totals sample_records 10 10 H) as [_ H2].
  split; [exact H | ]. split; [exact Hn | ]. split.
  - exact (proj1 (H2 Hn)).
  - apply H1. repeat constructor.
Defined.

Lemma synthetic_id_length_witness :
  missing_or_empty (Obj.get sample_row k_id) /\
  exists id, Obj.get (process_row sample_row) k_id = Some id /\ 1 <= length id <= 10.
Proof.
  split; [left; reflexivity | ].
  destruct (synthetic_id_length sample_row (or_introl eq_refl)) as [id [H1 [H2 _]]].
  exists id. split; [exact H1 | exact H2].
Defined.

Lemma reference_filter_witness :
  map RefChart.marker (RefChart.filteredData lower_ascii sample_items (lit "IRON") (lit "CBC"))
    = [lit "Hemoglobin"; lit "Hematocrit"] /\
  length (RefChart.filteredData lower_ascii sample_items (lit "IRON") (lit "CBC"))
    <= length sample_items.
Proof.
  split; [reflexivity | ].
  exact (proj1 (proj2 (reference_filter lower_ascii sample_items (lit "IRON") (lit "CBC")))).
Defined.

Lemma panel_options_witness :
  RefChart.panels sample_items = [lit "All"; lit "CBC"; lit "Lipids"] /\
  RefChart.filteredData lower_ascii sample_items [] (lit "Lipids") <> [].
Proof.
  split; [reflexivity | ].
  destruct (panel_options lower_ascii sample_items) as [options [H1 [_ [_ H4]]]].
  apply H4. injection H1 as <-. right. left. reflexivity.
Defined.

Lemma grouped_by_panel_witness :
  Forall (fun it => inherited_name (RefChart.panel it) = false) sample_items /\
  exists groups,
    RefChart.groupedData sample_items = Some groups /\
    map fst groups = [lit "CBC"; lit "Lipids"] /\
    total (map (fun e => length (snd e)) groups) = length sample_items.
Proof.
  assert (H : Forall (fun it => inherited_name (RefChart.panel it) = false) sample_items)
    by (repeat constructor).
  split; [exact H | ].
  destruct (proj2 (grouped_by_panel sample_items) H) as [groups [H1 [_ [_ [_ [H5 _]]]]]].
  exists groups. split; [exact H1 | ]. split; [ | exact H5].
  vm_compute in H1. injection H1 as <-. reflexivity.
Defined.

Lemma records_change_only_by_load_witness :
  hands_to_parser (LoadDemo (FetchText (lit "2024-07-15"))) (lit "2024-07-15") /\
  data (handle lower_ascii iso_Date_parse months_getFullYear one_cell_parse
          (LoadDemo (FetchText (lit "2024-07-15"))) sample_state)
  = process_rows [[(k_date, lit "2024-07-15")]] /\
  data (handle lower_ascii iso_Date_parse months_getFullYear refusing_parse
          (Upload (Some sample_file) true (ReadText (lit "a,b"))) sample_state)
  = sample_records /\
  data (handle lower_ascii iso_Date_parse months_getFullYear one_cell_parse
          (TypeSearch (lit "2024-07-15")) sample_state)
  = sample_records.
Proof.
  split; [constructor | ]. split; [ | split].
  - apply (proj1 (proj2 (records_change_only_by_load lower_ascii iso_Date_parse
                           months_getFullYear one_cell_parse
                           (LoadDemo (FetchText (lit "2024-07-15"))) sample_state))
             (lit "2024-07-15") [[(k_date, lit "2024-07-15")]] []).
    + constructor.
    + reflexivity.
    + discriminate.
  - apply (proj1 (proj2 (proj2 (records_change_only_by_load lower_ascii iso_Date_parse
                                  months_getFullYear refusing_parse
                                  (Upload (Some sample_file) true (ReadText (lit "a,b")))
                                  sample_state)))).
    + discriminate.
    + intros text rows errors _ H. discriminate H.
  - apply (proj1 (proj2 (proj2 (records_change_only_by_load lower_ascii iso_Date_parse
                                  months_getFullYear one_cell_parse
                                  (TypeSearch (lit "2024-07-15")) sample_state)))).
    + discriminate.
    + intros text rows errors H. inversion H.
Defined.
